(** * vibeants: pheromone field, obstacles, food sources and the steps of
      the ant's update (steering, speed, bounce, path, pickup, delivery,
      trapped detection), embedded from [src/simulation.js].

    Conventions of the embedding.

    - A JavaScript [number] that carries a measurement (coordinates, trail
      strengths, speeds, times) is a real number of [R]: arithmetic is exact,
      there is no rounding, no overflow and no signed zero.  [Math.hypot] and
      [Math.sqrt] are [sqrt], [Math.min]/[Math.max] are [Rmin]/[Rmax],
      [Math.floor]/[Math.ceil] are [Zfloor]/[Zceil], [Math.cos], [Math.sin],
      [Math.atan] and [Math.acos] are [cos], [sin], [atan] and [acos].
    - A JavaScript [number] that only ever holds an integer (grid indices and
      sizes, loop counters, food units, the nest's stock) is a [Z].
    - The places where the source divides zero by zero on ordinary input,
      [closestOnSeg] on a segment of length zero and [getDirectPath] between
      a point and itself, are written out: the result is the not-a-number
      point, [None] here.
    - Rounding decides one property, the decay of the cells to 0 under
      [evaporate]: for it the loops of [evaporate] are also given on binary64
      numbers, in [Binary64], with the operations of binary64.
    - [Math.random()] and [performance.now()] are inputs of the function that
      calls them.
    - Arrays are lists; [a[i]] is stdpp's list lookup. *)

From Stdlib Require Import PrimFloat.
From Stdlib Require Import Reals Lra Lia ZArith String Bool.
From stdpp Require Import base list.

#[local] Set Warnings "-inexact-float".

#[local] Open Scope Z_scope.
#[local] Open Scope R_scope.

(** ** Comparisons of numbers, as booleans *)

Definition Rltb (a b : R) : bool := if Rlt_dec a b then true else false.
Definition Rleb (a b : R) : bool := if Rle_dec a b then true else false.
Definition Rgtb (a b : R) : bool := Rltb b a.

(** [a === b] on numbers *)
Definition Reqb (a b : R) : bool := if Req_dec_T a b then true else false.

(** ** class Vec *)

Module Vec.

Record t : Type := new { x : R; y : R }.

Definition add (u v : t) : t := new (x u + x v) (y u + y v).
Definition subtract (u v : t) : t := new (x u - x v) (y u - y v).
Definition multiply (u : t) (s : R) : t := new (x u * s) (y u * s).
Definition divide (u : t) (s : R) : t := new (x u / s) (y u / s).

(** [Math.hypot(this.x, this.y)] *)
Definition magnitude (u : t) : R := sqrt (x u * x u + y u * y u).

Definition normalize (u : t) : t :=
  let m := magnitude u in
  if Rgtb m 0 then divide u m else new 0 0.

Definition dot (u v : t) : R := x u * x v + y u * y v.

(** [Math.atan2(y, x)], on numbers that are not signed zeros. *)
Definition atan2 (b a : R) : R :=
  if Rltb 0 a then atan (b / a)
  else if Rltb a 0 then
    (if Rleb 0 b then atan (b / a) + PI else atan (b / a) - PI)
  else if Rltb 0 b then PI / 2
  else if Rltb b 0 then - (PI / 2)
  else 0.

Definition angle (u : t) : R := atan2 (y u) (x u).

(** [Vec.random()]; [rnd] is the value [Math.random()] returned. *)
Definition random (rnd : R) : t :=
  let a := rnd * PI * 2 in
  new (cos a) (sin a).

End Vec.

(** ** makeBlob

    [rnd i] is the value [Math.random()] returns in the iteration [i]. *)

Definition makeBlob (cx cy r irregularity : R) (points : Z) (rnd : nat -> R)
    : list Vec.t :=
  let points := Z.max 3 points in
  map (fun i : nat =>
         let theta := (INR i / IZR points) * PI * 2 in
         let variance := 1 + (rnd i * 2 - 1) * irregularity in
         let radius := r * variance in
         Vec.new (cx + cos theta * radius) (cy + sin theta * radius))
      (seq 0 (Z.to_nat points)).

(** ** closestOnSeg

    [t] is a quotient whose divisor is the squared length of the segment.
    When [a] and [b] coincide the dividend is zero as well, the quotient is
    not a number, and so is every coordinate of the result: [None]. *)

Definition closestOnSeg (a b p : Vec.t) : option Vec.t :=
  let ab := Vec.subtract b a in
  let den := Vec.x ab * Vec.x ab + Vec.y ab * Vec.y ab in
  if Req_dec_T den 0 then None
  else
    let t := ((Vec.x p - Vec.x a) * Vec.x ab + (Vec.y p - Vec.y a) * Vec.y ab) / den in
    let tt := Rmax 0 (Rmin 1 t) in
    Some (Vec.new (Vec.x a + Vec.x ab * tt) (Vec.y a + Vec.y ab * tt)).

(** ** class PheromoneField *)

Module PheromoneField.

Abbreviation grid := (list (list R)).

(** [g[i][j]]; every read of the source is at an index in range (the
    result of [index], or an index tested by the guard of a loop); out of
    range, where the source finds no column or no cell, the model reads 0. *)
Definition get (g : grid) (i j : Z) : R :=
  if (i <? 0)%Z || (j <? 0)%Z then 0
  else default 0 ((g !! Z.to_nat i) ≫= (fun col => col !! Z.to_nat j)).

(** [g[i][j] = v], in place; out of range the model leaves [g] as it is. *)
Definition set (g : grid) (i j : Z) (v : R) : grid :=
  if (i <? 0)%Z || (j <? 0)%Z then g
  else alter (fun col => <[Z.to_nat j := v]> col) (Z.to_nat i) g.

Record t : Type := mk {
  cell : R;
  gridW : Z;
  gridH : Z;
  home : grid;
  food : grid;
  pathSuccess : grid
}.

Definition with_home (f : t) (g : grid) : t :=
  mk (cell f) (gridW f) (gridH f) g (food f) (pathSuccess f).
Definition with_food (f : t) (g : grid) : t :=
  mk (cell f) (gridW f) (gridH f) (home f) g (pathSuccess f).
Definition with_pathSuccess (f : t) (g : grid) : t :=
  mk (cell f) (gridW f) (gridH f) (home f) (food f) g.

(** [Array(W).fill().map(() => Array(H).fill(0))] *)
Definition zeros (W H : Z) : grid :=
  replicate (Z.to_nat W) (replicate (Z.to_nat H) 0).

Definition constructor (w h cell : R) : t :=
  let W := Z.max 1 (Zceil (w / cell)) in
  let H := Z.max 1 (Zceil (h / cell)) in
  mk cell W H (zeros W H) (zeros W H) (zeros W H).

Definition _clamp (i max : Z) : Z := Z.min (Z.max i 0) (max - 1).

Definition index (f : t) (pos : Vec.t) : Z * Z :=
  let gx := Zfloor (Vec.x pos / cell f) in
  let gy := Zfloor (Vec.y pos / cell f) in
  (_clamp gx (gridW f), _clamp gy (gridH f)).

(** The channel written by [deposit]: ['home'] or, for every other
    string, the food grid. *)
Definition channel (f : t) (type : string) : grid :=
  if String.eqb type "home" then home f else food f.
Definition with_channel (f : t) (type : string) (g : grid) : t :=
  if String.eqb type "home" then with_home f g else with_food f g.

Definition spreadRadius : Z := 1.

(** Body of the two nested loops of [deposit] at the offsets [dx], [dy]. *)
Definition spread_cell (type : string) (amt successBonus : R) (gx gy : Z)
    (f : t) (dx dy : Z) : t :=
  let nx := (gx + dx)%Z in
  let ny := (gy + dy)%Z in
  if (0 <=? nx)%Z && (nx <? gridW f)%Z && (0 <=? ny)%Z && (ny <? gridH f)%Z then
    let distance := sqrt (IZR (dx * dx + dy * dy)) in
    if Rgtb distance 0 && Rleb distance (IZR spreadRadius) then
      let spreadAmount :=
        amt * successBonus * (1 - distance / IZR spreadRadius) * 0.3 in
      with_channel f type
        (set (channel f type) nx ny
           (Rmin (get (channel f type) nx ny + spreadAmount) 1000))
    else f
  else f.

(** The offsets [-spreadRadius .. spreadRadius]. *)
Definition offsets : list Z := seqZ (- spreadRadius) (2 * spreadRadius + 1).

Definition deposit (f : t) (pos : Vec.t) (type : string)
    (amt successBonus : R) : t :=
  let '(gx, gy) := index f pos in
  let f1 :=
    with_channel f type
      (set (channel f type) gx gy
         (Rmin (get (channel f type) gx gy + amt * successBonus) 1000)) in
  let f2 :=
    with_pathSuccess f1
      (set (pathSuccess f1) gx gy
         (get (pathSuccess f1) gx gy + successBonus * 0.1)) in
  foldl (fun f dx =>
           foldl (fun f dy => spread_cell type amt successBonus gx gy f dx dy)
                 f offsets)
        f2 offsets.

Definition sample (f : t) (pos : Vec.t) (type : string) : R :=
  let '(gx, gy) := index f pos in
  get (channel f type) gx gy.

(** The vector [grad] of [gradient]: the estimate from the eight samples. *)
Definition grad (f : t) (pos : Vec.t) (type : string) : Vec.t :=
  let delta := cell f * 0.8 in
  let px := Vec.x pos in
  let py := Vec.y pos in
  let right := sample f (Vec.new (px + delta) py) type in
  let left := sample f (Vec.new (px - delta) py) type in
  let down := sample f (Vec.new px (py + delta)) type in
  let up := sample f (Vec.new px (py - delta)) type in
  let upRight := sample f (Vec.new (px + delta * 0.7) (py - delta * 0.7)) type in
  let upLeft := sample f (Vec.new (px - delta * 0.7) (py - delta * 0.7)) type in
  let downRight := sample f (Vec.new (px + delta * 0.7) (py + delta * 0.7)) type in
  let downLeft := sample f (Vec.new (px - delta * 0.7) (py + delta * 0.7)) type in
  let dx := (right - left) * 0.5 + (upRight - upLeft + downRight - downLeft) * 0.25 in
  let dy := (down - up) * 0.5 + (downRight - upRight + downLeft - upLeft) * 0.25 in
  Vec.new dx dy.

Definition gradient (f : t) (pos : Vec.t) (type : string) : Vec.t :=
  let grad := grad f pos type in
  if Rgtb (Vec.magnitude grad) 0.1 then Vec.normalize grad else Vec.new 0 0.

(** [g[x][y] *= k; if (g[x][y] < 0.01) g[x][y] = 0] *)
Definition decay (g : grid) (x y : Z) (k : R) : grid :=
  let g1 := set g x y (get g x y * k) in
  if Rltb (get g1 x y) 0.01 then set g1 x y 0 else g1.

(** Body of the loops of [evaporate]; the three products come first in the
    source and the three snaps after them, on grids that do not share
    cells, so each grid is treated on its own. *)
Definition evaporate_cell (rate : R) (f : t) (x y : Z) : t :=
  mk (cell f) (gridW f) (gridH f)
     (decay (home f) x y (1 - rate))
     (decay (food f) x y (1 - rate))
     (decay (pathSuccess f) x y (1 - rate * 0.3)).

Definition evaporate (f : t) (rate : R) : t :=
  foldl (fun f x =>
           foldl (fun f y => evaporate_cell rate f x y) f (seqZ 0 (gridH f)))
        f (seqZ 0 (gridW f)).

(** [pathPoints] holds the points of the path; the source also skips a
    missing array and missing entries, which a list of points has not. *)
Definition reinforcePath (f : t) (pathPoints : list Vec.t) (strength : R) : t :=
  foldl (fun f pos =>
           let '(gx, gy) := index f pos in
           if (0 <=? gx)%Z && (gx <? gridW f)%Z && (0 <=? gy)%Z && (gy <? gridH f)%Z then
             with_pathSuccess f
               (set (pathSuccess f) gx gy
                  (Rmin (get (pathSuccess f) gx gy + strength) 100))
           else f)
        f pathPoints.

(** Body of the loops of [clear]. *)
Definition clear_cell (f : t) (x y : Z) : t :=
  mk (cell f) (gridW f) (gridH f)
     (set (home f) x y 0) (set (food f) x y 0) (set (pathSuccess f) x y 0).

Definition clear (f : t) : t :=
  foldl (fun f x => foldl (fun f y => clear_cell f x y) f (seqZ 0 (gridH f)))
        f (seqZ 0 (gridW f)).

(** *** Shape of a field *)

(** [g[i][j] = F(g[i][j])] *)
Definition upd (g : grid) (i j : Z) (F : R -> R) : grid :=
  set g i j (F (get g i j)).

(** [g] has [W] columns of [H] cells. *)
Definition dims (g : grid) (W H : Z) : Prop :=
  length g = Z.to_nat W /\ Forall (fun col => length col = Z.to_nat H) g.

(** What the constructor establishes, for a positive cell size. *)
Definition wf (f : t) : Prop :=
  0 < cell f /\ (1 <= gridW f)%Z /\ (1 <= gridH f)%Z /\
  dims (home f) (gridW f) (gridH f) /\
  dims (food f) (gridW f) (gridH f) /\
  dims (pathSuccess f) (gridW f) (gridH f).

(** Same cell size and same numbers of columns and rows. *)
Definition same_shape (f f' : t) : Prop :=
  cell f' = cell f /\ gridW f' = gridW f /\ gridH f' = gridH f.

(** No cell of [g] is above [M]. *)
Definition below (g : grid) (M : R) : Prop := forall i j : Z, get g i j <= M.

(** No cell of the home and food grids is above 1000. *)
Definition bounded (f : t) : Prop := below (home f) 1000 /\ below (food f) 1000.

(** No cell of [g] is negative. *)
Definition nonneg (g : grid) : Prop := forall i j : Z, 0 <= get g i j.

(** Two nested loops over the columns [0 .. W-1] and the rows [0 .. H-1]
    that apply [op] to one grid. *)
Definition sweep (op : grid -> Z -> Z -> grid) (W H : Z) (g : grid) : grid :=
  foldl (fun g x => foldl (fun g y => op g x y) g (seqZ 0 H)) g (seqZ 0 W).

(** The value of a cell after one [evaporate] with factor [k]. *)
Definition evap (k v : R) : R := if Rltb (v * k) 0.01 then 0 else v * k.

(** [evaporate(rate)], [n] times. *)
Definition evaporations (n : nat) (rate : R) (f : t) : t :=
  Nat.iter n (fun f => evaporate f rate) f.

(** The arguments of one call of [deposit]. *)
Record call : Type := args { pos : Vec.t; type : string; amt : R; successBonus : R }.

(** The field after the calls of [l], in order. *)
Definition deposits (l : list call) (f : t) : t :=
  foldl (fun f c => deposit f (pos c) (type c) (amt c) (successBonus c)) f l.

(** The three grids hold no negative cell and the home and food grids no
    cell above 1000. *)
Definition in_bounds (f : t) : Prop :=
  bounded f /\ nonneg (home f) /\ nonneg (food f) /\ nonneg (pathSuccess f).

(** The operations that change a field. *)
Inductive op : Type :=
| Deposit (pos : Vec.t) (type : string) (amt successBonus : R)
| Evaporate (rate : R)
| Reinforce (pathPoints : list Vec.t) (strength : R)
| Clear.

Definition apply (f : t) (o : op) : t :=
  match o with
  | Deposit pos type amt successBonus => deposit f pos type amt successBonus
  | Evaporate rate => evaporate f rate
  | Reinforce pathPoints strength => reinforcePath f pathPoints strength
  | Clear => clear f
  end.

(** The arguments the simulation gives: amounts, bonuses and strengths that
    are not negative and a rate from 0 to 1. *)
Definition sensible (o : op) : Prop :=
  match o with
  | Deposit _ _ amt successBonus => 0 <= amt /\ 0 <= successBonus
  | Evaporate rate => 0 <= rate <= 1
  | Reinforce _ strength => 0 <= strength
  | Clear => True
  end.

(** Body of the loop of [reinforcePath] at the point [pos]. *)
Definition reinforce_point (strength : R) (f : t) (pos : Vec.t) : t :=
  let '(gx, gy) := index f pos in
  if (0 <=? gx)%Z && (gx <? gridW f)%Z && (0 <=? gy)%Z && (gy <? gridH f)%Z then
    with_pathSuccess f
      (set (pathSuccess f) gx gy (Rmin (get (pathSuccess f) gx gy + strength) 100))
  else f.

(** The field after the operations of [l], in order. *)
Definition run (l : list op) (f : t) : t := foldl apply f l.

End PheromoneField.

(** ** [evaporate] on binary64 numbers

    The numbers of the source are binary64 numbers and every operation on
    them is rounded; the two factors [1 - rate] and [1 - rate * 0.3] of
    [evaporate] are then 1 for a rate that is small enough.  This module
    holds the loops of [evaporate] on grids of binary64 numbers, with the
    operations of binary64. *)

Module Binary64.

Abbreviation grid := (list (list float)).

(** [g[i][j]], as [PheromoneField.get]. *)
Definition get (g : grid) (i j : Z) : float :=
  if (i <? 0)%Z || (j <? 0)%Z then 0%float
  else default 0%float ((g !! Z.to_nat i) ≫= (fun col => col !! Z.to_nat j)).

(** [g[i][j] = v], as [PheromoneField.set]. *)
Definition set (g : grid) (i j : Z) (v : float) : grid :=
  if (i <? 0)%Z || (j <? 0)%Z then g
  else alter (fun col => <[Z.to_nat j := v]> col) (Z.to_nat i) g.

Record t : Type := mk {
  cell : float;
  gridW : Z;
  gridH : Z;
  home : grid;
  food : grid;
  pathSuccess : grid
}.

(** [g[x][y] *= k; if (g[x][y] < 0.01) g[x][y] = 0] *)
Definition decay (g : grid) (x y : Z) (k : float) : grid :=
  let g1 := set g x y (get g x y * k)%float in
  if (get g1 x y <? 0.01)%float then set g1 x y 0%float else g1.

(** Body of the loops of [evaporate]. *)
Definition evaporate_cell (rate : float) (f : t) (x y : Z) : t :=
  mk (cell f) (gridW f) (gridH f)
     (decay (home f) x y (1 - rate)%float)
     (decay (food f) x y (1 - rate)%float)
     (decay (pathSuccess f) x y (1 - rate * 0.3)%float).

Definition evaporate (f : t) (rate : float) : t :=
  foldl (fun f x =>
           foldl (fun f y => evaporate_cell rate f x y) f (seqZ 0 (gridH f)))
        f (seqZ 0 (gridW f)).

(** [evaporate(rate)], [n] times. *)
Definition evaporations (n : nat) (rate : float) (f : t) : t :=
  Nat.iter n (fun f => evaporate f rate) f.

End Binary64.

(** ** class Obstacle *)

Module Obstacle.

(** A distance of the source: a number or [Infinity]. *)
Inductive distance : Type :=
| Finite (d : R)
| Infinity.

(** [d < minDist] *)
Definition below (d : R) (minDist : distance) : bool :=
  match minDist with
  | Finite m => Rltb d m
  | Infinity => true
  end.

Record t : Type := mk {
  pos : Vec.t;
  lastPos : Vec.t;
  baseRadius : R;
  blob : list Vec.t
}.

Record repulsion : Type := result { vec : Vec.t; dist : distance }.

(** Body of the loop of [repulse] at the edge [i]; the state is
    [(minDist, closest)].  Against the not-a-number point the distance is
    not a number, [d < minDist] is false and the edge is passed over. *)
Definition nearer (o : t) (p : Vec.t) (st : distance * option Vec.t) (i : nat)
    : distance * option Vec.t :=
  match blob o !! i, blob o !! ((i + 1) mod length (blob o))%nat with
  | Some a, Some b =>
      match closestOnSeg a b p with
      | Some cp =>
          let d := Vec.magnitude (Vec.subtract p cp) in
          if below d (fst st) then (Finite d, Some cp) else st
      | None => st
      end
  | _, _ => st
  end.

(** [repulse(pos)]; [rnd] is the value [Math.random()] returns when
    [Vec.random()] is called. *)
Definition repulse (o : t) (p : Vec.t) (rnd : R) : repulsion :=
  match blob o with
  | [] => result (Vec.new 0 0) Infinity
  | _ =>
      let '(minDist, closest) :=
        foldl (nearer o p) (Infinity, None) (seq 0 (length (blob o))) in
      match closest with
      | None => result (Vec.new 0 0) Infinity
      | Some c =>
          let away := Vec.subtract p c in
          let mag := Vec.magnitude away in
          if Rltb mag 0.1 then
            let centerAway := Vec.subtract p (pos o) in
            if Rgtb (Vec.magnitude centerAway) 0.1
            then result (Vec.normalize centerAway) (Finite 0)
            else result (Vec.random rnd) (Finite 0)
          else result (Vec.normalize away) minDist
      end
  end.

(** The state of the loop of [repulse] at the position [p] once a closest
    point is known: the distance kept is the distance to the point kept. *)
Definition found (p : Vec.t) (st : distance * option Vec.t) : Prop :=
  exists c : Vec.t, st = (Finite (Vec.magnitude (Vec.subtract p c)), Some c).

(** The state of the loop: as it starts, or with a closest point. *)
Definition started (p : Vec.t) (st : distance * option Vec.t) : Prop :=
  st = (Infinity, None) \/ found p st.

(** Some edge of the polygon joins two different points. *)
Definition has_edge (o : t) : Prop :=
  exists (i : nat) (a b : Vec.t),
    blob o !! i = Some a
    /\ blob o !! ((i + 1) mod length (blob o))%nat = Some b
    /\ a <> b.

(** [new Obstacle(x, y)]; [rb] is the value [Math.random()] returns for the
    radius and [rnd] those it returns to [makeBlob]. *)
Definition constructor (x y rb : R) (rnd : nat -> R) : t :=
  let baseRadius := 30 + rb * 30 in
  mk (Vec.new x y) (Vec.new x y) baseRadius (makeBlob x y baseRadius 0.2 18 rnd).

(** The point of the edge [i] closest to [p], when the loop of [repulse]
    finds one. *)
Definition edge_point (o : t) (p : Vec.t) (i : nat) : option Vec.t :=
  match blob o !! i, blob o !! ((i + 1) mod length (blob o))%nat with
  | Some a, Some b => closestOnSeg a b p
  | _, _ => None
  end.

(** The state of the loop keeps a distance that is at most the distance
    from [p] to [q]. *)
Definition atmost (p q : Vec.t) (st : distance * option Vec.t) : Prop :=
  exists (d : R) (c : Vec.t),
    st = (Finite d, Some c) /\ d <= Vec.magnitude (Vec.subtract p q).

(** The point kept by the loop, if any, is the closest point of an edge. *)
Definition from_edge (o : t) (p : Vec.t) (st : distance * option Vec.t) : Prop :=
  forall c : Vec.t, snd st = Some c -> exists i : nat, edge_point o p i = Some c.

(** [rep.dist < r] *)
Definition closer (d : distance) (r : R) : bool :=
  match d with
  | Finite x => Rltb x r
  | Infinity => false
  end.

End Obstacle.

(** ** class Food

    [amount] counts units: it is 500 at construction, is copied from
    [originalAmount] on reset and only ever changes by one unit. *)

Module Food.

Record t : Type := mk {
  pos : Vec.t;
  amount : Z;
  radius : R;
  originalAmount : Z
}.

Definition constructor (x y radius : R) : t :=
  mk (Vec.new x y) 500 radius 500.

(** Returns the answer and the food source after the call. *)
Definition containsAndTake (fd : t) (p : Vec.t) : bool * t :=
  if (amount fd <=? 0)%Z then (false, fd)
  else
    let d := Vec.magnitude (Vec.subtract p (pos fd)) in
    if Rltb d (radius fd)
    then (true, mk (pos fd) (Z.max 0 (amount fd - 1)) (radius fd) (originalAmount fd))
    else (false, fd).

Definition isDepleted (fd : t) : bool := (amount fd <=? 0)%Z.

(** The caller's position is at a distance below the radius. *)
Definition inside (fd : t) (p : Vec.t) : Prop :=
  Vec.magnitude (Vec.subtract p (pos fd)) < radius fd.

(** The food source after one call of [containsAndTake] for each position
    of [ps], in order. *)
Definition takes (ps : list Vec.t) (fd : t) : t :=
  foldl (fun fd p => snd (containsAndTake fd p)) fd ps.

End Food.

(** ** The nest record of [AntForagingSimulation]

    [maxCapacity] is the sum of the food sources' [originalAmount];
    [foodStored] starts at 0 and grows by whole units. *)

Module Nest.

Record t : Type := mk {
  x : R;
  y : R;
  radius : R;
  foodStored : Z;
  maxCapacity : Z;
  efficiency : R;
  isFull : bool
}.

End Nest.

(** ** class Ant: the fields read or written by the speed update and by the
    delivery at the nest, and these two parts of [update]. *)

Module Ant.

Record t : Type := mk {
  position : Vec.t;
  velocity : Vec.t;
  hasFood : bool;
  path : list Vec.t;
  tripStartTime : R;
  momentum : Vec.t;
  lastFoodTime : R;
  maxSpeed : R;
  maxTurnRate : R;
  energy : R
}.

(** [Math.sign] *)
Definition sign (r : R) : R :=
  if Rltb 0 r then 1 else if Rltb r 0 then -1 else 0.

Definition with_velocity (a : t) (v : Vec.t) : t :=
  mk (position a) v (hasFood a) (path a) (tripStartTime a) (momentum a)
     (lastFoodTime a) (maxSpeed a) (maxTurnRate a) (energy a).

(** Start of [update]: "Slow down when energy is low". *)
Definition slow_down (a : t) : t :=
  let energyFactor := Rmax 0.3 (energy a / 100) in
  mk (position a) (velocity a) (hasFood a) (path a) (tripStartTime a)
     (momentum a) (lastFoodTime a) (3.0 * energyFactor) (maxTurnRate a)
     (energy a).

(** "Apply smooth velocity changes" up to "Limit maximum speed to prevent
    tunneling"; [direction] is the steering direction computed before. *)
Definition update_speed (a : t) (direction : Vec.t) : t :=
  let targetSpeed := if hasFood a then 2.5 else 3.0 in
  let acceleration := 0.1 in
  let currentSpeed := Vec.magnitude (velocity a) in
  let speedDiff := targetSpeed - currentSpeed in
  let speedChange := sign speedDiff * Rmin (Rabs speedDiff) acceleration in
  let v1 :=
    if Rgtb (Vec.magnitude (velocity a)) 0.1 then
      let currentAngle := Vec.angle (velocity a) in
      let targetAngle := Vec.angle direction in
      let angleDiff := targetAngle - currentAngle in
      let angleDiff := if Rgtb angleDiff PI then angleDiff - PI * 2 else angleDiff in
      let angleDiff := if Rltb angleDiff (- PI) then angleDiff + PI * 2 else angleDiff in
      let maxTurn := maxTurnRate a in
      let angleDiff :=
        if Rgtb (Rabs angleDiff) maxTurn then sign angleDiff * maxTurn else angleDiff in
      let newAngle := currentAngle + angleDiff in
      Vec.multiply (Vec.new (cos newAngle) (sin newAngle)) (currentSpeed + speedChange)
    else Vec.multiply direction targetSpeed in
  let maxAllowedSpeed := maxSpeed a * 1.5 in
  let v2 :=
    if Rgtb (Vec.magnitude v1) maxAllowedSpeed
    then Vec.multiply (Vec.normalize v1) maxAllowedSpeed
    else v1 in
  with_velocity a v2.

(** The delivery efficiency computed by the delivery branch, from the
    length of the path and the time [now1] of the delivery. *)
Definition overallEfficiency (a : t) (now1 : R) : R :=
  let tripDuration := now1 - lastFoodTime a in
  let pathLength := INR (length (path a)) in
  let distanceEfficiency := Rmax 0.5 (1 - (pathLength * 2) / 1000) in
  let timeEfficiency := Rmax 0.5 (1 - tripDuration / 30000) in
  (distanceEfficiency + timeEfficiency) / 2.

(** [Math.floor(1 + overallEfficiency)] *)
Definition foodGained (a : t) (now1 : R) : Z :=
  Zfloor (1 + overallEfficiency a now1).

(** The ant is within the nest's radius plus 5. *)
Definition atNest (a : t) (targetNest : Nest.t) : Prop :=
  Vec.magnitude
    (Vec.subtract (position a) (Vec.new (Nest.x targetNest) (Nest.y targetNest)))
  < Nest.radius targetNest + 5.

(** "Enhanced food delivery at nest": the branch of [update] taken by an
    ant that has food.  [now1] and [now2] are the values of the first and
    the second call of [performance.now()], [rnd] that of [Math.random()].
    Returns the ant, the nest and the field after the branch. *)
Definition deliver (a : t) (targetNest : Nest.t) (field : PheromoneField.t)
    (now1 now2 rnd : R) : t * Nest.t * PheromoneField.t :=
  let nestDist :=
    Vec.magnitude
      (Vec.subtract (position a) (Vec.new (Nest.x targetNest) (Nest.y targetNest))) in
  if Rltb nestDist (Nest.radius targetNest + 5) then
    if (Nest.maxCapacity targetNest <=? Nest.foodStored targetNest)%Z then
      (mk (position a) (velocity a) false [] now1
          (Vec.multiply (Vec.random rnd) 0.3) (lastFoodTime a) (maxSpeed a)
          (maxTurnRate a) (energy a),
       Nest.mk (Nest.x targetNest) (Nest.y targetNest) (Nest.radius targetNest)
          (Nest.foodStored targetNest) (Nest.maxCapacity targetNest)
          (Nest.efficiency targetNest) true,
       field)
    else
      let overallEfficiency := overallEfficiency a now1 in
      let efficiency' :=
        Rmin 2.0 (Nest.efficiency targetNest * 0.95 + overallEfficiency * 0.05) in
      let foodGained := foodGained a now1 in
      let newTotal := (Nest.foodStored targetNest + foodGained)%Z in
      let nest' :=
        if (Nest.maxCapacity targetNest <=? newTotal)%Z then
          Nest.mk (Nest.x targetNest) (Nest.y targetNest) (Nest.radius targetNest)
            (Nest.maxCapacity targetNest) (Nest.maxCapacity targetNest)
            efficiency' true
        else
          Nest.mk (Nest.x targetNest) (Nest.y targetNest) (Nest.radius targetNest)
            newTotal (Nest.maxCapacity targetNest) efficiency'
            (Nest.isFull targetNest) in
      let field' :=
        if (3 <? length (path a))%nat
        then PheromoneField.reinforcePath field (path a) (overallEfficiency * 6)
        else field in
      (mk (position a) (velocity a) false [] now2
          (Vec.multiply (Vec.random rnd) 0.3) (lastFoodTime a) (maxSpeed a)
          (maxTurnRate a) 100,
       nest', field')
  else (a, targetNest, field).

(** One arrival at the nest: the ant and the three inputs of [deliver]. *)
Record arrival : Type := arrive { who : t; at1 : R; at2 : R; roll : R }.

(** The nest and the field after the ants of [l] went through [deliver]
    one after the other. *)
Definition deliveries (l : list arrival) (s : Nest.t * PheromoneField.t)
    : Nest.t * PheromoneField.t :=
  foldl (fun s e =>
           let '(_, n, f) := deliver (who e) (fst s) (snd s) (at1 e) (at2 e) (roll e) in
           (n, f))
        s l.

Definition with_path (a : t) (p : list Vec.t) : t :=
  mk (position a) (velocity a) (hasFood a) p (tripStartTime a) (momentum a)
     (lastFoodTime a) (maxSpeed a) (maxTurnRate a) (energy a).

Definition with_position (a : t) (p : Vec.t) : t :=
  mk p (velocity a) (hasFood a) (path a) (tripStartTime a) (momentum a)
     (lastFoodTime a) (maxSpeed a) (maxTurnRate a) (energy a).

(** "Track path for reinforcement": the position is pushed when the path is
    empty or its last point is more than 15 away, and the first point is
    shifted out when the path grows beyond 100 points. *)
Definition track_path (a : t) : t :=
  if match last (path a) with
     | None => true
     | Some q => Rgtb (Vec.magnitude (Vec.subtract (position a) q)) 15
     end
  then
    let pushed := path a ++ [position a] in
    with_path a (if (100 <? length pushed)%nat then tail pushed else pushed)
  else a.

(** "Improved boundary bouncing with energy loss", followed by
    [this.position = newPos]; [r1] to [r4] are the values [Math.random()]
    returns in the four tests, when they succeed. *)
Definition bounce (a : t) (newPos : Vec.t) (width height r1 r2 r3 r4 : R) : t :=
  let bounceDamping := 0.8 in
  let margin := 10 in
  let s0 := (newPos, velocity a) in
  let s1 :=
    if Rltb (Vec.x (fst s0)) margin
    then (Vec.new margin (Vec.y (fst s0)),
          Vec.new (Rabs (Vec.x (snd s0)) * bounceDamping)
                  (Vec.y (snd s0) + (r1 - 0.5) * 0.5))
    else s0 in
  let s2 :=
    if Rgtb (Vec.x (fst s1)) (width - margin)
    then (Vec.new (width - margin) (Vec.y (fst s1)),
          Vec.new (- Rabs (Vec.x (snd s1)) * bounceDamping)
                  (Vec.y (snd s1) + (r2 - 0.5) * 0.5))
    else s1 in
  let s3 :=
    if Rltb (Vec.y (fst s2)) margin
    then (Vec.new (Vec.x (fst s2)) margin,
          Vec.new (Vec.x (snd s2) + (r3 - 0.5) * 0.5)
                  (Rabs (Vec.y (snd s2)) * bounceDamping))
    else s2 in
  let s4 :=
    if Rgtb (Vec.y (fst s3)) (height - margin)
    then (Vec.new (Vec.x (fst s3)) (height - margin),
          Vec.new (Vec.x (snd s3) + (r4 - 0.5) * 0.5)
                  (- Rabs (Vec.y (snd s3)) * bounceDamping))
    else s3 in
  with_position (with_velocity a (snd s4)) (fst s4).

(** Body of the loop "Find nearest food within detection range" at the food
    source of index [k]; the state is [(nearestFood, nearestDist)], the food
    source being kept by its index in [foodSources]. *)
Definition see (p : Vec.t) (foodSources : list Food.t)
    (st : option nat * Obstacle.distance) (k : nat) : option nat * Obstacle.distance :=
  match foodSources !! k with
  | Some f =>
      if negb (Food.isDepleted f) then
        let dist := Vec.magnitude (Vec.subtract p (Food.pos f)) in
        if Obstacle.below dist (snd st) && Rltb dist 200
        then (Some k, Obstacle.Finite dist)
        else st
      else st
  | None => st
  end.

(** The index of [nearestFood] after the loop, if it is not [null]. *)
Definition nearestFood (p : Vec.t) (foodSources : list Food.t) : option nat :=
  fst (foldl (see p foodSources) (None, Obstacle.Infinity) (seq 0 (length foodSources))).

(** "Enhanced food pickup with visual detection": the branch of [update]
    taken by an ant without food.  [now] is the value of
    [performance.now()].  Returns the ant, the food sources and the field
    after the branch; [targetFood] is not kept. *)
Definition pickup (a : t) (foodSources : list Food.t) (nest : Nest.t)
    (field : PheromoneField.t) (now : R) : t * list Food.t * PheromoneField.t :=
  match nearestFood (position a) foodSources with
  | Some k =>
      match foodSources !! k with
      | Some fd =>
          let '(taken, fd') := Food.containsAndTake fd (position a) in
          if taken then
            let nestDir :=
              Vec.normalize
                (Vec.subtract (Vec.new (Nest.x nest) (Nest.y nest)) (position a)) in
            let field' :=
              if (3 <? length (path a))%nat
              then PheromoneField.reinforcePath field (path a) 3
              else field in
            (mk (position a) (velocity a) true [] (tripStartTime a)
                (Vec.multiply nestDir 0.3) now (maxSpeed a) (maxTurnRate a) 100,
             <[k := fd']> foodSources, field')
          else (a, foodSources, field)
      | None => (a, foodSources, field)
      end
  | None => (a, foodSources, field)
  end.

(** The distance from [p] to the centre of a food source. *)
Definition reach (p : Vec.t) (fd : Food.t) : R :=
  Vec.magnitude (Vec.subtract p (Food.pos fd)).

(** What the loop knows after the food sources of the indices [l]: nothing
    in view, or the nearest food source in view. *)
Definition seen (p : Vec.t) (foodSources : list Food.t) (l : list nat)
    (st : option nat * Obstacle.distance) : Prop :=
  match st with
  | (None, Obstacle.Infinity) =>
      forall (k : nat) (fd : Food.t),
        k ∈ l -> foodSources !! k = Some fd -> Food.isDepleted fd = false ->
        200 <= reach p fd
  | (Some k0, Obstacle.Finite d) =>
      exists fd0 : Food.t,
        foodSources !! k0 = Some fd0 /\ Food.isDepleted fd0 = false
        /\ d = reach p fd0 /\ d < 200
        /\ forall (k : nat) (fd : Food.t),
             k ∈ l -> foodSources !! k = Some fd -> Food.isDepleted fd = false ->
             d <= reach p fd
  | _ => False
  end.

Definition with_momentum (a : t) (m : Vec.t) : t :=
  mk (position a) (velocity a) (hasFood a) (path a) (tripStartTime a) m
     (lastFoodTime a) (maxSpeed a) (maxTurnRate a) (energy a).

(** "Clear momentum when returning to reduce circling", the assignment of
    the returning branch of [update]. *)
Definition calm (a : t) : t := with_momentum a (Vec.multiply (momentum a) 0.3).

(** "Normalize direction" and "Apply momentum" of [update]: [direction] is
    the sum of the steering forces, [rnd] the value [Math.random()] returns
    when that sum is the zero vector.  The result is the ant with its new
    momentum and the new direction. *)
Definition steer (a : t) (direction : Vec.t) (rnd : R) : t * Vec.t :=
  let direction1 :=
    if Rgtb (Vec.magnitude direction) 0 then Vec.normalize direction
    else Vec.random rnd in
  let momentumStrength := if hasFood a then 0.4 else 0.5 in
  let momentum1 :=
    Vec.add (Vec.multiply (momentum a) 0.7) (Vec.multiply direction1 0.3) in
  let direction2 :=
    Vec.add (Vec.multiply direction1 (1 - momentumStrength))
            (Vec.multiply momentum1 momentumStrength) in
  (with_momentum a momentum1, Vec.normalize direction2).

(** "Smoother turning" of [update]. *)
Definition smooth_turn (a : t) (direction : Vec.t) : Vec.t :=
  if Rgtb (Vec.magnitude (velocity a)) 0 then
    let currentDir := Vec.normalize (velocity a) in
    let maxTurn := if hasFood a then 0.3 else 0.4 in
    let dot := Rmax (-1) (Rmin 1 (Vec.dot currentDir direction)) in
    let angle := acos dot in
    if Rgtb angle maxTurn then
      let t := maxTurn / angle in
      Vec.normalize
        (Vec.add (Vec.multiply currentDir (1 - t)) (Vec.multiply direction t))
    else direction
  else direction.

(** "Emergency: Throw out ants that are inside obstacles", a loop of
    [update] that stops at the first obstacle whose distance is below 0.5;
    [rnd k] is the value [Math.random()] returns in [repulse] at the
    obstacle of index [k]. *)
Fixpoint throw_out (a : t) (obstacles : list Obstacle.t) (rnd : nat -> R) : t :=
  match obstacles with
  | [] => a
  | obstacle :: rest =>
      let rep := Obstacle.repulse obstacle (position a) (rnd 0%nat) in
      if Obstacle.closer (Obstacle.dist rep) 0.5 then
        let safeDistance := Obstacle.baseRadius obstacle + 10 in
        let awayDirection := Vec.normalize (Obstacle.vec rep) in
        let safePosition :=
          Vec.new
            (Vec.x (Obstacle.pos obstacle) + Vec.x awayDirection * safeDistance)
            (Vec.y (Obstacle.pos obstacle) + Vec.y awayDirection * safeDistance) in
        with_velocity (with_position a safePosition) (Vec.multiply awayDirection 4.0)
      else throw_out a rest (fun k => rnd (S k))
  end.

(** *** Trapped detection *)

(** The properties of an ant that [checkTrappedStatus] and
    [enterEscapeMode] read and write. *)
Record detection : Type := detect {
  escapeMode : bool;
  escapeStartTime : R;
  escapeAttempts : Z;
  maxEscapeAttempts : Z;
  progressHistory : list R;
  progressThreshold : R;
  trappedTime : Z;
  trappedThreshold : Z;
  initialDistanceToGoal : R;
  lastProgressCheck : Z;
  progressCheckInterval : Z
}.

(** These properties as the constructor of [Ant] sets them. *)
Definition new_detection : detection := detect false 0 0 5 [] 30 0 90 0 0 30.

Definition with_lastProgressCheck (s : detection) (n : Z) : detection :=
  detect (escapeMode s) (escapeStartTime s) (escapeAttempts s)
    (maxEscapeAttempts s) (progressHistory s) (progressThreshold s)
    (trappedTime s) (trappedThreshold s) (initialDistanceToGoal s) n
    (progressCheckInterval s).

(** [enterEscapeMode()]; [now] is the value of [performance.now()]. *)
Definition enterEscapeMode (s : detection) (now : R) : detection :=
  if (maxEscapeAttempts s <=? escapeAttempts s)%Z then s
  else
    detect true now (escapeAttempts s + 1) (maxEscapeAttempts s) []
      (progressThreshold s) 0 (trappedThreshold s) 0 (lastProgressCheck s)
      (progressCheckInterval s).

(** Body of the loop of [checkTrappedStatus] over the food sources; the
    state is [(nearestFood, nearestDist)]. *)
Definition nearer_food (p : Vec.t) (st : option Food.t * Obstacle.distance)
    (f : Food.t) : option Food.t * Obstacle.distance :=
  if negb (Food.isDepleted f) then
    let dist := Vec.magnitude (Vec.subtract p (Food.pos f)) in
    if Obstacle.below dist (snd st) then (Some f, Obstacle.Finite dist) else st
  else st.

(** "Determine current goal": the nest for an ant with food, else the
    nearest food source that is not depleted, if there is one. *)
Definition currentGoal (carrying : bool) (p : Vec.t) (nest : Nest.t)
    (foodSources : list Food.t) : option Vec.t :=
  if carrying then Some (Vec.new (Nest.x nest) (Nest.y nest))
  else
    match fst (foldl (nearer_food p) (None, Obstacle.Infinity) foodSources) with
    | Some nearest => Some (Food.pos nearest)
    | None => None
    end.

(** [checkTrappedStatus()] for an ant at [p]; [now] is the value of
    [performance.now()] in [enterEscapeMode].  The history is not empty
    where its last and its first value are read. *)
Definition checkTrappedStatus (s : detection) (carrying : bool) (p : Vec.t)
    (nest : Nest.t) (foodSources : list Food.t) (now : R) : detection :=
  let count := (lastProgressCheck s + 1)%Z in
  if (count <? progressCheckInterval s)%Z then with_lastProgressCheck s count
  else
    match currentGoal carrying p nest foodSources with
    | None => with_lastProgressCheck s 0
    | Some goal =>
        let currentDistance := Vec.magnitude (Vec.subtract p goal) in
        let initial :=
          if Reqb (initialDistanceToGoal s) 0 then currentDistance
          else initialDistanceToGoal s in
        let progress := initial - currentDistance in
        let pushed := progressHistory s ++ [progress] in
        let history := if (10 <? length pushed)%nat then tail pushed else pushed in
        let recentProgress := default 0 (last history) - default 0 (head history) in
        let isMakingProgress := Rgtb recentProgress (progressThreshold s) in
        if negb isMakingProgress then
          let s1 :=
            detect (escapeMode s) (escapeStartTime s) (escapeAttempts s)
              (maxEscapeAttempts s) history (progressThreshold s)
              (trappedTime s + 1) (trappedThreshold s) initial 0
              (progressCheckInterval s) in
          if (trappedThreshold s1 <? trappedTime s1)%Z && negb (escapeMode s1)
          then enterEscapeMode s1 now
          else s1
        else
          detect false (escapeStartTime s) 0 (maxEscapeAttempts s) history
            (progressThreshold s) 0 (trappedThreshold s) initial 0
            (progressCheckInterval s)
    end.

(** "Check if escape mode should end (after 5 seconds)", in both branches
    of [update]; [now] is the value of [performance.now()]. *)
Definition escape_timeout (s : detection) (now : R) : detection :=
  if escapeMode s then
    if Rgtb (now - escapeStartTime s) 5000 then
      detect false (escapeStartTime s) (escapeAttempts s) (maxEscapeAttempts s)
        (progressHistory s) (progressThreshold s) (trappedTime s)
        (trappedThreshold s) (initialDistanceToGoal s) (lastProgressCheck s)
        (progressCheckInterval s)
    else s
  else s.

(** What one call of [update] gives to the trapped detection: whether the
    ant has food, where it is, the nest, the food sources and the two
    values of [performance.now()]. *)
Record frame : Type := at_frame {
  carrying : bool;
  place : Vec.t;
  home : Nest.t;
  foods : list Food.t;
  clock1 : R;
  clock2 : R
}.

(** The trapped detection in one call of [update]. *)
Definition detect_frame (s : detection) (e : frame) : detection :=
  checkTrappedStatus (escape_timeout s (clock1 e)) (carrying e) (place e)
    (home e) (foods e) (clock2 e).

(** The trapped detection over the calls of [update] of [l], in order. *)
Definition detect_frames (l : list frame) (s : detection) : detection :=
  foldl detect_frame s l.

(** The distance from the ant to the nest in a call of [update]. *)
Definition nest_distance (e : frame) : R :=
  Vec.magnitude
    (Vec.subtract (place e) (Vec.new (Nest.x (home e)) (Nest.y (home e)))).

(** A call of [update] of an ant with food whose distance to the nest is
    from [lo] to [lo + 30]. *)
Definition held (lo : R) (e : frame) : Prop :=
  carrying e = true /\ lo <= nest_distance e <= lo + 30.

(** The detection of a new ant after [n] calls, the ant being held in
    those that were checks, as long as it has not entered the escape mode:
    [n] is 30 times the number of checks, all without progress, plus
    [lastProgressCheck], and the history holds differences of distances of
    the checks. *)
Definition waiting (lo : R) (n : Z) (s : detection) : Prop :=
  exists k j : Z,
    n = (30 * k + j)%Z /\ (0 <= j < 30)%Z /\ (0 <= k <= 90)%Z
    /\ escapeMode s = false /\ escapeAttempts s = 0%Z
    /\ maxEscapeAttempts s = 5%Z /\ progressThreshold s = 30
    /\ trappedTime s = k /\ trappedThreshold s = 90%Z
    /\ lastProgressCheck s = j /\ progressCheckInterval s = 30%Z
    /\ (length (progressHistory s) <= 10)%nat
    /\ ((initialDistanceToGoal s = 0
         /\ Forall (fun x => x = 0) (progressHistory s))
        \/ (initialDistanceToGoal s <> 0
            /\ lo <= initialDistanceToGoal s <= lo + 30
            /\ Forall (fun x => exists d : R,
                         lo <= d <= lo + 30 /\ x = initialDistanceToGoal s - d)
                 (progressHistory s))).

End Ant.

(** ** Points of a segment *)

(** The point of the segment from [a] to [b] at the fraction [s]. *)
Definition along (a b : Vec.t) (s : R) : Vec.t :=
  Vec.new (Vec.x a + (Vec.x b - Vec.x a) * s) (Vec.y a + (Vec.y b - Vec.y a) * s).

(** ** Helpers of [AntForagingSimulation] *)

(** [getDirectPath(from, to)].  When [from] and [to] are the same point
    [steps] is 0 and the one point pushed has the coordinates
    [from.x + 0 * (0 / 0)]: the not-a-number point, [None]. *)
Definition getDirectPath (from to : Vec.t) : list (option Vec.t) :=
  let distance := Vec.magnitude (Vec.subtract from to) in
  let steps := Zceil (distance / 50) in
  (fun i : Z =>
     if (steps =? 0)%Z then None
     else Some (along from to (IZR i / IZR steps)))
  <$> seqZ 0 (steps + 1).

(** Body of the loops of [checkAndFixTrappedAnts] for one ant and one
    obstacle; [rnd] is the value [Math.random()] returns in [repulse]. *)
Definition fix_trapped (ant : Ant.t) (obstacle : Obstacle.t) (rnd : R) : Ant.t :=
  let rep := Obstacle.repulse obstacle (Ant.position ant) rnd in
  if Obstacle.closer (Obstacle.dist rep) 0.8 then
    let awayDirection :=
      Vec.normalize (Vec.subtract (Ant.position ant) (Obstacle.pos obstacle)) in
    let safeDistance := Obstacle.baseRadius obstacle + 15 in
    Ant.with_velocity
      (Ant.with_position ant
         (Vec.add (Obstacle.pos obstacle) (Vec.multiply awayDirection safeDistance)))
      (Vec.multiply awayDirection 3)
  else ant.

(** ** Sample data *)

Module Sample.

(** A field of one cell and one of three by three cells, of cell size 6. *)
Definition field1 : PheromoneField.t := PheromoneField.constructor 6 6 6.
Definition field3 : PheromoneField.t := PheromoneField.constructor 18 18 6.

(** The field of one cell, in binary64, as it is after
    [deposit(new Vec(3, 3), 'home', 12, 1)] on a new field: 12 on the home
    grid and 0.1 on the success grid. *)
Definition field64 : Binary64.t :=
  Binary64.mk 6 1 1 [[12%float]] [[0%float]] [[0.1%float]].

(** A nest at the origin with room for [capacity] units, holding [stored]. *)
Definition nest (stored capacity : Z) : Nest.t :=
  Nest.mk 0 0 40 stored capacity 1 false.

(** An ant at the origin with velocity [v], carrying food or not. *)
Definition ant (v : Vec.t) (carrying : bool) : Ant.t :=
  Ant.mk (Vec.new 0 0) v carrying [] 0 (Vec.new 0 0) 0 3 0.3 100.

(** A triangle around the centre (3, 3). *)
Definition triangle : Obstacle.t :=
  Obstacle.mk (Vec.new 3 3) (Vec.new 3 3) 30
    [Vec.new 0 0; Vec.new 10 0; Vec.new 0 10].

(** The obstacle of a preset whose radius is 0, as [loadPreset] builds it:
    the 18 vertices of its polygon are all at its centre. *)
Definition collapsed : Obstacle.t :=
  Obstacle.mk (Vec.new 0 0) (Vec.new 0 0) 0
    (makeBlob 0 0 0 0.2 18 (fun _ => 0.5)).

End Sample.

(** * Properties *)

(** ** Comparisons *)

Lemma Rltb_true (a b : R) : Rltb a b = true <-> a < b.
Proof. unfold Rltb. destruct (Rlt_dec a b); split; intros; try lra; congruence. Qed.

Lemma Rltb_false (a b : R) : Rltb a b = false <-> b <= a.
Proof. unfold Rltb. destruct (Rlt_dec a b); split; intros; try lra; congruence. Qed.

Lemma Rleb_true (a b : R) : Rleb a b = true <-> a <= b.
Proof. unfold Rleb. destruct (Rle_dec a b); split; intros; try lra; congruence. Qed.

Lemma Rleb_false (a b : R) : Rleb a b = false <-> b < a.
Proof. unfold Rleb. destruct (Rle_dec a b); split; intros; try lra; congruence. Qed.

Lemma Rgtb_true (a b : R) : Rgtb a b = true <-> b < a.
Proof. apply Rltb_true. Qed.

Lemma Rgtb_false (a b : R) : Rgtb a b = false <-> a <= b.
Proof. apply Rltb_false. Qed.

(** Decides the comparison [c] met in the goal and keeps the fact. *)
Ltac cmp c :=
  let H := fresh "Hc" in
  destruct c eqn:H;
  [ first [ apply Rltb_true in H | apply Rleb_true in H ]
  | first [ apply Rltb_false in H | apply Rleb_false in H ] ].

(** ** Vectors *)

Lemma magnitude_nonneg (u : Vec.t) : 0 <= Vec.magnitude u.
Proof. apply sqrt_pos. Qed.

Lemma magnitude_sqr (u : Vec.t) :
  Vec.magnitude u * Vec.magnitude u = Vec.x u * Vec.x u + Vec.y u * Vec.y u.
Proof. unfold Vec.magnitude. apply sqrt_sqrt. nra. Qed.

Lemma magnitude_multiply (u : Vec.t) (s : R) :
  0 <= s -> Vec.magnitude (Vec.multiply u s) = Vec.magnitude u * s.
Proof.
  intros Hs. unfold Vec.magnitude, Vec.multiply. simpl.
  replace (Vec.x u * s * (Vec.x u * s) + Vec.y u * s * (Vec.y u * s))
    with ((Vec.x u * Vec.x u + Vec.y u * Vec.y u) * (s * s)) by ring.
  rewrite sqrt_mult_alt by nra.
  now rewrite (sqrt_square s).
Qed.

Lemma magnitude_divide (u : Vec.t) (s : R) :
  0 < s -> Vec.magnitude (Vec.divide u s) = Vec.magnitude u / s.
Proof.
  intros Hs.
  replace (Vec.divide u s) with (Vec.multiply u (/ s)) by reflexivity.
  rewrite magnitude_multiply; [reflexivity|].
  left. now apply Rinv_0_lt_compat.
Qed.

Lemma normalize_unit (u : Vec.t) :
  0 < Vec.magnitude u -> Vec.magnitude (Vec.normalize u) = 1.
Proof.
  intros Hm. unfold Vec.normalize.
  cmp (Rgtb (Vec.magnitude u) 0); [|lra].
  rewrite magnitude_divide by assumption. field. lra.
Qed.

Lemma magnitude_zero : Vec.magnitude (Vec.new 0 0) = 0.
Proof.
  unfold Vec.magnitude. simpl.
  replace (0 * 0 + 0 * 0) with 0 by ring. apply sqrt_0.
Qed.

Lemma random_unit (rnd : R) : Vec.magnitude (Vec.random rnd) = 1.
Proof.
  unfold Vec.random, Vec.magnitude. simpl.
  set (a := rnd * PI * 2).
  replace (cos a * cos a + sin a * sin a) with (Rsqr (sin a) + Rsqr (cos a))
    by (unfold Rsqr; ring).
  rewrite sin2_cos2. apply sqrt_1.
Qed.

Lemma magnitude_self (p : Vec.t) : Vec.magnitude (Vec.subtract p p) = 0.
Proof.
  unfold Vec.magnitude, Vec.subtract. simpl.
  replace ((Vec.x p - Vec.x p) * (Vec.x p - Vec.x p)
           + (Vec.y p - Vec.y p) * (Vec.y p - Vec.y p)) with 0 by ring.
  apply sqrt_0.
Qed.

(** The magnitude of a vector on the first axis. *)
Lemma magnitude_on_axis (s : R) : 0 <= s -> Vec.magnitude (Vec.new s 0) = s.
Proof.
  intros Hs. unfold Vec.magnitude. simpl.
  replace (s * s + 0 * 0) with (s * s) by ring. now apply sqrt_square.
Qed.

(** ** The gradient *)

(** C10: [gradient] returns the zero vector, exactly when the magnitude of
    the estimate [grad] is at most 0.1, and otherwise the normalized
    estimate, a vector of magnitude 1. *)
Theorem gradient_zero_or_unit (f : PheromoneField.t) (pos : Vec.t) (type : string) :
  (Vec.magnitude (PheromoneField.grad f pos type) <= 0.1 /\
   PheromoneField.gradient f pos type = Vec.new 0 0)
  \/
  (0.1 < Vec.magnitude (PheromoneField.grad f pos type) /\
   PheromoneField.gradient f pos type =
     Vec.normalize (PheromoneField.grad f pos type) /\
   Vec.magnitude (PheromoneField.gradient f pos type) = 1).
Proof.
  unfold PheromoneField.gradient. cbv zeta.
  cmp (Rgtb (Vec.magnitude (PheromoneField.grad f pos type)) 0.1).
  - right. repeat split; trivial. apply normalize_unit. lra.
  - left. now split.
Qed.

(** ** Food sources *)

Lemma take_inside (fd : Food.t) (p : Vec.t) :
  (0 < Food.amount fd)%Z -> Food.inside fd p ->
  Food.containsAndTake fd p =
    (true, Food.mk (Food.pos fd) (Food.amount fd - 1) (Food.radius fd)
             (Food.originalAmount fd)).
Proof.
  intros Ha Hin. unfold Food.containsAndTake.
  destruct (Z.leb_spec (Food.amount fd) 0) as [Hle|_]; [lia|].
  cmp (Rltb (Vec.magnitude (Vec.subtract p (Food.pos fd))) (Food.radius fd)).
  - now rewrite Z.max_r by lia.
  - unfold Food.inside in Hin. lra.
Qed.

Lemma take_refused (fd : Food.t) (p : Vec.t) :
  ~ ((0 < Food.amount fd)%Z /\ Food.inside fd p) ->
  Food.containsAndTake fd p = (false, fd).
Proof.
  intros Hno. unfold Food.containsAndTake.
  destruct (Z.leb_spec (Food.amount fd) 0) as [Hle|Hpos]; [reflexivity|].
  cmp (Rltb (Vec.magnitude (Vec.subtract p (Food.pos fd))) (Food.radius fd)).
  - exfalso. apply Hno. now split.
  - reflexivity.
Qed.

Lemma take_cases (fd : Food.t) (p : Vec.t) :
  ((0 < Food.amount fd)%Z /\ Food.inside fd p) \/
  ~ ((0 < Food.amount fd)%Z /\ Food.inside fd p).
Proof.
  destruct (Z_lt_dec 0 (Food.amount fd));
    destruct (Rlt_dec (Vec.magnitude (Vec.subtract p (Food.pos fd))) (Food.radius fd));
    unfold Food.inside; tauto.
Qed.

Lemma inside_after_take (fd : Food.t) (q p : Vec.t) :
  Food.inside (snd (Food.containsAndTake fd q)) p <-> Food.inside fd p.
Proof.
  destruct (take_cases fd q) as [[Ha Hin]|Hno].
  - now rewrite take_inside.
  - now rewrite take_refused.
Qed.

Lemma takes_amount_le (ps : list Vec.t) : forall fd : Food.t,
  Forall (Food.inside fd) ps ->
  (Food.amount (Food.takes ps fd) <= Z.max 0 (Food.amount fd - Z.of_nat (length ps)))%Z.
Proof.
  induction ps as [|p ps IH]; intros fd Hall.
  - simpl. lia.
  - apply Forall_cons in Hall as [Hp Hps].
    change (Food.takes (p :: ps) fd)
      with (Food.takes ps (snd (Food.containsAndTake fd p))).
    assert (Hps' : Forall (Food.inside (snd (Food.containsAndTake fd p))) ps).
    { eapply Forall_impl; [exact Hps|]. intros q Hq. now apply inside_after_take. }
    specialize (IH _ Hps').
    destruct (Z_lt_dec 0 (Food.amount fd)) as [Ha|Ha].
    + rewrite take_inside in IH by assumption. simpl in IH.
      rewrite take_inside by assumption. simpl length. simpl snd. lia.
    + rewrite take_refused in IH by tauto. simpl in IH.
      rewrite take_refused by tauto. simpl length. simpl snd. lia.
Qed.

(** C8: [containsAndTake] answers true and takes exactly one unit when
    units remain and the position is inside the radius; in every other case
    it answers false and leaves the food source as it is.  Hence the amount
    never becomes negative, [originalAmount] calls from inside the radius
    deplete a full source, and a call from outside leaves the amount. *)
Theorem containsAndTake_spec (fd : Food.t) (p : Vec.t) :
  ((0 < Food.amount fd)%Z /\ Food.inside fd p ->
     Food.containsAndTake fd p =
       (true, Food.mk (Food.pos fd) (Food.amount fd - 1) (Food.radius fd)
                (Food.originalAmount fd)))
  /\ (~ ((0 < Food.amount fd)%Z /\ Food.inside fd p) ->
        Food.containsAndTake fd p = (false, fd))
  /\ (fst (Food.containsAndTake fd p) = true <->
        (0 < Food.amount fd)%Z /\ Food.inside fd p)
  /\ ((0 <= Food.amount fd)%Z ->
        (0 <= Food.amount (snd (Food.containsAndTake fd p)))%Z)
  /\ (forall ps : list Vec.t,
        Forall (Food.inside fd) ps ->
        length ps = Z.to_nat (Food.originalAmount fd) ->
        Food.amount fd = Food.originalAmount fd ->
        Food.isDepleted (Food.takes ps fd) = true)
  /\ (~ Food.inside fd p ->
        Food.amount (snd (Food.containsAndTake fd p)) = Food.amount fd).
Proof.
  split; [intros []; now apply take_inside|].
  split; [apply take_refused|].
  split.
  { destruct (take_cases fd p) as [[Ha Hin]|Hno].
    - rewrite take_inside by assumption. simpl. tauto.
    - rewrite take_refused by assumption. simpl. split; [discriminate|tauto]. }
  split.
  { intros H0. destruct (take_cases fd p) as [[Ha Hin]|Hno].
    - rewrite take_inside by assumption. simpl. lia.
    - now rewrite take_refused. }
  split.
  { intros ps Hall Hlen Hfull. unfold Food.isDepleted.
    pose proof (takes_amount_le ps fd Hall) as Hle.
    apply Z.leb_le. lia. }
  intros Hout. rewrite take_refused; [reflexivity|tauto].
Qed.

(** A full source of radius 25 at the origin, called 500 times from its
    centre. *)
Lemma containsAndTake_spec_witness :
  let fd := Food.constructor 0 0 25 in
  let p := Vec.new 0 0 in
  Food.containsAndTake fd p = (true, Food.mk (Vec.new 0 0) 499 25 500)
  /\ Food.isDepleted (Food.takes (replicate 500 p) fd) = true.
Proof.
  intros fd p.
  assert (Hin : Food.inside fd p).
  { unfold Food.inside, fd, p, Vec.magnitude. simpl.
    replace ((0 - 0) * (0 - 0) + (0 - 0) * (0 - 0)) with 0 by ring.
    rewrite sqrt_0. lra. }
  destruct (containsAndTake_spec fd p) as (Htake & _ & _ & _ & Hall & _).
  split.
  - apply Htake. split; [reflexivity | exact Hin].
  - apply Hall.
    + apply Forall_replicate. exact Hin.
    + reflexivity.
    + reflexivity.
Defined.

(** ** Deliveries at the nest *)

Section Delivery.

Variables (a : Ant.t) (n : Nest.t) (f : PheromoneField.t) (now1 now2 rnd : R).

Let after := Ant.deliver a n f now1 now2 rnd.

Lemma deliver_away : ~ Ant.atNest a n -> after = (a, n, f).
Proof.
  intros Hfar. unfold after, Ant.deliver. cbv zeta.
  match goal with |- context [Rltb ?u ?v] => cmp (Rltb u v) end.
  - exfalso. apply Hfar. exact Hc.
  - reflexivity.
Qed.

Lemma deliver_full :
  Ant.atNest a n -> (Nest.maxCapacity n <= Nest.foodStored n)%Z ->
  after =
    (Ant.mk (Ant.position a) (Ant.velocity a) false [] now1
       (Vec.multiply (Vec.random rnd) 0.3) (Ant.lastFoodTime a)
       (Ant.maxSpeed a) (Ant.maxTurnRate a) (Ant.energy a),
     Nest.mk (Nest.x n) (Nest.y n) (Nest.radius n) (Nest.foodStored n)
       (Nest.maxCapacity n) (Nest.efficiency n) true,
     f).
Proof.
  intros Hnear Hfull. unfold after, Ant.deliver. cbv zeta.
  match goal with |- context [Rltb ?u ?v] => cmp (Rltb u v) end.
  - destruct (Z.leb_spec (Nest.maxCapacity n) (Nest.foodStored n)); [reflexivity|lia].
  - unfold Ant.atNest in Hnear. lra.
Qed.

Lemma deliver_nest :
  Ant.atNest a n -> (Nest.foodStored n < Nest.maxCapacity n)%Z ->
  snd (fst after) =
    if (Nest.maxCapacity n <=? Nest.foodStored n + Ant.foodGained a now1)%Z
    then Nest.mk (Nest.x n) (Nest.y n) (Nest.radius n) (Nest.maxCapacity n)
           (Nest.maxCapacity n)
           (Rmin 2.0 (Nest.efficiency n * 0.95 + Ant.overallEfficiency a now1 * 0.05))
           true
    else Nest.mk (Nest.x n) (Nest.y n) (Nest.radius n)
           (Nest.foodStored n + Ant.foodGained a now1) (Nest.maxCapacity n)
           (Rmin 2.0 (Nest.efficiency n * 0.95 + Ant.overallEfficiency a now1 * 0.05))
           (Nest.isFull n).
Proof.
  intros Hnear Hroom. unfold after, Ant.deliver. cbv zeta.
  match goal with |- context [Rltb ?u ?v] => cmp (Rltb u v) end.
  - destruct (Z.leb_spec (Nest.maxCapacity n) (Nest.foodStored n)); [lia|reflexivity].
  - unfold Ant.atNest in Hnear. lra.
Qed.

Lemma deliver_cases :
  ~ Ant.atNest a n \/
  (Ant.atNest a n /\ (Nest.maxCapacity n <= Nest.foodStored n)%Z) \/
  (Ant.atNest a n /\ (Nest.foodStored n < Nest.maxCapacity n)%Z).
Proof.
  unfold Ant.atNest.
  match goal with |- ~ (?u < ?v) \/ _ => destruct (Rlt_dec u v) end;
    destruct (Z_le_dec (Nest.maxCapacity n) (Nest.foodStored n)); auto with zarith.
Qed.

(** One delivery keeps the stock within the capacity, leaves the capacity
    and never clears the full flag. *)
Lemma deliver_keeps :
  (Nest.foodStored n <= Nest.maxCapacity n)%Z ->
  (Nest.foodStored (snd (fst after)) <= Nest.maxCapacity (snd (fst after)))%Z
  /\ Nest.maxCapacity (snd (fst after)) = Nest.maxCapacity n.
Proof.
  intros Hinv.
  destruct deliver_cases as [Hfar | [[Hnear Hfull] | [Hnear Hroom]]].
  - rewrite deliver_away by assumption. simpl. auto.
  - rewrite deliver_full by assumption. simpl. auto.
  - rewrite deliver_nest by assumption.
    destruct (Z.leb_spec (Nest.maxCapacity n) (Nest.foodStored n + Ant.foodGained a now1));
      simpl; split; lia.
Qed.

Lemma deliver_stays_full :
  Nest.isFull n = true -> Nest.isFull (snd (fst after)) = true.
Proof.
  intros Hfull.
  destruct deliver_cases as [Hfar | [[Hnear Hcap] | [Hnear Hroom]]].
  - now rewrite deliver_away.
  - now rewrite deliver_full.
  - rewrite deliver_nest by assumption.
    now destruct (Nest.maxCapacity n <=? Nest.foodStored n + Ant.foodGained a now1)%Z.
Qed.

End Delivery.

Lemma deliveries_snoc (l : list Ant.arrival) (e : Ant.arrival)
    (s : Nest.t * PheromoneField.t) :
  fst (Ant.deliveries (l ++ [e]) s) =
    snd (fst (Ant.deliver (Ant.who e) (fst (Ant.deliveries l s))
                (snd (Ant.deliveries l s)) (Ant.at1 e) (Ant.at2 e) (Ant.roll e))).
Proof.
  unfold Ant.deliveries. rewrite foldl_app. simpl.
  now destruct (Ant.deliver _ _ _ _ _ _) as [[? ?] ?].
Qed.

Lemma deliveries_keep (l : list Ant.arrival) (s : Nest.t * PheromoneField.t) :
  (Nest.foodStored (fst s) <= Nest.maxCapacity (fst s))%Z ->
  (Nest.foodStored (fst (Ant.deliveries l s))
     <= Nest.maxCapacity (fst (Ant.deliveries l s)))%Z
  /\ Nest.maxCapacity (fst (Ant.deliveries l s)) = Nest.maxCapacity (fst s).
Proof.
  intros Hinv. induction l as [|e l IH] using rev_ind.
  - simpl. auto.
  - rewrite deliveries_snoc. destruct IH as [IH1 IH2].
    destruct (deliver_keeps (Ant.who e) (fst (Ant.deliveries l s))
                (snd (Ant.deliveries l s)) (Ant.at1 e) (Ant.at2 e) (Ant.roll e) IH1)
      as [H1 H2].
    split; [exact H1 | congruence].
Qed.

Lemma deliveries_stay_full (l2 : list Ant.arrival) :
  forall (l1 : list Ant.arrival) (s : Nest.t * PheromoneField.t),
  Nest.isFull (fst (Ant.deliveries l1 s)) = true ->
  Nest.isFull (fst (Ant.deliveries (l1 ++ l2) s)) = true.
Proof.
  induction l2 as [|e l2 IH] using rev_ind; intros l1 s Hfull.
  - now rewrite app_nil_r.
  - rewrite app_assoc, deliveries_snoc. apply deliver_stays_full. now apply IH.
Qed.

(** C4: from a nest whose stock is within its capacity, after every sequence
    of deliveries the stock is within the capacity, which no delivery
    changes; a delivery that reaches or passes the capacity stores exactly
    the capacity and sets the full flag; and once the flag is set, it is set
    after every further delivery. *)
Theorem nest_capacity_invariant (n0 : Nest.t) (f0 : PheromoneField.t) :
  (Nest.foodStored n0 <= Nest.maxCapacity n0)%Z ->
  (forall l : list Ant.arrival,
     (Nest.foodStored (fst (Ant.deliveries l (n0, f0))) <= Nest.maxCapacity n0)%Z
     /\ Nest.maxCapacity (fst (Ant.deliveries l (n0, f0))) = Nest.maxCapacity n0)
  /\ (forall (a : Ant.t) (now1 now2 rnd : R),
        Ant.atNest a n0 ->
        (Nest.foodStored n0 < Nest.maxCapacity n0)%Z ->
        (Nest.maxCapacity n0 <= Nest.foodStored n0 + Ant.foodGained a now1)%Z ->
        Nest.foodStored (snd (fst (Ant.deliver a n0 f0 now1 now2 rnd)))
          = Nest.maxCapacity n0
        /\ Nest.isFull (snd (fst (Ant.deliver a n0 f0 now1 now2 rnd))) = true)
  /\ (forall l1 l2 : list Ant.arrival,
        Nest.isFull (fst (Ant.deliveries l1 (n0, f0))) = true ->
        Nest.isFull (fst (Ant.deliveries (l1 ++ l2) (n0, f0))) = true).
Proof.
  intros Hinv. split; [|split].
  - intros l. destruct (deliveries_keep l (n0, f0) Hinv) as [H1 H2].
    simpl in H2. split; [lia | exact H2].
  - intros a now1 now2 rnd Hnear Hroom Hover.
    rewrite deliver_nest by assumption.
    destruct (Z.leb_spec (Nest.maxCapacity n0) (Nest.foodStored n0 + Ant.foodGained a now1));
      [simpl; auto | lia].
  - intros l1 l2. apply deliveries_stay_full.
Qed.

(** C5: an ant that reaches a nest whose stock is at its capacity leaves the
    stock, the capacity, the efficiency and the field as they are, and ends
    without food and with an empty path. *)
Theorem full_nest_rejects_delivery (a : Ant.t) (n : Nest.t) (f : PheromoneField.t)
    (now1 now2 rnd : R) :
  Ant.hasFood a = true ->
  Ant.atNest a n ->
  (Nest.maxCapacity n <= Nest.foodStored n)%Z ->
  let '(a', n', f') := Ant.deliver a n f now1 now2 rnd in
  Nest.foodStored n' = Nest.foodStored n
  /\ Nest.maxCapacity n' = Nest.maxCapacity n
  /\ Nest.efficiency n' = Nest.efficiency n
  /\ Nest.isFull n' = true
  /\ f' = f
  /\ Ant.hasFood a' = false
  /\ Ant.path a' = [].
Proof.
  intros _ Hnear Hfull. rewrite deliver_full by assumption. simpl. tauto.
Qed.

Lemma sample_ant_atNest (v : Vec.t) (c : bool) (stored capacity : Z) :
  Ant.atNest (Sample.ant v c) (Sample.nest stored capacity).
Proof.
  unfold Ant.atNest. simpl. rewrite magnitude_self. lra.
Qed.

(** An empty nest of capacity 500. *)
Lemma nest_capacity_invariant_witness :
  (0 <= 500)%Z /\
  forall l : list Ant.arrival,
    (Nest.foodStored (fst (Ant.deliveries l (Sample.nest 0 500, Sample.field1))) <= 500)%Z.
Proof.
  split; [lia|]. intros l.
  apply (nest_capacity_invariant (Sample.nest 0 500) Sample.field1).
  simpl. lia.
Defined.

(** A carrying ant at the centre of a nest that holds its 500 units. *)
Lemma full_nest_rejects_delivery_witness :
  let '(a', n', f') :=
    Ant.deliver (Sample.ant (Vec.new 1 0) true) (Sample.nest 500 500)
      Sample.field1 10 20 0 in
  Nest.foodStored n' = 500%Z /\ f' = Sample.field1
  /\ Ant.hasFood a' = false /\ Ant.path a' = [].
Proof.
  pose proof (full_nest_rejects_delivery (Sample.ant (Vec.new 1 0) true)
                (Sample.nest 500 500) Sample.field1 10 20 0 eq_refl
                (sample_ant_atNest _ _ _ _)) as H.
  assert (Hfull : (Nest.maxCapacity (Sample.nest 500 500)
                   <= Nest.foodStored (Sample.nest 500 500))%Z) by (simpl; lia).
  specialize (H Hfull).
  destruct (Ant.deliver _ _ _ _ _ _) as [[a' n'] f'].
  simpl in H. tauto.
Defined.

(** ** The speed update *)

Lemma slow_down_maxSpeed (a : Ant.t) : 0.9 <= Ant.maxSpeed (Ant.slow_down a).
Proof.
  unfold Ant.slow_down. simpl.
  pose proof (Rmax_l 0.3 (Ant.energy a / 100)). lra.
Qed.

Lemma update_speed_maxSpeed (a : Ant.t) (direction : Vec.t) :
  Ant.maxSpeed (Ant.update_speed a direction) = Ant.maxSpeed a.
Proof. reflexivity. Qed.

(** The last step of the speed update bounds the magnitude by the allowed
    speed, whatever the velocity it receives. *)
Lemma update_speed_bound (a : Ant.t) (direction : Vec.t) :
  0 <= Ant.maxSpeed a ->
  Vec.magnitude (Ant.velocity (Ant.update_speed a direction)) <= Ant.maxSpeed a * 1.5.
Proof.
  intros Hm. unfold Ant.update_speed. cbv zeta. unfold Ant.with_velocity. simpl.
  match goal with
  | |- context [if Rgtb (Vec.magnitude ?v) ?m then _ else _] =>
      set (v1 := v); cmp (Rgtb (Vec.magnitude v1) m)
  end.
  - rewrite magnitude_multiply by lra.
    rewrite normalize_unit by lra. lra.
  - exact Hc.
Qed.

Lemma atan2_on_axis (s : R) : 0 < s -> Vec.atan2 0 s = 0.
Proof.
  intros Hs. unfold Vec.atan2.
  cmp (Rltb 0 s); [|lra].
  unfold Rdiv. rewrite Rmult_0_l. apply atan_0.
Qed.

Lemma sign_neg (r : R) : r < 0 -> Ant.sign r = -1.
Proof.
  intros Hr. unfold Ant.sign.
  cmp (Rltb 0 r); [lra|]. cmp (Rltb r 0); [reflexivity|lra].
Qed.

(** An exploring ant that moves at speed 4 along the first axis (the speed
    the source gives an ant it throws out of an obstacle) and steers straight
    on: after the speed update its velocity is (3.9, 0). *)
Lemma speed_after_escape :
  Ant.velocity
    (Ant.update_speed (Ant.slow_down (Sample.ant (Vec.new 4 0) false)) (Vec.new 1 0))
  = Vec.new 3.9 0.
Proof.
  unfold Ant.update_speed. cbv zeta. unfold Ant.with_velocity. simpl.
  unfold Vec.angle. simpl.
  rewrite (magnitude_on_axis 4) by lra.
  rewrite !atan2_on_axis by lra.
  cmp (Rgtb 4 0.1); [|lra].
  rewrite (sign_neg (3.0 - 4)) by lra.
  replace (Rabs (3.0 - 4)) with 1
    by (rewrite Rabs_left by lra; lra).
  rewrite (Rmin_right 1 0.1) by lra.
  replace (0 - 0) with 0 by ring.
  pose proof PI_RGT_0 as Hpi.
  cmp (Rgtb 0 PI); [lra|].
  cmp (Rltb 0 (- PI)); [lra|].
  rewrite Rabs_R0.
  cmp (Rgtb 0 0.3); [lra|].
  replace (0 + 0) with 0 by ring.
  rewrite cos_0, sin_0. unfold Vec.multiply. simpl.
  replace (1 * (4 + -1 * 0.1)) with 3.9 by lra.
  replace (0 * (4 + -1 * 0.1)) with 0 by lra.
  rewrite (magnitude_on_axis 3.9) by lra.
  rewrite (Rmax_right 0.3 (100 / 100)) by lra.
  cmp (Rgtb 3.9 (3.0 * (100 / 100) * 1.5)); [lra|reflexivity].
Qed.

(** C6, as stated, fails: after the speed update of that ant the magnitude
    of the velocity, 3.9, is above [maxSpeed], 3. *)
Lemma speed_above_maxSpeed :
  let a' :=
    Ant.update_speed (Ant.slow_down (Sample.ant (Vec.new 4 0) false)) (Vec.new 1 0) in
  ~ (Vec.magnitude (Ant.velocity a') <= Ant.maxSpeed a').
Proof.
  intros a'. unfold a'. rewrite speed_after_escape.
  rewrite (magnitude_on_axis 3.9) by lra.
  rewrite update_speed_maxSpeed. unfold Ant.slow_down. simpl.
  rewrite (Rmax_right 0.3 (100 / 100)) by lra. lra.
Qed.

(** C6, amended: after the speed update of a tick the magnitude of the
    velocity is at most one and a half times [maxSpeed], the speed the
    source allows. *)
Theorem speed_within_allowed (a : Ant.t) (direction : Vec.t) :
  let a' := Ant.update_speed (Ant.slow_down a) direction in
  Vec.magnitude (Ant.velocity a') <= Ant.maxSpeed a' * 1.5.
Proof.
  intros a'. unfold a'. rewrite update_speed_maxSpeed.
  apply update_speed_bound.
  pose proof (slow_down_maxSpeed a). lra.
Qed.

(** ** Grids *)

Section Grid.

Import PheromoneField.

Implicit Types (g : grid) (i j x y W H : Z) (v : R).

Lemma get_at g i j :
  (0 <= i)%Z -> (0 <= j)%Z ->
  get g i j = default 0 ((g !! Z.to_nat i) ≫= (fun col => col !! Z.to_nat j)).
Proof.
  intros Hi Hj. unfold get.
  destruct (Z.ltb_spec i 0); [lia|]. destruct (Z.ltb_spec j 0); [lia|]. reflexivity.
Qed.

Lemma set_at g i j v :
  (0 <= i)%Z -> (0 <= j)%Z ->
  set g i j v = alter (fun col => <[Z.to_nat j := v]> col) (Z.to_nat i) g.
Proof.
  intros Hi Hj. unfold set.
  destruct (Z.ltb_spec i 0); [lia|]. destruct (Z.ltb_spec j 0); [lia|]. reflexivity.
Qed.

(** A negative index reaches no cell. *)
Lemma off_grid g i j v :
  (i < 0)%Z \/ (j < 0)%Z -> get g i j = 0 /\ set g i j v = g.
Proof.
  intros Hneg. unfold get, set.
  destruct (Z.ltb_spec i 0); [now split|]. destruct (Z.ltb_spec j 0); [now split|]. lia.
Qed.

Lemma on_or_off_grid i j : ((0 <= i)%Z /\ (0 <= j)%Z) \/ ((i < 0)%Z \/ (j < 0)%Z).
Proof. lia. Qed.

Lemma get_set_eq g x y v W H :
  dims g W H -> (0 <= x < W)%Z -> (0 <= y < H)%Z ->
  get (set g x y v) x y = v.
Proof.
  intros [Hlen Hcols] Hx Hy. rewrite get_at, set_at by lia.
  rewrite list_lookup_alter_eq.
  destruct (lookup_lt_is_Some_2 g (Z.to_nat x)) as [col Hcol]; [lia|].
  rewrite Hcol. simpl.
  rewrite list_lookup_insert_eq; [reflexivity|].
  rewrite Forall_lookup in Hcols. rewrite (Hcols _ _ Hcol). lia.
Qed.

Lemma get_set_ne g x y v i j :
  (0 <= x)%Z -> (0 <= y)%Z -> (0 <= i)%Z -> (0 <= j)%Z ->
  (i, j) <> (x, y) ->
  get (set g x y v) i j = get g i j.
Proof.
  intros Hx Hy Hi Hj Hne. rewrite !get_at, set_at by lia.
  destruct (decide (Z.to_nat x = Z.to_nat i)) as [Heq|Hxi].
  - rewrite Heq, list_lookup_alter_eq.
    destruct (g !! Z.to_nat i) as [col|]; simpl; [|reflexivity].
    rewrite list_lookup_insert_ne; [reflexivity|].
    intros Hyj. apply Hne. f_equal; lia.
  - now rewrite list_lookup_alter_ne.
Qed.

(** A read after a write finds the value written or the old value. *)
Lemma get_set_cases g x y v i j :
  get (set g x y v) i j = v \/ get (set g x y v) i j = get g i j.
Proof.
  destruct (on_or_off_grid x y) as [[Hx Hy]|Hoff];
    [|right; now rewrite (proj2 (off_grid g x y v Hoff))].
  destruct (on_or_off_grid i j) as [[Hi Hj]|Hoff];
    [|right; now rewrite !(proj1 (off_grid _ i j 0 Hoff))].
  rewrite !get_at, set_at by lia.
  destruct (decide (Z.to_nat x = Z.to_nat i)) as [Heq|Hxi].
  - rewrite Heq, list_lookup_alter_eq.
    destruct (g !! Z.to_nat i) as [col|]; simpl; [|now right].
    destruct (decide (Z.to_nat y = Z.to_nat j)) as [Hyj|Hyj].
    + rewrite Hyj.
      destruct (decide (Z.to_nat j < length col)%nat).
      * left. now rewrite list_lookup_insert_eq.
      * right. rewrite list_lookup_insert, decide_False by tauto. reflexivity.
    + right. now rewrite list_lookup_insert_ne.
  - right. now rewrite list_lookup_alter_ne.
Qed.

Lemma dims_set g x y v W H : dims g W H -> dims (set g x y v) W H.
Proof.
  intros [Hlen Hcols]. unfold set.
  destruct ((x <? 0)%Z || (y <? 0)%Z); [now split|]. split.
  - now rewrite length_alter.
  - apply Forall_alter; [exact Hcols|].
    intros col _ Hc. now rewrite length_insert.
Qed.

Lemma set_set g x y v w : set (set g x y v) x y w = set g x y w.
Proof.
  unfold set. destruct ((x <? 0)%Z || (y <? 0)%Z); [reflexivity|].
  rewrite list_alter_alter_eq.
  apply list_alter_ext; [|reflexivity].
  intros col _. simpl. apply list_insert_insert_eq.
Qed.

(** Writing back the value read changes nothing. *)
Lemma set_get g x y : set g x y (get g x y) = g.
Proof.
  unfold set, get. destruct ((x <? 0)%Z || (y <? 0)%Z); [reflexivity|].
  apply list_eq. intros k.
  destruct (decide (Z.to_nat x = k)) as [<-|Hk].
  - rewrite list_lookup_alter_eq.
    destruct (g !! Z.to_nat x) as [col|]; simpl; [|reflexivity].
    f_equal. apply list_insert_id'. intros Hlt.
    destruct (lookup_lt_is_Some_2 col (Z.to_nat y) Hlt) as [c Hc].
    now rewrite Hc.
  - now rewrite list_lookup_alter_ne.
Qed.

Lemma dims_zeros W H : dims (zeros W H) W H.
Proof.
  unfold zeros. split.
  - apply length_replicate.
  - apply Forall_replicate, length_replicate.
Qed.

Lemma get_zeros W H i j : get (zeros W H) i j = 0.
Proof.
  unfold get, zeros. destruct ((i <? 0)%Z || (j <? 0)%Z); [reflexivity|].
  destruct (replicate (Z.to_nat W) (replicate (Z.to_nat H) 0) !! Z.to_nat i)
    as [col|] eqn:Hcol; simpl; [|reflexivity].
  apply lookup_replicate in Hcol as [-> _].
  destruct (replicate (Z.to_nat H) 0 !! Z.to_nat j) as [c|] eqn:Hc; simpl;
    [|reflexivity].
  now apply lookup_replicate in Hc as [-> _].
Qed.

(** In a grid of [W] by [H] cells every index in range reaches a cell. *)
Lemma dims_lookup g W H i j :
  dims g W H -> (0 <= i < W)%Z -> (0 <= j < H)%Z ->
  is_Some ((g !! Z.to_nat i) ≫= (fun col => col !! Z.to_nat j)).
Proof.
  intros [Hlen Hcols] Hi Hj.
  destruct (lookup_lt_is_Some_2 g (Z.to_nat i)) as [col Hcol]; [lia|].
  rewrite Hcol. simpl. apply lookup_lt_is_Some_2.
  rewrite Forall_lookup in Hcols. rewrite (Hcols _ _ Hcol). lia.
Qed.

End Grid.

(** ** Indexing *)

Lemma constructor_wf (w h c : R) :
  0 < c -> PheromoneField.wf (PheromoneField.constructor w h c).
Proof.
  intros Hc. unfold PheromoneField.wf, PheromoneField.constructor. simpl.
  repeat split; try lia; try exact Hc;
    try apply length_replicate; apply Forall_replicate, length_replicate.
Qed.

Lemma clamp_range (i m : Z) :
  (1 <= m)%Z -> (0 <= PheromoneField._clamp i m < m)%Z.
Proof. unfold PheromoneField._clamp. lia. Qed.

Lemma index_range (f : PheromoneField.t) (pos : Vec.t) :
  PheromoneField.wf f ->
  (0 <= fst (PheromoneField.index f pos) < PheromoneField.gridW f)%Z
  /\ (0 <= snd (PheromoneField.index f pos) < PheromoneField.gridH f)%Z.
Proof.
  intros (_ & HW & HH & _). unfold PheromoneField.index. simpl.
  split; now apply clamp_range.
Qed.

(** C1: in a field as the constructor builds it (positive cell size, at
    least one column and one row, three grids of that shape), [index] maps
    every position, whatever its coordinates, to a cell in range, and the
    three grids have a cell there. *)
Theorem index_in_bounds (f : PheromoneField.t) (pos : Vec.t) :
  PheromoneField.wf f ->
  let '(gx, gy) := PheromoneField.index f pos in
  (0 <= gx < PheromoneField.gridW f)%Z
  /\ (0 <= gy < PheromoneField.gridH f)%Z
  /\ is_Some ((PheromoneField.home f !! Z.to_nat gx) ≫= (fun col => col !! Z.to_nat gy))
  /\ is_Some ((PheromoneField.food f !! Z.to_nat gx) ≫= (fun col => col !! Z.to_nat gy))
  /\ is_Some ((PheromoneField.pathSuccess f !! Z.to_nat gx)
                ≫= (fun col => col !! Z.to_nat gy)).
Proof.
  intros Hwf. destruct (index_range f pos Hwf) as [Hx Hy].
  destruct Hwf as (Hcell & HW & HH & Hh & Hf & Hp).
  destruct (PheromoneField.index f pos) as [gx gy]. simpl in Hx, Hy.
  repeat split; try lia; eapply dims_lookup; eauto.
Qed.

(** The field of three by three cells, asked for a position left of and far
    below the arena. *)
Lemma index_in_bounds_witness :
  let '(gx, gy) := PheromoneField.index Sample.field3 (Vec.new (-5) 1000) in
  (0 <= gx < 3)%Z /\ (0 <= gy < 3)%Z.
Proof.
  assert (Hwf : PheromoneField.wf Sample.field3) by (apply constructor_wf; lra).
  pose proof (index_in_bounds Sample.field3 (Vec.new (-5) 1000) Hwf) as H.
  destruct (PheromoneField.index Sample.field3 (Vec.new (-5) 1000)) as [gx gy].
  assert (HW : PheromoneField.gridW Sample.field3 = 3%Z).
  { unfold Sample.field3, PheromoneField.constructor. simpl.
    rewrite (Zceil_eq 3) by lra. reflexivity. }
  assert (HH : PheromoneField.gridH Sample.field3 = 3%Z).
  { unfold Sample.field3, PheromoneField.constructor. simpl.
    rewrite (Zceil_eq 3) by lra. reflexivity. }
  rewrite HW, HH in H. tauto.
Defined.

(** ** Deposits *)

Section Deposit.

Import PheromoneField.

Implicit Types (f : t) (type : string) (amt successBonus : R) (pos : Vec.t).

Lemma channel_with_channel f type (g : grid) :
  channel (with_channel f type g) type = g.
Proof. unfold channel, with_channel. now destruct (String.eqb type "home"). Qed.

Lemma with_channel_id f type : with_channel f type (channel f type) = f.
Proof.
  unfold channel, with_channel. destruct f.
  now destruct (String.eqb type "home").
Qed.

(** Of the distances [sqrt (dx * dx + dy * dy)] between cells, only 1 is
    above 0 and at most [spreadRadius]. *)
Lemma spread_distance (k : Z) :
  Rgtb (sqrt (IZR k)) 0 && Rleb (sqrt (IZR k)) (IZR spreadRadius) = true ->
  sqrt (IZR k) = 1.
Proof.
  intros Hg. apply andb_true_iff in Hg as [Hpos Hle].
  apply Rgtb_true in Hpos. apply Rleb_true in Hle. unfold spreadRadius in Hle.
  assert (Hk1 : (1 <= k)%Z).
  { destruct (Z_le_gt_dec k 0) as [Hk|Hk]; [|lia].
    apply IZR_le in Hk. rewrite sqrt_neg_0 in Hpos by exact Hk. lra. }
  assert (Hk2 : (k <= 1)%Z).
  { destruct (Z_le_gt_dec k 1) as [Hk|Hk]; [exact Hk|].
    assert (1 < IZR k) by (apply IZR_lt; lia).
    pose proof (sqrt_lt_1 1 (IZR k)) as Hs. rewrite sqrt_1 in Hs. lra. }
  replace k with 1%Z by lia. apply sqrt_1.
Qed.

(** On a field whose cells are at most 1000, the body of the spreading
    loops writes back what it read: the weight [1 - distance / spreadRadius]
    is 0 at the only distance that passes the test. *)
Lemma spread_cell_id type amt successBonus (gx gy : Z) f (dx dy : Z) :
  below (channel f type) 1000 ->
  spread_cell type amt successBonus gx gy f dx dy = f.
Proof.
  intros Hb. unfold spread_cell. cbv zeta.
  destruct ((0 <=? gx + dx)%Z && (gx + dx <? gridW f)%Z && (0 <=? gy + dy)%Z
            && (gy + dy <? gridH f)%Z); [|reflexivity].
  destruct (Rgtb (sqrt (IZR (dx * dx + dy * dy))) 0
            && Rleb (sqrt (IZR (dx * dx + dy * dy))) (IZR spreadRadius)) eqn:Hd;
    [|reflexivity].
  rewrite (spread_distance _ Hd). unfold spreadRadius.
  replace (amt * successBonus * (1 - 1 / 1) * 0.3) with 0 by lra.
  rewrite Rplus_0_r, Rmin_left by apply Hb.
  rewrite set_get. apply with_channel_id.
Qed.

Lemma spread_loops_id type amt successBonus (gx gy : Z) f (l1 l2 : list Z) :
  below (channel f type) 1000 ->
  foldl (fun f dx =>
           foldl (fun f dy => spread_cell type amt successBonus gx gy f dx dy) f l2)
        f l1 = f.
Proof.
  intros Hb.
  assert (Hin : forall dx,
             foldl (fun f dy => spread_cell type amt successBonus gx gy f dx dy) f l2 = f).
  { intros dx. induction l2 as [|dy l2 IH]; [reflexivity|].
    simpl. now rewrite spread_cell_id. }
  induction l1 as [|dx l1 IH]; [reflexivity|].
  simpl. now rewrite Hin.
Qed.

Lemma below_set (g : grid) (x y : Z) (v M : R) :
  below g M -> v <= M -> below (set g x y v) M.
Proof.
  intros Hb Hv i j.
  destruct (get_set_cases g x y v i j) as [-> | ->]; [exact Hv | apply Hb].
Qed.

(** On a field whose cells are at most 1000, [deposit] comes down to its
    two writes at the cell of the position. *)
Lemma deposit_eq f pos type amt successBonus :
  bounded f ->
  deposit f pos type amt successBonus =
    let '(gx, gy) := index f pos in
    let f1 :=
      with_channel f type
        (set (channel f type) gx gy
           (Rmin (get (channel f type) gx gy + amt * successBonus) 1000)) in
    with_pathSuccess f1
      (set (pathSuccess f1) gx gy (get (pathSuccess f1) gx gy + successBonus * 0.1)).
Proof.
  intros [Hh Hf]. unfold deposit. destruct (index f pos) as [gx gy].
  apply spread_loops_id.
  set (v := Rmin _ 1000).
  replace (channel _ type) with (set (channel f type) gx gy v).
  - apply below_set; [|apply Rmin_r].
    unfold channel. now destruct (String.eqb type "home").
  - unfold channel, with_channel, with_pathSuccess.
    now destruct (String.eqb type "home").
Qed.

Lemma same_shape_trans f f' f'' :
  same_shape f f' -> same_shape f' f'' -> same_shape f f''.
Proof. unfold same_shape. intros (?&?&?) (?&?&?). repeat split; congruence. Qed.

Lemma spread_cell_shape type amt successBonus (gx gy : Z) f (dx dy : Z) :
  same_shape f (spread_cell type amt successBonus gx gy f dx dy).
Proof.
  unfold same_shape, spread_cell, with_channel. cbv zeta.
  repeat match goal with |- context [if ?c then _ else _] => destruct c end;
    simpl; auto.
Qed.

Lemma spread_loops_shape type amt successBonus (gx gy : Z) (l1 l2 : list Z) :
  forall f,
  same_shape f
    (foldl (fun f dx =>
              foldl (fun f dy => spread_cell type amt successBonus gx gy f dx dy) f l2)
           f l1).
Proof.
  assert (Hin : forall dx f,
             same_shape f
               (foldl (fun f dy => spread_cell type amt successBonus gx gy f dx dy) f l2)).
  { intros dx. induction l2 as [|dy l2 IH]; intros f; simpl.
    - now repeat split.
    - eapply same_shape_trans; [apply spread_cell_shape | apply IH]. }
  induction l1 as [|dx l1 IH]; intros f; simpl.
  - now repeat split.
  - eapply same_shape_trans; [apply Hin | apply IH].
Qed.

Lemma deposit_shape f pos type amt successBonus :
  same_shape f (deposit f pos type amt successBonus).
Proof.
  unfold deposit. destruct (index f pos) as [gx gy].
  eapply same_shape_trans; [|apply spread_loops_shape].
  unfold same_shape, with_pathSuccess, with_channel.
  now destruct (String.eqb type "home").
Qed.

Lemma deposit_index f pos type amt successBonus (p : Vec.t) :
  index (deposit f pos type amt successBonus) p = index f p.
Proof.
  destruct (deposit_shape f pos type amt successBonus) as (Hc & HW & HH).
  unfold index. now rewrite Hc, HW, HH.
Qed.

End Deposit.

Section DepositEffect.

Import PheromoneField.

Variables (f : t) (pos : Vec.t) (type : string) (amt successBonus : R).

Hypothesis Hwf : wf f.
Hypothesis Hb : bounded f.

Let f' := deposit f pos type amt successBonus.

Lemma deposit_wf : wf f'.
Proof.
  destruct (deposit_shape f pos type amt successBonus) as (Hc & HW & HH).
  fold f' in Hc, HW, HH.
  destruct Hwf as (Hcell & H1 & H2 & Hh & Hf & Hp).
  unfold wf. rewrite Hc, HW, HH.
  assert (Hg : dims (home f') (gridW f) (gridH f)
               /\ dims (food f') (gridW f) (gridH f)
               /\ dims (pathSuccess f') (gridW f) (gridH f)); [|tauto].
  unfold f'. rewrite deposit_eq by exact Hb. destruct (index f pos) as [gx gy].
  unfold with_pathSuccess, with_channel, channel.
  destruct (String.eqb type "home"); simpl;
    (split; [|split]); trivial; now apply dims_set.
Qed.

Lemma deposit_bounded : bounded f'.
Proof.
  destruct Hb as [Hh Hf].
  unfold f'. rewrite deposit_eq by exact Hb. destruct (index f pos) as [gx gy].
  unfold bounded, with_pathSuccess, with_channel, channel.
  destruct (String.eqb type "home"); simpl; split; try assumption;
    apply below_set; try assumption; apply Rmin_r.
Qed.

(** The success grid receives [successBonus * 0.1] at the cell of the
    position, as it is, without a bound. *)
Lemma deposit_pathSuccess :
  get (pathSuccess f') (fst (index f pos)) (snd (index f pos))
  = get (pathSuccess f) (fst (index f pos)) (snd (index f pos)) + successBonus * 0.1.
Proof.
  destruct (index_range f pos Hwf) as [Hx Hy].
  destruct Hwf as (Hcell & H1 & H2 & Hh & Hf & Hp).
  unfold f'. rewrite deposit_eq by exact Hb.
  destruct (index f pos) as [gx gy]. simpl fst in *. simpl snd in *.
  unfold with_pathSuccess, with_channel, channel.
  destruct (String.eqb type "home"); simpl;
    now rewrite (get_set_eq _ _ _ _ _ _ Hp Hx Hy).
Qed.

(** The channel receives [amt * successBonus] at the cell of the position,
    up to 1000. *)
Lemma deposit_primary :
  get (channel f' type) (fst (index f pos)) (snd (index f pos))
  = Rmin (get (channel f type) (fst (index f pos)) (snd (index f pos))
          + amt * successBonus) 1000.
Proof.
  destruct (index_range f pos Hwf) as [Hx Hy].
  destruct Hwf as (Hcell & H1 & H2 & Hh & Hf & Hp).
  unfold f'. rewrite deposit_eq by exact Hb.
  destruct (index f pos) as [gx gy]. simpl fst in *. simpl snd in *.
  unfold with_pathSuccess, with_channel, channel.
  destruct (String.eqb type "home"); simpl.
  - now rewrite (get_set_eq _ _ _ _ _ _ Hh Hx Hy).
  - now rewrite (get_set_eq _ _ _ _ _ _ Hf Hx Hy).
Qed.

(** Every other cell of the home and food grids is left as it was: the
    neighbours of the cell of the position receive nothing. *)
Lemma deposit_elsewhere (i j : Z) :
  (0 <= i)%Z -> (0 <= j)%Z -> (i, j) <> index f pos ->
  get (home f') i j = get (home f) i j /\ get (food f') i j = get (food f) i j.
Proof.
  intros Hi Hj Hne.
  destruct (index_range f pos Hwf) as [Hx Hy].
  unfold f'. rewrite deposit_eq by exact Hb.
  destruct (index f pos) as [gx gy]. simpl in Hx, Hy.
  unfold with_pathSuccess, with_channel, channel.
  destruct (String.eqb type "home"); simpl; split; trivial;
    apply get_set_ne; trivial; lia.
Qed.

End DepositEffect.

(** After every sequence of deposits the field keeps its shape and no cell
    of the home and food grids is above 1000. *)
Lemma deposits_bounded (l : list PheromoneField.call) :
  forall f : PheromoneField.t,
  PheromoneField.wf f -> PheromoneField.bounded f ->
  PheromoneField.wf (PheromoneField.deposits l f)
  /\ PheromoneField.bounded (PheromoneField.deposits l f).
Proof.
  induction l as [|c l IH]; intros f Hwf Hb; [now split|].
  simpl. apply IH.
  - now apply deposit_wf.
  - now apply deposit_bounded.
Qed.

(** [n] equal deposits add [n] times [successBonus * 0.1] to the success
    grid at the cell of the position. *)
Lemma deposits_pathSuccess (c : PheromoneField.call) (n : nat) :
  forall f : PheromoneField.t,
  PheromoneField.wf f -> PheromoneField.bounded f ->
  let gx := fst (PheromoneField.index f (PheromoneField.pos c)) in
  let gy := snd (PheromoneField.index f (PheromoneField.pos c)) in
  PheromoneField.get
    (PheromoneField.pathSuccess (PheromoneField.deposits (replicate n c) f)) gx gy
  = PheromoneField.get (PheromoneField.pathSuccess f) gx gy
    + INR n * (PheromoneField.successBonus c * 0.1).
Proof.
  induction n as [|n IH]; intros f Hwf Hb gx gy.
  - simpl. lra.
  - change (PheromoneField.deposits (replicate (S n) c) f)
      with (PheromoneField.deposits (replicate n c)
              (PheromoneField.deposit f (PheromoneField.pos c) (PheromoneField.type c)
                 (PheromoneField.amt c) (PheromoneField.successBonus c))).
    pose proof (deposit_wf f (PheromoneField.pos c) (PheromoneField.type c)
                  (PheromoneField.amt c) (PheromoneField.successBonus c) Hwf Hb) as Hwf1.
    pose proof (deposit_bounded f (PheromoneField.pos c) (PheromoneField.type c)
                  (PheromoneField.amt c) (PheromoneField.successBonus c) Hb) as Hb1.
    specialize (IH _ Hwf1 Hb1).
    cbv zeta in IH. rewrite deposit_index in IH. fold gx gy in IH.
    rewrite IH. unfold gx, gy. rewrite deposit_pathSuccess by assumption.
    rewrite S_INR. lra.
Qed.

Lemma constructor_bounded (w h c : R) :
  PheromoneField.bounded (PheromoneField.constructor w h c).
Proof.
  unfold PheromoneField.bounded, PheromoneField.below, PheromoneField.constructor.
  simpl. split; intros i j; rewrite get_zeros; lra.
Qed.

Lemma field1_shape :
  PheromoneField.gridW Sample.field1 = 1%Z /\ PheromoneField.gridH Sample.field1 = 1%Z.
Proof.
  unfold Sample.field1, PheromoneField.constructor. simpl.
  rewrite (Zceil_eq 1) by lra. now split.
Qed.

Lemma field3_shape :
  PheromoneField.gridW Sample.field3 = 3%Z /\ PheromoneField.gridH Sample.field3 = 3%Z.
Proof.
  unfold Sample.field3, PheromoneField.constructor. simpl.
  rewrite (Zceil_eq 3) by lra. now split.
Qed.

Lemma field1_index : PheromoneField.index Sample.field1 (Vec.new 3 3) = (0%Z, 0%Z).
Proof.
  unfold PheromoneField.index. destruct field1_shape as [-> ->].
  unfold Sample.field1. simpl. rewrite (Zfloor_eq 0) by lra. reflexivity.
Qed.

Lemma field3_index : PheromoneField.index Sample.field3 (Vec.new 9 9) = (1%Z, 1%Z).
Proof.
  unfold PheromoneField.index. destruct field3_shape as [-> ->].
  unfold Sample.field3. simpl. rewrite (Zfloor_eq 1) by lra. reflexivity.
Qed.

(** [reinforcePath], the other writer of the success grid, keeps it at most
    100. *)
Lemma reinforcePath_below (pathPoints : list Vec.t) (strength : R) :
  forall f : PheromoneField.t,
  PheromoneField.below (PheromoneField.pathSuccess f) 100 ->
  PheromoneField.below
    (PheromoneField.pathSuccess (PheromoneField.reinforcePath f pathPoints strength)) 100.
Proof.
  unfold PheromoneField.reinforcePath.
  induction pathPoints as [|pos l IH]; intros f Hb; [exact Hb|].
  simpl. apply IH.
  destruct (PheromoneField.index f pos) as [gx gy].
  match goal with |- context [if ?c then _ else _] => destruct c end; [|exact Hb].
  simpl. apply below_set; [exact Hb | apply Rmin_r].
Qed.

(** C2, at the failing input: 1001 deposits of 12 units on the food channel
    with [successBonus] 1, at one position of a new field, leave 100.1 in the
    cell of the success grid, above 100. *)
Theorem deposit_pathSuccess_unbounded :
  let calls := replicate 1001 (PheromoneField.args (Vec.new 3 3) "food" 12 1) in
  let f := PheromoneField.deposits calls Sample.field1 in
  PheromoneField.get (PheromoneField.pathSuccess f) 0 0 = 100.1
  /\ ~ (PheromoneField.get (PheromoneField.pathSuccess f) 0 0 <= 100).
Proof.
  intros calls f.
  assert (Hv : PheromoneField.get (PheromoneField.pathSuccess f) 0 0 = 100.1).
  { pose proof (deposits_pathSuccess
                  (PheromoneField.args (Vec.new 3 3) "food" 12 1) 1001 Sample.field1
                  (constructor_wf 6 6 6 ltac:(lra)) (constructor_bounded 6 6 6)) as H.
    cbv zeta in H. simpl PheromoneField.pos in H. rewrite field1_index in H.
    simpl fst in H. simpl snd in H. fold calls in H. fold f in H. rewrite H.
    unfold Sample.field1, PheromoneField.constructor. simpl PheromoneField.pathSuccess.
    rewrite get_zeros, INR_IZR_INZ.
    replace (Z.of_nat 1001) with 1001%Z by reflexivity. simpl. lra. }
  split; [exact Hv | rewrite Hv; lra].
Qed.

(** C3, at the failing input: a deposit of 10 units on the home channel in
    the middle of a new field of three by three cells puts 10 in the middle
    cell and leaves 0 in the eight cells around it. *)
Theorem deposit_spreads_nothing :
  let f := PheromoneField.deposit Sample.field3 (Vec.new 9 9) "home" 10 1 in
  PheromoneField.get (PheromoneField.home f) 1 1 = 10
  /\ forall i j : Z,
       (0 <= i < 3)%Z -> (0 <= j < 3)%Z -> (i, j) <> (1%Z, 1%Z) ->
       PheromoneField.get (PheromoneField.home f) i j = 0.
Proof.
  intros f.
  assert (Hwf : PheromoneField.wf Sample.field3) by (apply constructor_wf; lra).
  pose proof (constructor_bounded 18 18 6) as Hb.
  split.
  - pose proof (deposit_primary Sample.field3 (Vec.new 9 9) "home" 10 1 Hwf Hb) as H.
    rewrite field3_index in H. simpl fst in H. simpl snd in H.
    change (PheromoneField.channel ?g "home") with (PheromoneField.home g) in H.
    fold f in H. rewrite H.
    unfold Sample.field3, PheromoneField.constructor. simpl PheromoneField.home.
    rewrite get_zeros. rewrite Rmin_left by lra. lra.
  - intros i j Hi Hj Hne.
    destruct (deposit_elsewhere Sample.field3 (Vec.new 9 9) "home" 10 1 Hwf Hb i j)
      as [H _]; try lia.
    + now rewrite field3_index.
    + fold f in H. rewrite H.
      unfold Sample.field3, PheromoneField.constructor. simpl PheromoneField.home.
      apply get_zeros.
Qed.

(** ** Loops over all cells *)

Section Sweep.

Import PheromoneField.

Variables (op : grid -> Z -> Z -> grid) (F : R -> R) (W H : Z).

Hypothesis op_upd : forall (g : grid) (x y : Z),
  dims g W H -> (0 <= x < W)%Z -> (0 <= y < H)%Z -> op g x y = upd g x y F.

Lemma get_upd (g : grid) (x y i j : Z) :
  dims g W H -> (0 <= x < W)%Z -> (0 <= y < H)%Z -> (0 <= i)%Z -> (0 <= j)%Z ->
  get (upd g x y F) i j = if decide ((i, j) = (x, y)) then F (get g i j) else get g i j.
Proof.
  intros Hd Hx Hy Hi Hj. unfold upd.
  destruct (decide ((i, j) = (x, y))) as [Heq|Hne].
  - injection Heq as -> ->. now apply (get_set_eq _ _ _ _ W H).
  - apply get_set_ne; trivial; lia.
Qed.

(** The inner loop, over the rows [ys] of the column [x]. *)
Lemma column_loop (x : Z) (ys : list Z) :
  (0 <= x < W)%Z -> Forall (fun y => (0 <= y < H)%Z) ys -> NoDup ys ->
  forall g : grid, dims g W H ->
  dims (foldl (fun g y => op g x y) g ys) W H
  /\ forall i j : Z, (0 <= i)%Z -> (0 <= j)%Z ->
       get (foldl (fun g y => op g x y) g ys) i j
       = if decide (i = x /\ j ∈ ys) then F (get g i j) else get g i j.
Proof.
  intros Hx Hys Hnd. induction ys as [|y ys IH]; intros g Hd.
  - split; [exact Hd|]. intros i j _ _.
    rewrite decide_False; [reflexivity|]. intros [_ Hin]. inversion Hin.
  - apply Forall_cons in Hys as [Hy Hys]. apply NoDup_cons in Hnd as [Hny Hnd].
    simpl. rewrite op_upd by assumption.
    assert (Hd1 : dims (upd g x y F) W H) by now apply dims_set.
    destruct (IH Hys Hnd _ Hd1) as [Hdims Hget].
    split; [exact Hdims|]. intros i j Hi Hj.
    rewrite Hget by assumption. rewrite !get_upd by (assumption || lia).
    destruct (decide ((i, j) = (x, y))) as [Heq|Hne].
    + injection Heq as -> ->.
      rewrite decide_False by tauto.
      rewrite decide_True; [reflexivity|]. split; [reflexivity | now left].
    + destruct (decide (i = x /\ j ∈ ys)) as [[-> Hin]|Hno].
      * rewrite decide_True; [reflexivity|]. split; [reflexivity | now right].
      * rewrite decide_False; [reflexivity|].
        intros [-> Hin]. apply elem_of_cons in Hin as [->|Hin]; tauto.
Qed.

(** The outer loop, over the columns [xs]. *)
Lemma columns_loop (xs ys : list Z) :
  Forall (fun x => (0 <= x < W)%Z) xs -> NoDup xs ->
  Forall (fun y => (0 <= y < H)%Z) ys -> NoDup ys ->
  forall g : grid, dims g W H ->
  dims (foldl (fun g x => foldl (fun g y => op g x y) g ys) g xs) W H
  /\ forall i j : Z, (0 <= i)%Z -> (0 <= j)%Z ->
       get (foldl (fun g x => foldl (fun g y => op g x y) g ys) g xs) i j
       = if decide (i ∈ xs /\ j ∈ ys) then F (get g i j) else get g i j.
Proof.
  intros Hxs Hndx Hys Hndy. induction xs as [|x xs IH]; intros g Hd.
  - split; [exact Hd|]. intros i j _ _.
    rewrite decide_False; [reflexivity|]. intros [Hin _]. inversion Hin.
  - apply Forall_cons in Hxs as [Hx Hxs]. apply NoDup_cons in Hndx as [Hnx Hndx].
    simpl.
    destruct (column_loop x ys Hx Hys Hndy g Hd) as [Hd1 Hget1].
    destruct (IH Hxs Hndx _ Hd1) as [Hdims Hget].
    split; [exact Hdims|]. intros i j Hi Hj.
    rewrite Hget, !Hget1 by assumption.
    destruct (decide (i = x /\ j ∈ ys)) as [[-> Hin]|Hno].
    + rewrite decide_False by tauto.
      rewrite decide_True; [reflexivity|]. split; [now left | exact Hin].
    + destruct (decide (i ∈ xs /\ j ∈ ys)) as [[Hi' Hj']|Hno'].
      * rewrite decide_True; [reflexivity|]. split; [now right | exact Hj'].
      * rewrite decide_False; [reflexivity|].
        intros [Hin Hj']. apply elem_of_cons in Hin as [->|Hin]; tauto.
Qed.

Lemma seqZ_in_range (n : Z) : Forall (fun k => (0 <= k < n)%Z) (seqZ 0 n).
Proof. apply Forall_forall. intros k Hk. apply elem_of_seqZ in Hk. lia. Qed.

(** A sweep keeps the shape of the grid and applies [F] to every cell. *)
Lemma sweep_all (g : grid) :
  dims g W H ->
  dims (sweep op W H g) W H
  /\ forall i j : Z, (0 <= i < W)%Z -> (0 <= j < H)%Z ->
       get (sweep op W H g) i j = F (get g i j).
Proof.
  intros Hd. unfold sweep.
  destruct (columns_loop (seqZ 0 W) (seqZ 0 H) (seqZ_in_range W) (NoDup_seqZ 0 W)
              (seqZ_in_range H) (NoDup_seqZ 0 H) g Hd) as [Hdims Hget].
  split; [exact Hdims|]. intros i j Hi Hj.
  rewrite Hget by lia. rewrite decide_True; [reflexivity|].
  split; apply elem_of_seqZ; lia.
Qed.

End Sweep.

(** ** Evaporation *)

Section Evaporate.

Import PheromoneField.

(** On a cell in range [decay] applies [evap]. *)
Lemma decay_upd (k : R) (W H : Z) (g : grid) (x y : Z) :
  dims g W H -> (0 <= x < W)%Z -> (0 <= y < H)%Z ->
  decay g x y k = upd g x y (evap k).
Proof.
  intros Hd Hx Hy. unfold decay, upd, evap. cbv zeta.
  rewrite (get_set_eq _ _ _ _ W H) by assumption.
  destruct (Rltb (get g x y * k) 0.01); [apply set_set | reflexivity].
Qed.

(** The loops of [evaporate] on the field are three sweeps, one per grid. *)
Lemma evaporate_rows (rate : R) (x : Z) (ys : list Z) : forall f : t,
  foldl (fun f y => evaporate_cell rate f x y) f ys
  = mk (cell f) (gridW f) (gridH f)
      (foldl (fun g y => decay g x y (1 - rate)) (home f) ys)
      (foldl (fun g y => decay g x y (1 - rate)) (food f) ys)
      (foldl (fun g y => decay g x y (1 - rate * 0.3)) (pathSuccess f) ys).
Proof.
  induction ys as [|y ys IH]; intros f; simpl.
  - now destruct f.
  - now rewrite IH.
Qed.

Lemma evaporate_columns (rate : R) (H : Z) (xs : list Z) : forall f : t,
  gridH f = H ->
  foldl (fun f x => foldl (fun f y => evaporate_cell rate f x y) f (seqZ 0 (gridH f)))
        f xs
  = mk (cell f) (gridW f) (gridH f)
      (foldl (fun g x => foldl (fun g y => decay g x y (1 - rate)) g (seqZ 0 H))
             (home f) xs)
      (foldl (fun g x => foldl (fun g y => decay g x y (1 - rate)) g (seqZ 0 H))
             (food f) xs)
      (foldl (fun g x => foldl (fun g y => decay g x y (1 - rate * 0.3)) g (seqZ 0 H))
             (pathSuccess f) xs).
Proof.
  induction xs as [|x xs IH]; intros f HH; simpl.
  - now destruct f.
  - rewrite evaporate_rows, IH by (simpl; exact HH). simpl. now rewrite HH.
Qed.

Lemma evaporate_sweep (f : t) (rate : R) :
  evaporate f rate
  = mk (cell f) (gridW f) (gridH f)
      (sweep (fun g x y => decay g x y (1 - rate)) (gridW f) (gridH f) (home f))
      (sweep (fun g x y => decay g x y (1 - rate)) (gridW f) (gridH f) (food f))
      (sweep (fun g x y => decay g x y (1 - rate * 0.3)) (gridW f) (gridH f)
         (pathSuccess f)).
Proof. unfold evaporate, sweep. now apply evaporate_columns. Qed.

Lemma evaporate_wf (f : t) (rate : R) : wf f -> wf (evaporate f rate).
Proof.
  intros (Hcell & HW & HH & Hh & Hf & Hp). rewrite evaporate_sweep.
  unfold wf. simpl. repeat (split; [assumption|]).
  split; [|split];
    eapply sweep_all; eauto; intros; eapply decay_upd; eauto.
Qed.

(** One [evaporate] applies [evap] to every cell, with the factor of its
    grid. *)
Lemma evaporate_cells (f : t) (rate : R) (i j : Z) :
  wf f -> (0 <= i < gridW f)%Z -> (0 <= j < gridH f)%Z ->
  get (home (evaporate f rate)) i j = evap (1 - rate) (get (home f) i j)
  /\ get (food (evaporate f rate)) i j = evap (1 - rate) (get (food f) i j)
  /\ get (pathSuccess (evaporate f rate)) i j
     = evap (1 - rate * 0.3) (get (pathSuccess f) i j).
Proof.
  intros (Hcell & HW & HH & Hh & Hf & Hp) Hi Hj. rewrite evaporate_sweep. simpl.
  split; [|split];
    eapply sweep_all; eauto; intros; eapply decay_upd; eauto.
Qed.

Lemma evaporations_shape (n : nat) (rate : R) (f : t) :
  wf f ->
  wf (evaporations n rate f)
  /\ gridW (evaporations n rate f) = gridW f
  /\ gridH (evaporations n rate f) = gridH f.
Proof.
  intros Hwf.
  induction n as [|n (IHwf & IHW & IHH)]; [split; [exact Hwf | split; reflexivity]|].
  unfold evaporations in *. simpl.
  split; [now apply evaporate_wf|].
  rewrite evaporate_sweep. simpl. now split.
Qed.

(** [n] evaporations apply [evap] [n] times to every cell. *)
Lemma evaporations_cells (n : nat) (rate : R) (f : t) (i j : Z) :
  wf f -> (0 <= i < gridW f)%Z -> (0 <= j < gridH f)%Z ->
  get (home (evaporations n rate f)) i j
    = Nat.iter n (evap (1 - rate)) (get (home f) i j)
  /\ get (food (evaporations n rate f)) i j
     = Nat.iter n (evap (1 - rate)) (get (food f) i j)
  /\ get (pathSuccess (evaporations n rate f)) i j
     = Nat.iter n (evap (1 - rate * 0.3)) (get (pathSuccess f) i j).
Proof.
  intros Hwf Hi Hj. induction n as [|n (IH1 & IH2 & IH3)]; [now repeat split|].
  destruct (evaporations_shape n rate f Hwf) as (Hwfn & HWn & HHn).
  change (evaporations (S n) rate f) with (evaporate (evaporations n rate f) rate).
  destruct (evaporate_cells (evaporations n rate f) rate i j Hwfn) as (E1 & E2 & E3);
    [lia | lia |].
  simpl. rewrite E1, E2, E3, IH1, IH2, IH3. now repeat split.
Qed.

End Evaporate.

(** ** One cell under evaporation *)

Section Evap.

Import PheromoneField.

Variable k : R.
Hypothesis k_range : 0 < k < 1.

Lemma evap_nonneg (v : R) : 0 <= evap k v.
Proof. unfold evap. cmp (Rltb (v * k) 0.01); lra. Qed.

Lemma evap_le (v : R) : 0 <= v -> evap k v <= v.
Proof. intros Hv. unfold evap. cmp (Rltb (v * k) 0.01); nra. Qed.

Lemma evap_le_scaled (v : R) : evap k v <= Rmax 0 v * k.
Proof.
  unfold evap. pose proof (Rmax_l 0 v). pose proof (Rmax_r 0 v).
  cmp (Rltb (v * k) 0.01); nra.
Qed.

Lemma evap_snap (v : R) : v * k < 0.01 -> evap k v = 0.
Proof. intros Hv. unfold evap. cmp (Rltb (v * k) 0.01); [reflexivity|lra]. Qed.

Lemma evap_iter_le (n : nat) (v : R) :
  Rmax 0 (Nat.iter n (evap k) v) <= Rmax 0 v * k ^ n.
Proof.
  induction n as [|n IH]; simpl; [lra|].
  rewrite Rmax_right by apply evap_nonneg.
  eapply Rle_trans; [apply evap_le_scaled|]. nra.
Qed.

(** Every value that is at most [B] is exactly 0 after enough steps, and
    their number depends on [B] only. *)
Lemma evap_reaches_zero (B : R) :
  exists N : nat, forall (n : nat) (v : R),
    (N <= n)%nat -> v <= B -> Nat.iter n (evap k) v = 0.
Proof.
  assert (Heps : 0 < 0.01 / (Rmax 0 B + 1)).
  { pose proof (Rmax_l 0 B). apply Rdiv_lt_0_compat; lra. }
  destruct (pow_lt_1_zero k) with (y := 0.01 / (Rmax 0 B + 1)) as [N HN];
    [apply Rabs_def1; lra | exact Heps |].
  exists (S N). intros n v Hn Hv.
  destruct n as [|n]; [lia|]. simpl. apply evap_snap.
  assert (Hpow : k ^ S n < 0.01 / (Rmax 0 B + 1)).
  { specialize (HN (S n)). apply Rabs_def2 in HN as [HN _]; [exact HN | lia]. }
  pose proof (evap_iter_le n v) as Hit.
  pose proof (Rmax_r 0 (Nat.iter n (evap k) v)) as Hr.
  pose proof (Rmax_l 0 v) as Hv0.
  assert (Hvb : Rmax 0 v <= Rmax 0 B) by (apply Rle_max_compat_l; exact Hv).
  assert (Hk : 0 < k ^ n) by (apply pow_lt; lra).
  assert (Hk1 : k ^ S n = k ^ n * k) by (simpl; ring).
  assert (Hstep : Nat.iter n (evap k) v * k <= Rmax 0 B * k ^ S n).
  { rewrite Hk1.
    assert (Rmax 0 v * k ^ n <= Rmax 0 B * k ^ n)
      by (apply Rmult_le_compat_r; lra).
    assert (Nat.iter n (evap k) v <= Rmax 0 B * k ^ n) by lra.
    rewrite <- Rmult_assoc. apply Rmult_le_compat_r; lra. }
  assert (Hfin : Rmax 0 B * k ^ S n < 0.01).
  { pose proof (Rmax_l 0 B) as HB0.
    assert (Hd : k ^ S n * (Rmax 0 B + 1) < 0.01).
    { apply (Rmult_lt_compat_r (Rmax 0 B + 1)) in Hpow; [|lra].
      unfold Rdiv in Hpow. rewrite Rmult_assoc, Rinv_l in Hpow by lra. lra. }
    assert (0 < k ^ S n) by (apply pow_lt; lra). nra. }
  lra.
Qed.

End Evap.

(** A grid has finitely many cells, so one bound covers them all. *)
Lemma column_bound (col : list R) :
  exists B : R, 0 <= B /\ forall b : nat, default 0 (col !! b) <= B.
Proof.
  induction col as [|c col (B & HB & IH)].
  - exists 0. split; [lra|]. intros b. simpl. lra.
  - exists (Rmax c B). pose proof (Rmax_l c B). pose proof (Rmax_r c B).
    split; [lra|]. intros [|b]; simpl; [lra|].
    specialize (IH b). lra.
Qed.

Lemma grid_bound (g : list (list R)) : exists B : R, PheromoneField.below g B.
Proof.
  assert (Hnat : exists B : R, 0 <= B /\ forall a b : nat,
             default 0 ((g !! a) ≫= (fun col => col !! b)) <= B).
  { induction g as [|col g (B & HB & IH)].
    - exists 0. split; [lra|]. intros a b. simpl. lra.
    - destruct (column_bound col) as (Bc & HBc & Hc).
      exists (Rmax Bc B). pose proof (Rmax_l Bc B). pose proof (Rmax_r Bc B).
      split; [lra|]. intros [|a] b; simpl.
      + specialize (Hc b). lra.
      + specialize (IH a b). simpl in IH. lra. }
  destruct Hnat as (B & HB0 & HB). exists B. intros i j.
  unfold PheromoneField.get.
  destruct ((i <? 0)%Z || (j <? 0)%Z); [exact HB0 | apply HB].
Qed.

(** C7, as stated, fails on the numbers of the source.  The rate 1e-17 is
    between 0 and 1, but in binary64 [1 - rate] and [1 - rate * 0.3] are 1:
    [evaporate] at this rate gives the field back as it is, however often
    it is called, and the home cell that holds 12 is never 0. *)
Theorem evaporate_stalls :
  (0 <? 1e-17)%float = true /\ (1e-17 <? 1)%float = true
  /\ (1 - 1e-17)%float = 1%float
  /\ (1 - 1e-17 * 0.3)%float = 1%float
  /\ (forall n : nat,
        Binary64.evaporations n 1e-17 Sample.field64 = Sample.field64)
  /\ ~ (exists N : nat, forall n : nat, (N <= n)%nat ->
          Binary64.get
            (Binary64.home (Binary64.evaporations n 1e-17 Sample.field64)) 0 0
          = 0%float).
Proof.
  assert (Hall : forall n : nat,
            Binary64.evaporations n 1e-17 Sample.field64 = Sample.field64).
  { induction n as [|n IH]; [reflexivity|].
    change (Binary64.evaporations (S n) 1e-17 Sample.field64)
      with (Binary64.evaporate (Binary64.evaporations n 1e-17 Sample.field64) 1e-17).
    rewrite IH. vm_compute. reflexivity. }
  split; [reflexivity|]. split; [reflexivity|]. split; [reflexivity|].
  split; [reflexivity|]. split; [exact Hall|].
  intros [N HN]. specialize (HN N (le_n N)). rewrite Hall in HN.
  assert (E : (Binary64.get (Binary64.home Sample.field64) 0 0 =? 0)%float
              = (0 =? 0)%float) by now rewrite HN.
  vm_compute in E. discriminate E.
Qed.

(** From the rate [2 ^ -52] on, the two factors are below 1 in binary64,
    while at [2 ^ -53] the factor of the success grid still is 1; and at the
    rate 0.01 of the simulation 1000 calls leave 0 in every cell. *)
Lemma evaporate_binary64_factors :
  (1 - 0x1p-52 <? 1)%float = true
  /\ (1 - 0x1p-52 * 0.3 <? 1)%float = true
  /\ (1 - 0x1p-53 * 0.3)%float = 1%float
  /\ Binary64.evaporations 1000 0.01 Sample.field64
     = Binary64.mk 6 1 1 [[0%float]] [[0%float]] [[0%float]].
Proof. repeat split; vm_compute; reflexivity. Qed.

(** C7, amended: for a rate from [2 ^ -52] to below 1, one [evaporate]
    leaves no cell of a field without negative cells above its value before
    the call; and whatever the field, from some number of repeated calls
    on, every cell of the three grids is exactly 0. *)
Theorem evaporate_decreases_to_zero (f : PheromoneField.t) (rate : R) :
  PheromoneField.wf f ->
  / 2 ^ 52 <= rate < 1 ->
  (PheromoneField.nonneg (PheromoneField.home f) ->
   PheromoneField.nonneg (PheromoneField.food f) ->
   PheromoneField.nonneg (PheromoneField.pathSuccess f) ->
   forall i j : Z,
     (0 <= i < PheromoneField.gridW f)%Z -> (0 <= j < PheromoneField.gridH f)%Z ->
     PheromoneField.get (PheromoneField.home (PheromoneField.evaporate f rate)) i j
       <= PheromoneField.get (PheromoneField.home f) i j
     /\ PheromoneField.get (PheromoneField.food (PheromoneField.evaporate f rate)) i j
          <= PheromoneField.get (PheromoneField.food f) i j
     /\ PheromoneField.get (PheromoneField.pathSuccess (PheromoneField.evaporate f rate)) i j
          <= PheromoneField.get (PheromoneField.pathSuccess f) i j)
  /\
  (exists N : nat, forall n : nat, (N <= n)%nat ->
   forall i j : Z,
     (0 <= i < PheromoneField.gridW f)%Z -> (0 <= j < PheromoneField.gridH f)%Z ->
     PheromoneField.get (PheromoneField.home (PheromoneField.evaporations n rate f)) i j = 0
     /\ PheromoneField.get (PheromoneField.food (PheromoneField.evaporations n rate f)) i j = 0
     /\ PheromoneField.get
          (PheromoneField.pathSuccess (PheromoneField.evaporations n rate f)) i j = 0).
Proof.
  intros Hwf Hr.
  assert (Heps : 0 < / 2 ^ 52) by (apply Rinv_0_lt_compat, pow_lt; lra).
  assert (Hk1 : 0 < 1 - rate < 1) by lra.
  assert (Hk2 : 0 < 1 - rate * 0.3 < 1) by lra.
  split.
  - intros Hh Hf Hp i j Hi Hj.
    destruct (evaporate_cells f rate i j Hwf Hi Hj) as (-> & -> & ->).
    repeat split; apply evap_le; trivial.
  - destruct (grid_bound (PheromoneField.home f)) as [Bh HBh].
    destruct (grid_bound (PheromoneField.food f)) as [Bf HBf].
    destruct (grid_bound (PheromoneField.pathSuccess f)) as [Bp HBp].
    destruct (evap_reaches_zero (1 - rate) Hk1 Bh) as [Nh HNh].
    destruct (evap_reaches_zero (1 - rate) Hk1 Bf) as [Nf HNf].
    destruct (evap_reaches_zero (1 - rate * 0.3) Hk2 Bp) as [Np HNp].
    exists (Nh + Nf + Np)%nat. intros n Hn i j Hi Hj.
    destruct (evaporations_cells n rate f i j Hwf Hi Hj) as (-> & -> & ->).
    repeat split; [apply HNh | apply HNf | apply HNp]; trivial; lia.
Qed.

Lemma nonneg_set (g : list (list R)) (x y : Z) (v : R) :
  PheromoneField.nonneg g -> 0 <= v -> PheromoneField.nonneg (PheromoneField.set g x y v).
Proof.
  intros Hg Hv i j.
  destruct (get_set_cases g x y v i j) as [-> | ->]; [exact Hv | apply Hg].
Qed.

(** A deposit of a non-negative amount with a non-negative bonus leaves no
    negative cell in a field that has none. *)
Lemma deposit_nonneg (f : PheromoneField.t) (pos : Vec.t) (type : string)
    (amt successBonus : R) :
  PheromoneField.bounded f ->
  0 <= amt -> 0 <= successBonus ->
  PheromoneField.nonneg (PheromoneField.home f) ->
  PheromoneField.nonneg (PheromoneField.food f) ->
  PheromoneField.nonneg (PheromoneField.pathSuccess f) ->
  PheromoneField.nonneg (PheromoneField.home (PheromoneField.deposit f pos type amt successBonus))
  /\ PheromoneField.nonneg (PheromoneField.food (PheromoneField.deposit f pos type amt successBonus))
  /\ PheromoneField.nonneg
       (PheromoneField.pathSuccess (PheromoneField.deposit f pos type amt successBonus)).
Proof.
  intros Hb Ha Hs Hh Hf Hp. rewrite deposit_eq by exact Hb.
  destruct (PheromoneField.index f pos) as [gx gy].
  assert (Hprod : 0 <= amt * successBonus) by nra.
  unfold PheromoneField.with_pathSuccess, PheromoneField.with_channel,
    PheromoneField.channel.
  destruct (String.eqb type "home"); simpl; (split; [|split]); trivial;
    apply nonneg_set; trivial.
  - apply Rmin_glb; [specialize (Hh gx gy)|]; lra.
  - specialize (Hp gx gy). lra.
  - apply Rmin_glb; [specialize (Hf gx gy)|]; lra.
  - specialize (Hp gx gy). lra.
Qed.

Lemma constructor_nonneg (w h c : R) :
  PheromoneField.nonneg (PheromoneField.home (PheromoneField.constructor w h c))
  /\ PheromoneField.nonneg (PheromoneField.food (PheromoneField.constructor w h c))
  /\ PheromoneField.nonneg (PheromoneField.pathSuccess (PheromoneField.constructor w h c)).
Proof.
  unfold PheromoneField.nonneg, PheromoneField.constructor. simpl.
  repeat split; intros i j; rewrite get_zeros; lra.
Qed.

(** The field of one cell after a deposit of 12 units, at the rate 0.01 of
    the simulation. *)
Lemma evaporate_decreases_to_zero_witness :
  let f := PheromoneField.deposit Sample.field1 (Vec.new 3 3) "home" 12 1 in
  (forall i j : Z,
     (0 <= i < PheromoneField.gridW f)%Z -> (0 <= j < PheromoneField.gridH f)%Z ->
     PheromoneField.get (PheromoneField.home (PheromoneField.evaporate f 0.01)) i j
       <= PheromoneField.get (PheromoneField.home f) i j)
  /\
  (exists N : nat, forall n : nat, (N <= n)%nat ->
   forall i j : Z,
     (0 <= i < PheromoneField.gridW f)%Z -> (0 <= j < PheromoneField.gridH f)%Z ->
     PheromoneField.get (PheromoneField.home (PheromoneField.evaporations n 0.01 f)) i j = 0).
Proof.
  intros f.
  assert (Hwf : PheromoneField.wf f).
  { apply deposit_wf; [apply constructor_wf; lra | apply constructor_bounded]. }
  assert (Hr : / 2 ^ 52 <= 0.01 < 1).
  { assert (H52 : 2 ^ 52 = 4503599627370496) by (simpl; lra). rewrite H52. lra. }
  destruct (constructor_nonneg 6 6 6) as (Hh0 & Hf0 & Hp0).
  destruct (deposit_nonneg Sample.field1 (Vec.new 3 3) "home" 12 1
              (constructor_bounded 6 6 6)) as (Hh & Hf & Hp); trivial; try lra.
  destruct (evaporate_decreases_to_zero f 0.01 Hwf Hr) as [Hle [N HN]].
  split.
  - intros i j Hi Hj. now apply (Hle Hh Hf Hp i j Hi Hj).
  - exists N. intros n Hn i j Hi Hj. now apply (HN n Hn i j Hi Hj).
Defined.

(** ** Obstacles *)

Lemma closestOnSeg_point (a p : Vec.t) : closestOnSeg a a p = None.
Proof.
  unfold closestOnSeg. cbv zeta.
  destruct (Req_dec_T _ 0) as [_|Hne]; [reflexivity|].
  exfalso. apply Hne. unfold Vec.subtract. simpl. ring.
Qed.

Lemma closestOnSeg_edge (a b p : Vec.t) :
  a <> b -> exists cp : Vec.t, closestOnSeg a b p = Some cp.
Proof.
  intros Hab. unfold closestOnSeg. cbv zeta.
  destruct (Req_dec_T _ 0) as [Hz|_]; [|eauto].
  exfalso. apply Hab. unfold Vec.subtract in Hz. simpl in Hz.
  destruct a as [ax ay], b as [bx by_]. simpl in Hz.
  destruct (Rplus_sqr_eq_0 (bx - ax) (by_ - ay) Hz) as [Hx Hy].
  f_equal; lra.
Qed.

Section Repulse.

Variables (o : Obstacle.t) (p : Vec.t).

Let found := Obstacle.found p.
Let started := Obstacle.started p.

Lemma nearer_found (st : Obstacle.distance * option Vec.t) (i : nat) :
  found st -> found (Obstacle.nearer o p st i).
Proof.
  intros Hst. unfold Obstacle.nearer.
  destruct (Obstacle.blob o !! i) as [a|]; [|exact Hst].
  destruct (Obstacle.blob o !! _) as [b|]; [|exact Hst].
  destruct (closestOnSeg a b p) as [cp|]; [|exact Hst].
  cbv zeta. destruct (Obstacle.below _ _); [now exists cp | exact Hst].
Qed.

Lemma nearer_edge (st : Obstacle.distance * option Vec.t) (i : nat) (a b : Vec.t) :
  started st ->
  Obstacle.blob o !! i = Some a ->
  Obstacle.blob o !! ((i + 1) mod length (Obstacle.blob o))%nat = Some b ->
  a <> b ->
  found (Obstacle.nearer o p st i).
Proof.
  intros Hst Ha Hb Hab. unfold Obstacle.nearer. rewrite Ha, Hb.
  destruct (closestOnSeg_edge a b p Hab) as [cp ->]. cbv zeta.
  destruct Hst as [-> | Hf].
  - simpl. now exists cp.
  - destruct (Obstacle.below _ _); [now exists cp | exact Hf].
Qed.

Lemma nearer_started (l : list nat) : forall st,
  started st -> started (foldl (Obstacle.nearer o p) st l).
Proof.
  induction l as [|i l IH]; intros st Hst; [exact Hst|].
  simpl. apply IH. destruct Hst as [-> | Hf].
  - unfold Obstacle.nearer.
    destruct (Obstacle.blob o !! i) as [a|]; [|now left].
    destruct (Obstacle.blob o !! _) as [b|]; [|now left].
    destruct (closestOnSeg a b p) as [cp|]; [|now left].
    simpl. right. now exists cp.
  - right. now apply nearer_found.
Qed.

Lemma nearer_stays_found (l : list nat) : forall st,
  found st -> found (foldl (Obstacle.nearer o p) st l).
Proof.
  induction l as [|i l IH]; intros st Hst; [exact Hst|].
  simpl. apply IH. now apply nearer_found.
Qed.

(** With an edge of two different points the loop ends with a closest
    point. *)
Lemma loop_found :
  Obstacle.has_edge o ->
  found (foldl (Obstacle.nearer o p) (Obstacle.Infinity, None)
           (seq 0 (length (Obstacle.blob o)))).
Proof.
  intros (i & a & b & Ha & Hb & Hab).
  assert (Hi : i ∈ seq 0 (length (Obstacle.blob o))).
  { apply elem_of_seq. apply lookup_lt_Some in Ha. lia. }
  apply list_elem_of_split in Hi as (l1 & l2 & ->).
  rewrite foldl_app. simpl. apply nearer_stays_found.
  eapply nearer_edge; eauto.
  apply nearer_started. now left.
Qed.

End Repulse.

(** With radius 0, [makeBlob] puts every vertex at the centre. *)
Lemma makeBlob_collapsed (cx cy irregularity : R) (points : Z) (rnd : nat -> R) :
  makeBlob cx cy 0 irregularity points rnd
  = replicate (Z.to_nat (Z.max 3 points)) (Vec.new cx cy).
Proof.
  unfold makeBlob. cbv zeta.
  generalize (IZR (Z.max 3 points)) as n, 0%nat as start.
  induction (Z.to_nat (Z.max 3 points)) as [|k IH]; intros n start; [reflexivity|].
  simpl. rewrite IH. f_equal. f_equal; ring.
Qed.

(** On a polygon whose vertices are all at one point, no edge has a closest
    point: the loop of [repulse] leaves its state as it was. *)
Lemma nearer_collapsed (o : Obstacle.t) (c p : Vec.t) (n : nat)
    (st : Obstacle.distance * option Vec.t) (i : nat) :
  Obstacle.blob o = replicate n c -> Obstacle.nearer o p st i = st.
Proof.
  intros Hblob. unfold Obstacle.nearer. rewrite Hblob.
  destruct (replicate n c !! i) as [a|] eqn:Ha; [|reflexivity].
  destruct (replicate n c !! ((i + 1) mod length (replicate n c))%nat)
    as [b|] eqn:Hb; [|reflexivity].
  apply lookup_replicate in Ha as [-> _]. apply lookup_replicate in Hb as [-> _].
  now rewrite closestOnSeg_point.
Qed.

Lemma repulse_all_collapsed (o : Obstacle.t) (c p : Vec.t) (n : nat) (rnd : R) :
  Obstacle.blob o = replicate n c ->
  Obstacle.repulse o p rnd = Obstacle.result (Vec.new 0 0) Obstacle.Infinity.
Proof.
  intros Hblob. unfold Obstacle.repulse.
  destruct (Obstacle.blob o) as [|v0 vs] eqn:Hb; [reflexivity|].
  rewrite <- Hb.
  assert (Hloop : forall l st, foldl (Obstacle.nearer o p) st l = st).
  { induction l as [|i l IH]; intros st; [reflexivity|].
    simpl. rewrite (nearer_collapsed o c p n) by congruence. apply IH. }
  now rewrite Hloop.
Qed.

(** C9, as stated, fails: the polygon of 18 vertices that [makeBlob] builds
    for the radius 0 has no closest point, and [repulse] answers the zero
    vector at an infinite distance. *)
Lemma repulse_collapsed :
  (3 <= length (Obstacle.blob Sample.collapsed))%nat
  /\ Obstacle.repulse Sample.collapsed (Vec.new 1 0) 0
     = Obstacle.result (Vec.new 0 0) Obstacle.Infinity
  /\ ~ (exists d : R,
          Obstacle.dist (Obstacle.repulse Sample.collapsed (Vec.new 1 0) 0)
            = Obstacle.Finite d
          /\ 0 <= d
          /\ Vec.magnitude (Obstacle.vec (Obstacle.repulse Sample.collapsed (Vec.new 1 0) 0))
             = 1).
Proof.
  assert (Hblob : Obstacle.blob Sample.collapsed = replicate 18 (Vec.new 0 0)).
  { unfold Sample.collapsed. simpl Obstacle.blob. now rewrite makeBlob_collapsed. }
  assert (He : Obstacle.repulse Sample.collapsed (Vec.new 1 0) 0
               = Obstacle.result (Vec.new 0 0) Obstacle.Infinity)
    by exact (repulse_all_collapsed _ _ _ _ _ Hblob).
  split; [rewrite Hblob; simpl; lia|]. split; [exact He|].
  rewrite He. simpl. intros (d & Hd & _). discriminate Hd.
Qed.

(** C9, amended: for an obstacle whose polygon has at least three vertices
    and an edge between two different points, at every position [repulse]
    answers a direction of magnitude 1 and a distance that is a number and
    not negative. *)
Theorem repulse_unit_direction (o : Obstacle.t) (p : Vec.t) (rnd : R) :
  (3 <= length (Obstacle.blob o))%nat ->
  Obstacle.has_edge o ->
  exists d : R,
    Obstacle.dist (Obstacle.repulse o p rnd) = Obstacle.Finite d
    /\ 0 <= d
    /\ Vec.magnitude (Obstacle.vec (Obstacle.repulse o p rnd)) = 1.
Proof.
  intros Hlen Hedge. unfold Obstacle.repulse.
  destruct (Obstacle.blob o) as [|v0 vs] eqn:Hblob; [simpl in Hlen; lia|].
  rewrite <- Hblob.
  destruct (loop_found o p Hedge) as [c ->]. cbv zeta.
  cmp (Rltb (Vec.magnitude (Vec.subtract p c)) 0.1).
  - cmp (Rgtb (Vec.magnitude (Vec.subtract p (Obstacle.pos o))) 0.1); simpl.
    + exists 0. repeat split; [lra|]. apply normalize_unit. lra.
    + exists 0. repeat split; [lra|]. apply random_unit.
  - simpl. exists (Vec.magnitude (Vec.subtract p c)).
    repeat split; [apply magnitude_nonneg|]. apply normalize_unit. lra.
Qed.

(** The triangle, asked at its vertex (0, 0). *)
Lemma repulse_unit_direction_witness :
  exists d : R,
    Obstacle.dist (Obstacle.repulse Sample.triangle (Vec.new 0 0) 0) = Obstacle.Finite d
    /\ 0 <= d
    /\ Vec.magnitude (Obstacle.vec (Obstacle.repulse Sample.triangle (Vec.new 0 0) 0)) = 1.
Proof.
  apply (repulse_unit_direction Sample.triangle (Vec.new 0 0) 0).
  - simpl. lia.
  - exists 0%nat, (Vec.new 0 0), (Vec.new 10 0).
    repeat split. intros H. injection H. lra.
Defined.

(** * Further properties of the code *)

(** ** The closest point of a segment *)

Lemma magnitude_le (u v : Vec.t) :
  Vec.x u * Vec.x u + Vec.y u * Vec.y u <= Vec.x v * Vec.x v + Vec.y v * Vec.y v ->
  Vec.magnitude u <= Vec.magnitude v.
Proof. intros H. unfold Vec.magnitude. apply sqrt_le_1; nra. Qed.

Lemma closestOnSeg_min (a b p : Vec.t) :
  a <> b ->
  exists (cp : Vec.t) (tt : R),
    closestOnSeg a b p = Some cp
    /\ 0 <= tt <= 1
    /\ cp = along a b tt
    /\ forall s : R, 0 <= s <= 1 ->
         Vec.magnitude (Vec.subtract p cp)
         <= Vec.magnitude (Vec.subtract p (along a b s)).
Proof.
  intros Hab. unfold closestOnSeg. cbv zeta.
  destruct (Req_dec_T _ 0) as [Hz|Hden].
  { exfalso. apply Hab. unfold Vec.subtract in Hz. simpl in Hz.
    destruct a as [ax ay], b as [bx by_]. simpl in Hz.
    destruct (Rplus_sqr_eq_0 (bx - ax) (by_ - ay) Hz) as [Hx Hy]. f_equal; lra. }
  destruct a as [ax ay], b as [bx by_], p as [px py].
  unfold Vec.subtract, along in *. simpl in *.
  set (dx := bx - ax) in *. set (dy := by_ - ay) in *.
  set (den := dx * dx + dy * dy) in *.
  set (t := ((px - ax) * dx + (py - ay) * dy) / den).
  assert (Hpos : 0 < den).
  { assert (H0 : 0 <= den) by (unfold den; nra).
    destruct (Rle_lt_or_eq_dec _ _ H0) as [Hlt|Heq]; [exact Hlt|].
    exfalso. apply Hden. now symmetry. }
  assert (Ht : t * den = (px - ax) * dx + (py - ay) * dy).
  { unfold t. field. lra. }
  exists (Vec.new (ax + dx * Rmax 0 (Rmin 1 t)) (ay + dy * Rmax 0 (Rmin 1 t))),
         (Rmax 0 (Rmin 1 t)).
  assert (Htt : 0 <= Rmax 0 (Rmin 1 t) <= 1).
  { split; [apply Rmax_l|]. apply Rmax_lub; [lra | apply Rmin_l]. }
  repeat split; try apply Htt.
  intros s Hs. apply magnitude_le. simpl.
  set (tt := Rmax 0 (Rmin 1 t)) in *.
  assert (Hcase : (s - tt) * (s + tt - 2 * t) >= 0).
  { destruct (Rle_dec t 0) as [Hlo|Hlo]; [|destruct (Rle_dec 1 t) as [Hhi|Hhi]].
    - assert (Hv : tt = 0).
      { unfold tt. rewrite Rmin_right by lra. apply Rmax_left. lra. }
      rewrite Hv. apply Rle_ge.
      replace ((s - 0) * (s + 0 - 2 * t)) with (s * (s - 2 * t)) by ring.
      apply Rmult_le_pos; lra.
    - assert (Hv : tt = 1).
      { unfold tt. rewrite Rmin_left by lra. apply Rmax_right. lra. }
      rewrite Hv. apply Rle_ge.
      replace ((s - 1) * (s + 1 - 2 * t)) with ((1 - s) * (2 * t - s - 1)) by ring.
      apply Rmult_le_pos; lra.
    - assert (Hv : tt = t).
      { unfold tt. rewrite Rmin_right by lra. apply Rmax_right. lra. }
      rewrite Hv. apply Rle_ge.
      replace ((s - t) * (s + t - 2 * t)) with ((s - t) * (s - t)) by ring.
      apply Rle_0_sqr. }
  assert (Hdiff :
    (px - (ax + dx * s)) * (px - (ax + dx * s))
    + (py - (ay + dy * s)) * (py - (ay + dy * s))
    - ((px - (ax + dx * tt)) * (px - (ax + dx * tt))
       + (py - (ay + dy * tt)) * (py - (ay + dy * tt)))
    = den * ((s - tt) * (s + tt - 2 * t))).
  { replace (den * ((s - tt) * (s + tt - 2 * t)))
      with (den * (s * s - tt * tt) - 2 * (t * den) * (s - tt)) by ring.
    rewrite Ht. unfold den. ring. }
  assert (0 <= den * ((s - tt) * (s + tt - 2 * t))) by (apply Rmult_le_pos; lra).
  lra.
Qed.

(** X1: on a segment between two different points, [closestOnSeg] answers a
    point of the segment, and no point of the segment is closer to [p]. *)
Theorem closestOnSeg_nearest (a b p : Vec.t) :
  a <> b ->
  exists (cp : Vec.t) (tt : R),
    closestOnSeg a b p = Some cp
    /\ 0 <= tt <= 1
    /\ cp = along a b tt
    /\ forall s : R, 0 <= s <= 1 ->
         Vec.magnitude (Vec.subtract p cp)
         <= Vec.magnitude (Vec.subtract p (along a b s)).
Proof. apply closestOnSeg_min. Qed.

(** The edge from (0, 0) to (10, 0), asked from (3, 4). *)
Lemma closestOnSeg_nearest_witness :
  exists (cp : Vec.t) (tt : R),
    closestOnSeg (Vec.new 0 0) (Vec.new 10 0) (Vec.new 3 4) = Some cp
    /\ 0 <= tt <= 1
    /\ cp = along (Vec.new 0 0) (Vec.new 10 0) tt
    /\ forall s : R, 0 <= s <= 1 ->
         Vec.magnitude (Vec.subtract (Vec.new 3 4) cp)
         <= Vec.magnitude (Vec.subtract (Vec.new 3 4) (along (Vec.new 0 0) (Vec.new 10 0) s)).
Proof.
  apply (closestOnSeg_nearest (Vec.new 0 0) (Vec.new 10 0) (Vec.new 3 4)).
  intros H. injection H. lra.
Defined.

(** ** The distance to an obstacle *)

Section RepulseNearest.

Variables (o : Obstacle.t) (p : Vec.t).

Lemma nearer_edge_point (st : Obstacle.distance * option Vec.t) (i : nat) :
  Obstacle.nearer o p st i =
    match Obstacle.edge_point o p i with
    | Some cp =>
        if Obstacle.below (Vec.magnitude (Vec.subtract p cp)) (fst st)
        then (Obstacle.Finite (Vec.magnitude (Vec.subtract p cp)), Some cp)
        else st
    | None => st
    end.
Proof.
  unfold Obstacle.nearer, Obstacle.edge_point.
  destruct (Obstacle.blob o !! i) as [a|]; [|reflexivity].
  destruct (Obstacle.blob o !! ((i + 1) mod length (Obstacle.blob o))%nat) as [b|];
    reflexivity.
Qed.

Lemma nearer_atmost_self (st : Obstacle.distance * option Vec.t) (i : nat) (cp : Vec.t) :
  Obstacle.started p st -> Obstacle.edge_point o p i = Some cp ->
  Obstacle.atmost p cp (Obstacle.nearer o p st i).
Proof.
  intros Hst Hcp. rewrite nearer_edge_point, Hcp.
  destruct Hst as [-> | [c ->]]; simpl.
  - exists (Vec.magnitude (Vec.subtract p cp)), cp. split; [reflexivity|lra].
  - cmp (Rltb (Vec.magnitude (Vec.subtract p cp)) (Vec.magnitude (Vec.subtract p c))).
    + exists (Vec.magnitude (Vec.subtract p cp)), cp. split; [reflexivity|lra].
    + exists (Vec.magnitude (Vec.subtract p c)), c. split; [reflexivity|lra].
Qed.

Lemma nearer_atmost_keeps (st : Obstacle.distance * option Vec.t) (i : nat) (q : Vec.t) :
  Obstacle.atmost p q st -> Obstacle.atmost p q (Obstacle.nearer o p st i).
Proof.
  intros (d & c & -> & Hd). rewrite nearer_edge_point.
  destruct (Obstacle.edge_point o p i) as [cp|]; [|now exists d, c]. simpl.
  cmp (Rltb (Vec.magnitude (Vec.subtract p cp)) d).
  - exists (Vec.magnitude (Vec.subtract p cp)), cp. split; [reflexivity|lra].
  - now exists d, c.
Qed.

Lemma loop_atmost_keeps (l : list nat) (q : Vec.t) : forall st,
  Obstacle.atmost p q st -> Obstacle.atmost p q (foldl (Obstacle.nearer o p) st l).
Proof.
  induction l as [|i l IH]; intros st Hst; [exact Hst|].
  simpl. apply IH. now apply nearer_atmost_keeps.
Qed.

(** After the loop the distance kept is at most the distance to the closest
    point of every edge it went through. *)
Lemma loop_atmost (l : list nat) (i : nat) (cp : Vec.t) : forall st,
  Obstacle.started p st -> i ∈ l -> Obstacle.edge_point o p i = Some cp ->
  Obstacle.atmost p cp (foldl (Obstacle.nearer o p) st l).
Proof.
  induction l as [|j l IH]; intros st Hst Hin Hcp; [inversion Hin|].
  simpl. apply elem_of_cons in Hin as [->|Hin].
  - apply loop_atmost_keeps. now apply nearer_atmost_self.
  - apply IH; trivial.
    change (Obstacle.nearer o p st j) with (foldl (Obstacle.nearer o p) st [j]).
    now apply nearer_started.
Qed.

Lemma loop_from_edge (l : list nat) : forall st,
  Obstacle.from_edge o p st -> Obstacle.from_edge o p (foldl (Obstacle.nearer o p) st l).
Proof.
  induction l as [|i l IH]; intros st Hst; [exact Hst|].
  simpl. apply IH. rewrite nearer_edge_point.
  destruct (Obstacle.edge_point o p i) as [cp|] eqn:Hcp; [|exact Hst].
  destruct (Obstacle.below _ _); [|exact Hst].
  intros c Hc. simpl in Hc. injection Hc as <-. now exists i.
Qed.

Lemma edge_point_in_range (i : nat) (cp : Vec.t) :
  Obstacle.edge_point o p i = Some cp -> i ∈ seq 0 (length (Obstacle.blob o)).
Proof.
  unfold Obstacle.edge_point. intros H.
  destruct (Obstacle.blob o !! i) as [a|] eqn:Ha; [|discriminate].
  apply elem_of_seq. apply lookup_lt_Some in Ha. lia.
Qed.

End RepulseNearest.

(** X2: on a polygon with an edge between two different points, [repulse]
    has found the point [c] of the boundary closest to the position: [c] is
    the closest point of an edge and no edge has a point closer.  At 0.1 or
    more from it the answer is the direction from [c] to the position and the
    exact distance; closer than 0.1 the distance answered is 0. *)
Theorem repulse_nearest_boundary (o : Obstacle.t) (p : Vec.t) (rnd : R) :
  Obstacle.has_edge o ->
  exists c : Vec.t,
    (exists i : nat, Obstacle.edge_point o p i = Some c)
    /\ (forall (i : nat) (a b : Vec.t) (s : R),
          Obstacle.blob o !! i = Some a ->
          Obstacle.blob o !! ((i + 1) mod length (Obstacle.blob o))%nat = Some b ->
          a <> b -> 0 <= s <= 1 ->
          Vec.magnitude (Vec.subtract p c)
          <= Vec.magnitude (Vec.subtract p (along a b s)))
    /\ (0.1 <= Vec.magnitude (Vec.subtract p c) ->
          Obstacle.repulse o p rnd
          = Obstacle.result (Vec.normalize (Vec.subtract p c))
              (Obstacle.Finite (Vec.magnitude (Vec.subtract p c))))
    /\ (Vec.magnitude (Vec.subtract p c) < 0.1 ->
          Obstacle.dist (Obstacle.repulse o p rnd) = Obstacle.Finite 0).
Proof.
  intros Hedge.
  pose proof (loop_found o p Hedge) as [c Hloop].
  assert (Hfrom : Obstacle.from_edge o p
            (foldl (Obstacle.nearer o p) (Obstacle.Infinity, None)
               (seq 0 (length (Obstacle.blob o))))).
  { apply loop_from_edge. intros c' Hc'. discriminate Hc'. }
  exists c. split; [|split; [|split]].
  - apply Hfrom. now rewrite Hloop.
  - intros i a b s Ha Hb Hab Hs.
    destruct (closestOnSeg_min a b p Hab) as (cp & tt & Hcp & _ & _ & Hmin).
    assert (Hep : Obstacle.edge_point o p i = Some cp).
    { unfold Obstacle.edge_point. now rewrite Ha, Hb. }
    pose proof (loop_atmost o p _ i cp (Obstacle.Infinity, None)
                  (or_introl eq_refl) (edge_point_in_range o p i cp Hep) Hep)
      as (d & c' & Hst & Hd).
    rewrite Hloop in Hst. injection Hst as <- <-.
    specialize (Hmin s Hs). lra.
  - intros Hfar. unfold Obstacle.repulse.
    destruct (Obstacle.blob o) as [|v0 vs] eqn:Hblob.
    { destruct Hedge as (i & a & b & Ha & _). rewrite Hblob in Ha. discriminate Ha. }
    rewrite <- Hblob in Hloop |- *. rewrite Hloop. cbv zeta.
    cmp (Rltb (Vec.magnitude (Vec.subtract p c)) 0.1); [lra | reflexivity].
  - intros Hnear. unfold Obstacle.repulse.
    destruct (Obstacle.blob o) as [|v0 vs] eqn:Hblob.
    { destruct Hedge as (i & a & b & Ha & _). rewrite Hblob in Ha. discriminate Ha. }
    rewrite <- Hblob in Hloop |- *. rewrite Hloop. cbv zeta.
    cmp (Rltb (Vec.magnitude (Vec.subtract p c)) 0.1); [|lra].
    now destruct (Rgtb _ _).
Qed.

(** The triangle, asked from its vertex (0, 0). *)
Lemma repulse_nearest_boundary_witness :
  exists c : Vec.t,
    (exists i : nat, Obstacle.edge_point Sample.triangle (Vec.new 0 0) i = Some c)
    /\ (Vec.magnitude (Vec.subtract (Vec.new 0 0) c) < 0.1 ->
          Obstacle.dist (Obstacle.repulse Sample.triangle (Vec.new 0 0) 0)
          = Obstacle.Finite 0).
Proof.
  destruct (repulse_nearest_boundary Sample.triangle (Vec.new 0 0) 0)
    as (c & Hc & _ & _ & Hnear).
  - exists 0%nat, (Vec.new 0 0), (Vec.new 10 0).
    repeat split. intros H. injection H. lra.
  - exists c. split; [exact Hc | exact Hnear].
Defined.

(** ** Blobs *)

Lemma lookup_map_seq {A : Type} (f : nat -> A) (n : nat) : forall start i : nat,
  (i < n)%nat -> map f (seq start n) !! i = Some (f (start + i)%nat).
Proof.
  induction n as [|n IH]; intros start i Hi; [lia|].
  destruct i as [|i]; simpl.
  - now rewrite Nat.add_0_r.
  - rewrite IH by lia. f_equal. f_equal. lia.
Qed.

Lemma magnitude_polar (theta rho : R) :
  0 <= rho -> Vec.magnitude (Vec.new (cos theta * rho) (sin theta * rho)) = rho.
Proof.
  intros Hrho. unfold Vec.magnitude. simpl.
  replace (cos theta * rho * (cos theta * rho) + sin theta * rho * (sin theta * rho))
    with ((Rsqr (sin theta) + Rsqr (cos theta)) * (rho * rho))
    by (unfold Rsqr; ring).
  rewrite sin2_cos2, Rmult_1_l. now apply sqrt_square.
Qed.

Lemma makeBlob_shape (cx cy r irregularity : R) (points : Z) (rnd : nat -> R) :
  0 <= r -> 0 <= irregularity <= 1 ->
  (forall i : nat, 0 <= rnd i <= 1) ->
  length (makeBlob cx cy r irregularity points rnd) = Z.to_nat (Z.max 3 points)
  /\ (3 <= length (makeBlob cx cy r irregularity points rnd))%nat
  /\ Forall (fun v : Vec.t =>
               r * (1 - irregularity)
               <= Vec.magnitude (Vec.subtract v (Vec.new cx cy))
               <= r * (1 + irregularity))
            (makeBlob cx cy r irregularity points rnd).
Proof.
  intros Hr Hirr Hrnd. unfold makeBlob. cbv zeta.
  rewrite length_map, length_seq.
  split; [reflexivity|]. split; [lia|].
  apply Forall_map, Forall_forall. intros i _.
  unfold Vec.subtract. simpl.
  set (theta := INR i / IZR (Z.max 3 points) * PI * 2).
  set (rho := r * (1 + (rnd i * 2 - 1) * irregularity)).
  replace (cx + cos theta * rho - cx) with (cos theta * rho) by ring.
  replace (cy + sin theta * rho - cy) with (sin theta * rho) by ring.
  specialize (Hrnd i).
  assert (Hv : 1 - irregularity <= 1 + (rnd i * 2 - 1) * irregularity <= 1 + irregularity)
    by nra.
  assert (Hrho : 0 <= rho) by (unfold rho; apply Rmult_le_pos; lra).
  rewrite magnitude_polar by exact Hrho. unfold rho. split; nra.
Qed.

(** X3: [makeBlob] answers [max(3, points)] vertices, and for a radius that
    is not negative, an irregularity between 0 and 1 and random values
    between 0 and 1 every vertex lies between [r * (1 - irregularity)] and
    [r * (1 + irregularity)] from the centre. *)
Theorem makeBlob_ring (cx cy r irregularity : R) (points : Z) (rnd : nat -> R) :
  0 <= r -> 0 <= irregularity <= 1 ->
  (forall i : nat, 0 <= rnd i <= 1) ->
  length (makeBlob cx cy r irregularity points rnd) = Z.to_nat (Z.max 3 points)
  /\ (3 <= length (makeBlob cx cy r irregularity points rnd))%nat
  /\ Forall (fun v : Vec.t =>
               r * (1 - irregularity)
               <= Vec.magnitude (Vec.subtract v (Vec.new cx cy))
               <= r * (1 + irregularity))
            (makeBlob cx cy r irregularity points rnd).
Proof. apply makeBlob_shape. Qed.

(** The blob of an obstacle of radius 30 at the origin. *)
Lemma makeBlob_ring_witness :
  length (makeBlob 0 0 30 0.2 18 (fun _ => 0.5)) = 18%nat
  /\ Forall (fun v : Vec.t =>
               30 * (1 - 0.2) <= Vec.magnitude (Vec.subtract v (Vec.new 0 0))
               <= 30 * (1 + 0.2))
            (makeBlob 0 0 30 0.2 18 (fun _ => 0.5)).
Proof.
  destruct (makeBlob_ring 0 0 30 0.2 18 (fun _ => 0.5)) as (Hlen & _ & Hall);
    [lra | lra | intros _; lra |].
  split; [exact Hlen | exact Hall].
Defined.

(** For a positive radius and an irregularity below 1 the first two
    vertices of a blob differ. *)
Lemma makeBlob_first_edge (cx cy r irregularity : R) (points : Z) (rnd : nat -> R) :
  0 < r -> 0 <= irregularity < 1 ->
  (forall i : nat, 0 <= rnd i <= 1) ->
  exists a b : Vec.t,
    makeBlob cx cy r irregularity points rnd !! 0%nat = Some a
    /\ makeBlob cx cy r irregularity points rnd !! 1%nat = Some b
    /\ a <> b.
Proof.
  intros Hr Hirr Hrnd. unfold makeBlob. cbv zeta.
  set (n := Z.max 3 points).
  assert (Hn : (3 <= n)%Z) by (unfold n; lia).
  rewrite !lookup_map_seq by lia. simpl Nat.add.
  eexists _, _. split; [reflexivity|]. split; [reflexivity|].
  intros Heq. injection Heq as _ Hy.
  assert (Hn3 : 3 <= IZR n) by (apply IZR_le in Hn; exact Hn).
  replace (0 / IZR n * PI * 2) with 0 in Hy by (unfold Rdiv; ring).
  rewrite sin_0 in Hy.
  set (theta := 1 / IZR n * PI * 2) in Hy.
  pose proof PI_RGT_0 as Hpi.
  assert (Hinv : 0 < / IZR n <= / 3).
  { split; [apply Rinv_0_lt_compat; lra|]. apply Rinv_le_contravar; lra. }
  assert (Hth : 0 < theta < PI).
  { unfold theta. unfold Rdiv. rewrite Rmult_1_l. split; [nra|].
    assert (/ IZR n * PI <= / 3 * PI) by (apply Rmult_le_compat_r; lra). lra. }
  pose proof (sin_gt_0 theta (proj1 Hth) (proj2 Hth)) as Hsin.
  pose proof (Hrnd 1%nat) as H1.
  assert (Hv : 0 < r * (1 + (rnd 1%nat * 2 - 1) * irregularity))
    by (apply Rmult_lt_0_compat; nra).
  assert (Hprod : 0 < sin theta * (r * (1 + (rnd 1%nat * 2 - 1) * irregularity)))
    by (apply Rmult_lt_0_compat; assumption).
  lra.
Qed.

(** With an edge between two different points, [repulse] answers a
    direction of magnitude 1 and a distance that is a number. *)
Lemma repulse_answer (o : Obstacle.t) (p : Vec.t) (rnd : R) :
  Obstacle.has_edge o ->
  exists d : R,
    Obstacle.dist (Obstacle.repulse o p rnd) = Obstacle.Finite d
    /\ 0 <= d
    /\ Vec.magnitude (Obstacle.vec (Obstacle.repulse o p rnd)) = 1.
Proof.
  intros Hedge. unfold Obstacle.repulse.
  destruct (Obstacle.blob o) as [|v0 vs] eqn:Hblob.
  { destruct Hedge as (i & a & b & Ha & _). rewrite Hblob in Ha. discriminate Ha. }
  rewrite <- Hblob.
  destruct (loop_found o p Hedge) as [c ->]. cbv zeta.
  cmp (Rltb (Vec.magnitude (Vec.subtract p c)) 0.1).
  - cmp (Rgtb (Vec.magnitude (Vec.subtract p (Obstacle.pos o))) 0.1); simpl.
    + exists 0. repeat split; [lra|]. apply normalize_unit. lra.
    + exists 0. repeat split; [lra|]. apply random_unit.
  - simpl. exists (Vec.magnitude (Vec.subtract p c)).
    repeat split; [apply magnitude_nonneg|]. apply normalize_unit. lra.
Qed.

(** X4: an obstacle as [new Obstacle(x, y)] builds it, whatever the random
    values between 0 and 1, has a radius from 30 to 60 and 18 vertices that
    lie between 0.8 and 1.2 radii from its centre, and [repulse] answers at
    every position a direction of magnitude 1 and a distance that is a
    number and not negative. *)
Theorem constructed_obstacle (x y rb : R) (rnd : nat -> R) (p : Vec.t) (rnd' : R) :
  0 <= rb <= 1 ->
  (forall i : nat, 0 <= rnd i <= 1) ->
  let o := Obstacle.constructor x y rb rnd in
  30 <= Obstacle.baseRadius o <= 60
  /\ length (Obstacle.blob o) = 18%nat
  /\ Forall (fun v : Vec.t =>
               Obstacle.baseRadius o * 0.8
               <= Vec.magnitude (Vec.subtract v (Obstacle.pos o))
               <= Obstacle.baseRadius o * 1.2)
            (Obstacle.blob o)
  /\ exists d : R,
       Obstacle.dist (Obstacle.repulse o p rnd') = Obstacle.Finite d
       /\ 0 <= d
       /\ Vec.magnitude (Obstacle.vec (Obstacle.repulse o p rnd')) = 1.
Proof.
  intros Hrb Hrnd o.
  assert (HR : 30 <= 30 + rb * 30 <= 60) by lra.
  destruct (makeBlob_shape x y (30 + rb * 30) 0.2 18 rnd) as (Hlen & _ & Hall);
    [lra | lra | exact Hrnd |].
  split; [exact HR|]. split; [exact Hlen|]. split.
  - unfold o, Obstacle.constructor. simpl.
    eapply Forall_impl; [exact Hall|]. intros v Hv. simpl in Hv. lra.
  - apply repulse_answer.
    destruct (makeBlob_first_edge x y (30 + rb * 30) 0.2 18 rnd)
      as (a & b & Ha & Hb & Hab); [lra | lra | exact Hrnd |].
    exists 0%nat, a, b. unfold o, Obstacle.constructor. simpl Obstacle.blob.
    rewrite Hlen. repeat split; assumption.
Qed.

(** An obstacle at (100, 100), asked from its centre. *)
Lemma constructed_obstacle_witness :
  let o := Obstacle.constructor 100 100 0.5 (fun _ => 0.5) in
  exists d : R,
    Obstacle.dist (Obstacle.repulse o (Vec.new 100 100) 0) = Obstacle.Finite d
    /\ 0 <= d
    /\ Vec.magnitude (Obstacle.vec (Obstacle.repulse o (Vec.new 100 100) 0)) = 1.
Proof.
  intros o.
  destruct (constructed_obstacle 100 100 0.5 (fun _ => 0.5) (Vec.new 100 100) 0)
    as (_ & _ & _ & H); [lra | intros _; lra | exact H].
Defined.

(** ** More on the field *)

Section FieldOps.

Import PheromoneField.

Lemma get_off_dims (g : grid) (W H i j : Z) :
  dims g W H -> ~ ((0 <= i < W)%Z /\ (0 <= j < H)%Z) -> get g i j = 0.
Proof.
  intros [Hlen Hcols] Hout.
  destruct (on_or_off_grid i j) as [[Hi Hj]|Hoff];
    [|exact (proj1 (off_grid g i j 0 Hoff))].
  rewrite get_at by assumption.
  destruct (g !! Z.to_nat i) as [col|] eqn:Hcol; simpl; [|reflexivity].
  destruct (col !! Z.to_nat j) as [c|] eqn:Hc; simpl; [|reflexivity].
  exfalso. apply Hout.
  apply lookup_lt_Some in Hcol as Hi'. apply lookup_lt_Some in Hc.
  rewrite Forall_lookup in Hcols. rewrite (Hcols _ _ Hcol) in Hc. lia.
Qed.

Lemma in_range_dec (W H i j : Z) :
  ((0 <= i < W)%Z /\ (0 <= j < H)%Z) \/ ~ ((0 <= i < W)%Z /\ (0 <= j < H)%Z).
Proof. lia. Qed.

(** The loops of [clear] are three sweeps that write 0. *)
Lemma clear_rows (x : Z) (ys : list Z) : forall f : t,
  foldl (fun f y => clear_cell f x y) f ys
  = mk (cell f) (gridW f) (gridH f)
      (foldl (fun g y => set g x y 0) (home f) ys)
      (foldl (fun g y => set g x y 0) (food f) ys)
      (foldl (fun g y => set g x y 0) (pathSuccess f) ys).
Proof.
  induction ys as [|y ys IH]; intros f; simpl.
  - now destruct f.
  - now rewrite IH.
Qed.

Lemma clear_columns (H : Z) (xs : list Z) : forall f : t,
  gridH f = H ->
  foldl (fun f x => foldl (fun f y => clear_cell f x y) f (seqZ 0 (gridH f))) f xs
  = mk (cell f) (gridW f) (gridH f)
      (foldl (fun g x => foldl (fun g y => set g x y 0) g (seqZ 0 H)) (home f) xs)
      (foldl (fun g x => foldl (fun g y => set g x y 0) g (seqZ 0 H)) (food f) xs)
      (foldl (fun g x => foldl (fun g y => set g x y 0) g (seqZ 0 H)) (pathSuccess f) xs).
Proof.
  induction xs as [|x xs IH]; intros f HH; simpl.
  - now destruct f.
  - rewrite clear_rows, IH by (simpl; exact HH). simpl. now rewrite HH.
Qed.

Lemma clear_sweep (f : t) :
  clear f
  = mk (cell f) (gridW f) (gridH f)
      (sweep (fun g x y => set g x y 0) (gridW f) (gridH f) (home f))
      (sweep (fun g x y => set g x y 0) (gridW f) (gridH f) (food f))
      (sweep (fun g x y => set g x y 0) (gridW f) (gridH f) (pathSuccess f)).
Proof. unfold clear, sweep. now apply clear_columns. Qed.

End FieldOps.

Section FieldInvariants.

Import PheromoneField.

Lemma clear_cells (f : t) :
  wf f ->
  wf (clear f)
  /\ same_shape f (clear f)
  /\ forall i j : Z,
       get (home (clear f)) i j = 0
       /\ get (food (clear f)) i j = 0
       /\ get (pathSuccess (clear f)) i j = 0.
Proof.
  intros (Hcell & HW & HH & Hh & Hf & Hp). rewrite clear_sweep.
  assert (Hop : forall (g : grid) (x y : Z),
             dims g (gridW f) (gridH f) -> (0 <= x < gridW f)%Z -> (0 <= y < gridH f)%Z ->
             set g x y 0 = upd g x y (fun _ => 0)) by reflexivity.
  destruct (sweep_all _ _ _ _ Hop _ Hh) as [Hdh Hgh].
  destruct (sweep_all _ _ _ _ Hop _ Hf) as [Hdf Hgf].
  destruct (sweep_all _ _ _ _ Hop _ Hp) as [Hdp Hgp].
  split; [unfold wf; simpl; tauto|]. split; [now repeat split|].
  intros i j. simpl.
  destruct (in_range_dec (gridW f) (gridH f) i j) as [[Hi Hj]|Hout].
  - rewrite Hgh, Hgf, Hgp by assumption. now repeat split.
  - rewrite !(get_off_dims _ (gridW f) (gridH f)) by assumption. now repeat split.
Qed.

(** X5: [clear] keeps the shape of the field and leaves 0 in every cell of
    the three grids. *)
Theorem clear_zeroes (f : t) :
  wf f ->
  wf (clear f)
  /\ same_shape f (clear f)
  /\ forall i j : Z,
       get (home (clear f)) i j = 0
       /\ get (food (clear f)) i j = 0
       /\ get (pathSuccess (clear f)) i j = 0.
Proof. apply clear_cells. Qed.

(** The field of three by three cells after a deposit. *)
Lemma clear_zeroes_witness :
  get (home (clear (deposit Sample.field3 (Vec.new 9 9) "home" 10 1))) 1 1 = 0.
Proof.
  assert (Hwf : wf (deposit Sample.field3 (Vec.new 9 9) "home" 10 1)).
  { apply deposit_wf; [apply constructor_wf; lra | apply constructor_bounded]. }
  exact (proj1 (proj2 (proj2 (clear_zeroes _ Hwf)) 1%Z 1%Z)).
Defined.

(** After one [evaporate] a cell holds [evap] of its value, or 0 outside the
    grid. *)
Lemma evaporate_get (f : t) (rate : R) (i j : Z) :
  wf f ->
  (get (home (evaporate f rate)) i j = evap (1 - rate) (get (home f) i j)
   \/ get (home (evaporate f rate)) i j = 0)
  /\ (get (food (evaporate f rate)) i j = evap (1 - rate) (get (food f) i j)
      \/ get (food (evaporate f rate)) i j = 0)
  /\ (get (pathSuccess (evaporate f rate)) i j
        = evap (1 - rate * 0.3) (get (pathSuccess f) i j)
      \/ get (pathSuccess (evaporate f rate)) i j = 0).
Proof.
  intros Hwf.
  destruct (in_range_dec (gridW f) (gridH f) i j) as [[Hi Hj]|Hout].
  - destruct (evaporate_cells f rate i j Hwf Hi Hj) as (-> & -> & ->). tauto.
  - destruct (evaporate_wf f rate Hwf) as (_ & _ & _ & Hh & Hf & Hp).
    rewrite evaporate_sweep in Hh, Hf, Hp. simpl in Hh, Hf, Hp.
    rewrite evaporate_sweep. simpl.
    rewrite (get_off_dims _ _ _ i j Hh Hout), (get_off_dims _ _ _ i j Hf Hout),
      (get_off_dims _ _ _ i j Hp Hout).
    repeat split; now right.
Qed.

Lemma evap_floor (k v : R) : evap k v = 0 \/ 0.01 <= evap k v.
Proof. unfold evap. cmp (Rltb (v * k) 0.01); [now left | now right]. Qed.

(** X6: after [evaporate], whatever the rate, no cell of the three grids
    holds a value strictly between 0 and 0.01, nor a negative one. *)
Theorem evaporate_snaps (f : t) (rate : R) (i j : Z) :
  wf f ->
  (get (home (evaporate f rate)) i j = 0 \/ 0.01 <= get (home (evaporate f rate)) i j)
  /\ (get (food (evaporate f rate)) i j = 0 \/ 0.01 <= get (food (evaporate f rate)) i j)
  /\ (get (pathSuccess (evaporate f rate)) i j = 0
      \/ 0.01 <= get (pathSuccess (evaporate f rate)) i j).
Proof.
  intros Hwf.
  destruct (evaporate_get f rate i j Hwf) as ([-> | ->] & [-> | ->] & [-> | ->]);
    repeat split; try (now left); apply evap_floor.
Qed.

(** The field of one cell after a deposit of 12 units, at the rate 0.01. *)
Lemma evaporate_snaps_witness :
  let f := evaporate (deposit Sample.field1 (Vec.new 3 3) "home" 12 1) 0.01 in
  get (home f) 0 0 = 0 \/ 0.01 <= get (home f) 0 0.
Proof.
  intros f.
  assert (Hwf : wf (deposit Sample.field1 (Vec.new 3 3) "home" 12 1)).
  { apply deposit_wf; [apply constructor_wf; lra | apply constructor_bounded]. }
  exact (proj1 (evaporate_snaps _ 0.01 0 0 Hwf)).
Defined.

Lemma evap_in_bounds (k v M : R) :
  0 <= k <= 1 -> 0 <= M -> v <= M -> 0 <= evap k v <= M.
Proof.
  intros Hk HM Hv. unfold evap. cmp (Rltb (v * k) 0.01); [lra|].
  split; [lra|]. assert (0 <= v) by nra. nra.
Qed.

Lemma evaporate_in_bounds (f : t) (rate : R) :
  wf f -> 0 <= rate <= 1 -> in_bounds f -> in_bounds (evaporate f rate).
Proof.
  intros Hwf Hr ((Hbh & Hbf) & Hnh & Hnf & Hnp).
  assert (Hk1 : 0 <= 1 - rate <= 1) by lra.
  assert (Hk2 : 0 <= 1 - rate * 0.3 <= 1) by lra.
  assert (Hpt : forall i j : Z,
             0 <= get (home (evaporate f rate)) i j <= 1000
             /\ 0 <= get (food (evaporate f rate)) i j <= 1000
             /\ 0 <= get (pathSuccess (evaporate f rate)) i j).
  { intros i j.
    destruct (evaporate_get f rate i j Hwf) as ([E1 | E1] & [E2 | E2] & [E3 | E3]);
      rewrite E1, E2, E3;
      pose proof (evap_in_bounds (1 - rate) _ 1000 Hk1 ltac:(lra) (Hbh i j));
      pose proof (evap_in_bounds (1 - rate) _ 1000 Hk1 ltac:(lra) (Hbf i j));
      pose proof (evap_floor (1 - rate * 0.3) (get (pathSuccess f) i j));
      repeat split; lra. }
  unfold in_bounds, bounded, below, nonneg.
  repeat split; intros i j; destruct (Hpt i j) as (H1 & H2 & H3); lra.
Qed.

End FieldInvariants.

Section Reinforce.

Import PheromoneField.

Variable strength : R.

Lemma reinforcePath_cons (f : t) (pos : Vec.t) (l : list Vec.t) :
  reinforcePath f (pos :: l) strength
  = reinforcePath (reinforce_point strength f pos) l strength.
Proof. reflexivity. Qed.

(** What one point of the path keeps. *)
Lemma reinforce_point_keeps (f : t) (pos : Vec.t) :
  wf f ->
  wf (reinforce_point strength f pos)
  /\ same_shape f (reinforce_point strength f pos)
  /\ home (reinforce_point strength f pos) = home f
  /\ food (reinforce_point strength f pos) = food f
  /\ (0 <= strength -> nonneg (pathSuccess f) ->
      nonneg (pathSuccess (reinforce_point strength f pos)))
  /\ (0 <= strength -> below (pathSuccess f) 100 ->
      below (pathSuccess (reinforce_point strength f pos)) 100
      /\ forall i j : Z,
           get (pathSuccess f) i j <= get (pathSuccess (reinforce_point strength f pos)) i j).
Proof.
  intros Hwf. unfold reinforce_point. destruct (index f pos) as [gx gy].
  destruct ((0 <=? gx)%Z && (gx <? gridW f)%Z && (0 <=? gy)%Z && (gy <? gridH f)%Z)
    eqn:Hguard.
  - apply andb_true_iff in Hguard as [Hguard Hgy2].
    apply andb_true_iff in Hguard as [Hguard Hgy1].
    apply andb_true_iff in Hguard as [Hgx1 Hgx2].
    apply Z.leb_le in Hgx1, Hgy1. apply Z.ltb_lt in Hgx2, Hgy2.
    destruct Hwf as (Hc & HW & HH & Hh & Hf & Hp).
    split; [unfold wf; simpl; split; [|split; [|split; [|split; [|split]]]];
            trivial; now apply dims_set|].
    split; [split; [|split]; reflexivity|].
    split; [reflexivity|]. split; [reflexivity|].
    split.
    + intros Hs Hn. simpl. apply nonneg_set; [exact Hn|].
      apply Rmin_glb; [specialize (Hn gx gy)|]; lra.
    + intros Hs Hb. simpl. split; [apply below_set; [exact Hb | apply Rmin_r]|].
      intros i j. pose proof (Hb i j) as Hij. pose proof (Hb gx gy) as Hg.
      destruct (on_or_off_grid gx gy) as [[Hx Hy]|Hoff];
        [|rewrite (proj2 (off_grid _ gx gy _ Hoff)); lra].
      destruct (on_or_off_grid i j) as [[Hi Hj]|Hoff];
        [|rewrite !(proj1 (off_grid _ i j 0 Hoff)); lra].
      destruct (decide ((i, j) = (gx, gy))) as [Heq|Hne].
      * injection Heq as -> ->.
        rewrite (get_set_eq _ _ _ _ _ _ Hp) by lia. apply Rmin_glb; lra.
      * rewrite get_set_ne by assumption. lra.
  - split; [exact Hwf|]. split; [split; [|split]; reflexivity|].
    split; [reflexivity|]. split; [reflexivity|]. split; [tauto|].
    intros _ Hb. split; [exact Hb|]. intros i j. lra.
Qed.

(** What [reinforcePath] keeps, point after point. *)
Lemma reinforcePath_keeps (pathPoints : list Vec.t) : forall f : t,
  wf f ->
  wf (reinforcePath f pathPoints strength)
  /\ same_shape f (reinforcePath f pathPoints strength)
  /\ home (reinforcePath f pathPoints strength) = home f
  /\ food (reinforcePath f pathPoints strength) = food f
  /\ (0 <= strength -> nonneg (pathSuccess f) ->
      nonneg (pathSuccess (reinforcePath f pathPoints strength)))
  /\ (0 <= strength -> below (pathSuccess f) 100 ->
      forall i j : Z,
        get (pathSuccess f) i j
        <= get (pathSuccess (reinforcePath f pathPoints strength)) i j).
Proof.
  induction pathPoints as [|pos l IH]; intros f Hwf.
  - split; [exact Hwf|]. split; [split; [|split]; reflexivity|].
    split; [reflexivity|]. split; [reflexivity|]. split; [tauto|].
    intros _ _ i j. simpl. lra.
  - rewrite reinforcePath_cons.
    destruct (reinforce_point_keeps f pos Hwf) as (Hwf1 & Hs1 & Hh1 & Hf1 & Hn1 & Hm1).
    destruct (IH _ Hwf1) as (Hwf2 & Hs2 & Hh2 & Hf2 & Hn2 & Hm2).
    split; [exact Hwf2|]. split; [eapply same_shape_trans; eassumption|].
    split; [congruence|]. split; [congruence|]. split.
    + intros Hs Hn. apply Hn2; [exact Hs|]. now apply Hn1.
    + intros Hs Hb i j. destruct (Hm1 Hs Hb) as [Hb1 Hle1].
      specialize (Hm2 Hs Hb1 i j). specialize (Hle1 i j). lra.
Qed.

End Reinforce.

(** X7: [reinforcePath] leaves the home and food grids and the shape of the
    field as they are; it keeps the success grid at most 100 when it was,
    and with a strength that is not negative it lowers no cell of it. *)
Theorem reinforcePath_touches_success_only (f : PheromoneField.t)
    (pathPoints : list Vec.t) (strength : R) :
  PheromoneField.wf f ->
  let f' := PheromoneField.reinforcePath f pathPoints strength in
  PheromoneField.wf f'
  /\ PheromoneField.home f' = PheromoneField.home f
  /\ PheromoneField.food f' = PheromoneField.food f
  /\ (PheromoneField.below (PheromoneField.pathSuccess f) 100 ->
      PheromoneField.below (PheromoneField.pathSuccess f') 100)
  /\ (0 <= strength ->
      PheromoneField.below (PheromoneField.pathSuccess f) 100 ->
      forall i j : Z,
        PheromoneField.get (PheromoneField.pathSuccess f) i j
        <= PheromoneField.get (PheromoneField.pathSuccess f') i j).
Proof.
  intros Hwf f'.
  destruct (reinforcePath_keeps strength pathPoints f Hwf)
    as (Hwf' & _ & Hh & Hf & _ & Hm).
  split; [exact Hwf'|]. split; [exact Hh|]. split; [exact Hf|].
  split; [apply reinforcePath_below | exact Hm].
Qed.

(** The middle cell of the field of three by three cells, reinforced twice. *)
Lemma reinforcePath_touches_success_only_witness :
  let f' := PheromoneField.reinforcePath Sample.field3 [Vec.new 9 9; Vec.new 9 9] 3 in
  PheromoneField.home f' = PheromoneField.home Sample.field3
  /\ PheromoneField.food f' = PheromoneField.food Sample.field3.
Proof.
  intros f'.
  destruct (reinforcePath_touches_success_only Sample.field3
              [Vec.new 9 9; Vec.new 9 9] 3) as (_ & Hh & Hf & _).
  - apply constructor_wf. lra.
  - split; [exact Hh | exact Hf].
Defined.

Section Run.

Import PheromoneField.

Lemma apply_keeps (f : t) (o : op) :
  wf f -> in_bounds f -> sensible o ->
  wf (apply f o) /\ in_bounds (apply f o).
Proof.
  intros Hwf Hin Hs. destruct o as [pos type amt sb | rate | pts s |]; simpl in *.
  - destruct Hin as (Hb & Hnh & Hnf & Hnp). destruct Hs as [Ha Hsb].
    split; [now apply deposit_wf|].
    split; [now apply deposit_bounded|]. now apply deposit_nonneg.
  - split; [now apply evaporate_wf | now apply evaporate_in_bounds].
  - destruct (reinforcePath_keeps s pts f Hwf) as (Hwf' & _ & Hh & Hf & Hn & _).
    destruct Hin as ((Hbh & Hbf) & Hnh & Hnf & Hnp).
    split; [exact Hwf'|]. unfold in_bounds, bounded. rewrite Hh, Hf.
    repeat split; trivial. now apply Hn.
  - destruct (clear_cells f Hwf) as (Hwf' & _ & Hz).
    split; [exact Hwf'|].
    unfold in_bounds, bounded, below, nonneg.
    repeat split; intros i j; destruct (Hz i j) as (E1 & E2 & E3);
      rewrite ?E1, ?E2, ?E3; lra.
Qed.

Lemma run_keeps (l : list op) : forall f : t,
  wf f -> in_bounds f -> Forall sensible l ->
  wf (run l f) /\ in_bounds (run l f).
Proof.
  induction l as [|o l IH]; intros f Hwf Hin Hall; [now split|].
  apply Forall_cons in Hall as [Ho Hall].
  destruct (apply_keeps f o Hwf Hin Ho) as [Hwf1 Hin1].
  simpl. now apply IH.
Qed.

End Run.

(** X8: from a new field of positive cell size, after every sequence of
    deposits, evaporations, path reinforcements and clears whose amounts,
    bonuses and strengths are not negative and whose rates are from 0 to 1,
    the field keeps the shape of its grids, every cell of the home and food
    grids is within 0 and 1000, and no cell of the success grid is
    negative. *)
Theorem field_stays_in_bounds (w h c : R) (l : list PheromoneField.op) :
  0 < c ->
  Forall PheromoneField.sensible l ->
  let f := PheromoneField.run l (PheromoneField.constructor w h c) in
  PheromoneField.wf f
  /\ forall i j : Z,
       0 <= PheromoneField.get (PheromoneField.home f) i j <= 1000
       /\ 0 <= PheromoneField.get (PheromoneField.food f) i j <= 1000
       /\ 0 <= PheromoneField.get (PheromoneField.pathSuccess f) i j.
Proof.
  intros Hc Hall f.
  destruct (constructor_nonneg w h c) as (Hnh & Hnf & Hnp).
  destruct (run_keeps l (PheromoneField.constructor w h c)
              (constructor_wf w h c Hc)
              (conj (constructor_bounded w h c) (conj Hnh (conj Hnf Hnp))) Hall)
    as (Hwf & (Hbh & Hbf) & Hh & Hf & Hp).
  split; [exact Hwf|]. intros i j.
  specialize (Hbh i j). specialize (Hbf i j).
  specialize (Hh i j). specialize (Hf i j). specialize (Hp i j).
  fold f in Hbh, Hbf, Hh, Hf, Hp. lra.
Qed.

(** A tick of two ants and one evaporation on the field of three by three
    cells. *)
Lemma field_stays_in_bounds_witness :
  let f :=
    PheromoneField.run
      [PheromoneField.Deposit (Vec.new 9 9) "home" 6 1;
       PheromoneField.Deposit (Vec.new 3 3) "food" 12 3;
       PheromoneField.Reinforce [Vec.new 9 9] 3;
       PheromoneField.Evaporate 0.01]
      (PheromoneField.constructor 18 18 6) in
  0 <= PheromoneField.get (PheromoneField.home f) 1 1 <= 1000
  /\ 0 <= PheromoneField.get (PheromoneField.food f) 1 1 <= 1000
  /\ 0 <= PheromoneField.get (PheromoneField.pathSuccess f) 1 1.
Proof.
  intros f.
  refine (proj2 (field_stays_in_bounds 18 18 6 _ _ _) 1%Z 1%Z); [lra|].
  apply Forall_cons_2; [simpl; lra|].
  apply Forall_cons_2; [simpl; lra|].
  apply Forall_cons_2; [simpl; lra|].
  apply Forall_cons_2; [simpl; lra|].
  apply Forall_nil_2.
Defined.

(** ** Sampling *)

Section Sampling.

Import PheromoneField.

Lemma deposit_other_channel (f : t) (pos : Vec.t) (type ty : string)
    (amt successBonus : R) :
  bounded f ->
  String.eqb ty "home" <> String.eqb type "home" ->
  channel (deposit f pos type amt successBonus) ty = channel f ty.
Proof.
  intros Hb Hne. rewrite deposit_eq by exact Hb.
  destruct (index f pos) as [gx gy].
  unfold with_pathSuccess, with_channel, channel in *.
  destruct (String.eqb type "home"), (String.eqb ty "home"); simpl;
    congruence.
Qed.

Lemma channel_elsewhere (f : t) (pos : Vec.t) (type ty : string)
    (amt successBonus : R) (i j : Z) :
  wf f -> bounded f -> (0 <= i)%Z -> (0 <= j)%Z -> (i, j) <> index f pos ->
  get (channel (deposit f pos type amt successBonus) ty) i j = get (channel f ty) i j.
Proof.
  intros Hwf Hb Hi Hj Hne.
  destruct (deposit_elsewhere f pos type amt successBonus Hwf Hb i j Hi Hj Hne)
    as [Hh Hf].
  unfold channel. now destruct (String.eqb ty "home").
Qed.

(** X9: what [deposit] writes, [sample] reads back: at the position of the
    deposit the channel holds its old value plus [amt * successBonus], cut at
    1000; the other channel and every position of another cell read as
    before. *)
Theorem deposit_then_sample (f : t) (pos : Vec.t) (type : string)
    (amt successBonus : R) :
  wf f -> bounded f ->
  let f' := deposit f pos type amt successBonus in
  sample f' pos type = Rmin (sample f pos type + amt * successBonus) 1000
  /\ (forall (q : Vec.t) (ty : string),
        index f q <> index f pos -> sample f' q ty = sample f q ty)
  /\ (forall (q : Vec.t) (ty : string),
        String.eqb ty "home" <> String.eqb type "home" ->
        sample f' q ty = sample f q ty).
Proof.
  intros Hwf Hb f'. unfold sample, f'. split; [|split].
  - rewrite deposit_index.
    pose proof (deposit_primary f pos type amt successBonus Hwf Hb) as H.
    now destruct (index f pos) as [gx gy].
  - intros q ty Hne. rewrite deposit_index.
    destruct (index_range f q Hwf) as [Hx Hy].
    destruct (index f q) as [qx qy]. simpl in Hx, Hy.
    apply channel_elsewhere; trivial; lia.
  - intros q ty Hne. rewrite deposit_index.
    destruct (index f q) as [qx qy].
    now rewrite deposit_other_channel.
Qed.

(** A deposit of 10 units in the middle of the field of three by three
    cells, read back. *)
Lemma deposit_then_sample_witness :
  sample (deposit Sample.field3 (Vec.new 9 9) "home" 10 1) (Vec.new 9 9) "home"
  = Rmin (sample Sample.field3 (Vec.new 9 9) "home" + 10 * 1) 1000.
Proof.
  apply (deposit_then_sample Sample.field3 (Vec.new 9 9) "home" 10 1).
  - apply constructor_wf. lra.
  - apply constructor_bounded.
Defined.

(** X10: where every cell of the channel holds the same value, as in a new
    or a cleared field, [gradient] answers the zero vector at every
    position. *)
Theorem gradient_uniform (f : t) (pos : Vec.t) (type : string) (c : R) :
  wf f ->
  (forall i j : Z, (0 <= i < gridW f)%Z -> (0 <= j < gridH f)%Z ->
     get (channel f type) i j = c) ->
  gradient f pos type = Vec.new 0 0.
Proof.
  intros Hwf Hc.
  assert (Hs : forall q : Vec.t, sample f q type = c).
  { intros q. unfold sample. destruct (index_range f q Hwf) as [Hx Hy].
    destruct (index f q) as [qx qy]. simpl in Hx, Hy. now apply Hc. }
  unfold gradient, grad. cbv zeta. rewrite !Hs.
  replace ((c - c) * 0.5 + (c - c + c - c) * 0.25) with 0 by ring.
  rewrite magnitude_zero.
  cmp (Rgtb 0 0.1); [lra | reflexivity].
Qed.

(** A new field. *)
Lemma gradient_uniform_witness :
  gradient Sample.field3 (Vec.new 9 9) "food" = Vec.new 0 0.
Proof.
  apply (gradient_uniform Sample.field3 (Vec.new 9 9) "food" 0).
  - apply constructor_wf. lra.
  - intros i j _ _. unfold Sample.field3, constructor, channel. simpl.
    apply get_zeros.
Defined.

End Sampling.

(** ** The path of an ant *)

Lemma pushed_path (path : list Vec.t) (pos : Vec.t) :
  let pushed := path ++ [pos] in
  last (if (100 <? length pushed)%nat then tail pushed else pushed) = Some pos
  /\ ((length path <= 100)%nat ->
      (length (if (100 <? length pushed)%nat then tail pushed else pushed) <= 100)%nat).
Proof.
  cbv zeta. rewrite length_app. simpl length.
  destruct (Nat.ltb_spec 100 (length path + 1)) as [Hbig|Hsmall].
  - split; [|intros Hlen; rewrite length_tl, length_app; cbn [length]; lia].
    destruct path as [|p0 rest]; [cbn [length] in Hbig; lia|].
    cbn [app tail]. apply last_snoc.
  - split; [apply last_snoc | intros _; rewrite length_app; cbn [length]; lia].
Qed.

(** After tracking the path ends with a point at most 15 from the ant. *)
Lemma track_path_last (a : Ant.t) :
  exists q : Vec.t,
    last (Ant.path (Ant.track_path a)) = Some q
    /\ Vec.magnitude (Vec.subtract (Ant.position a) q) <= 15.
Proof.
  unfold Ant.track_path.
  destruct (pushed_path (Ant.path a) (Ant.position a)) as [Hlast _].
  destruct (last (Ant.path a)) as [q|] eqn:Hq.
  - cmp (Rgtb (Vec.magnitude (Vec.subtract (Ant.position a) q)) 15).
    + unfold Ant.with_path. cbn [Ant.path].
      exists (Ant.position a). split; [exact Hlast|].
      rewrite magnitude_self. lra.
    + exists q. split; [exact Hq | exact Hc].
  - unfold Ant.with_path. cbn [Ant.path].
    exists (Ant.position a). split; [exact Hlast|].
    rewrite magnitude_self. lra.
Qed.

Lemma track_path_length (a : Ant.t) :
  (length (Ant.path a) <= 100)%nat ->
  (length (Ant.path (Ant.track_path a)) <= 100)%nat.
Proof.
  intros Hlen. unfold Ant.track_path.
  destruct (pushed_path (Ant.path a) (Ant.position a)) as [_ Hpush].
  destruct (match last (Ant.path a) with Some _ => _ | None => _ end);
    [unfold Ant.with_path; cbn [Ant.path]; exact (Hpush Hlen) | exact Hlen].
Qed.

(** X11: tracking keeps the path at 100 points at most; after it the path
    is not empty and its last point is at most 15 from the ant. *)
Theorem track_path_bounded (a : Ant.t) :
  (length (Ant.path a) <= 100)%nat ->
  (length (Ant.path (Ant.track_path a)) <= 100)%nat
  /\ exists q : Vec.t,
       last (Ant.path (Ant.track_path a)) = Some q
       /\ Vec.magnitude (Vec.subtract (Ant.position a) q) <= 15.
Proof.
  intros Hlen. split; [now apply track_path_length | apply track_path_last].
Qed.

(** An ant that has not moved yet. *)
Lemma track_path_bounded_witness :
  (length (Ant.path (Ant.track_path (Sample.ant (Vec.new 1 0) false))) <= 100)%nat.
Proof.
  apply (track_path_bounded (Sample.ant (Vec.new 1 0) false)). simpl. lia.
Defined.

(** ** The walls *)

(** X12: in an arena of at least 20 by 20 the bounce leaves the ant at
    least 10 inside every wall; a new position that is already there is
    taken as it is, with the velocity unchanged. *)
Theorem bounce_keeps_inside (a : Ant.t) (newPos : Vec.t)
    (width height r1 r2 r3 r4 : R) :
  20 <= width -> 20 <= height ->
  let a' := Ant.bounce a newPos width height r1 r2 r3 r4 in
  10 <= Vec.x (Ant.position a') <= width - 10
  /\ 10 <= Vec.y (Ant.position a') <= height - 10
  /\ (10 <= Vec.x newPos <= width - 10 -> 10 <= Vec.y newPos <= height - 10 ->
      Ant.position a' = newPos /\ Ant.velocity a' = Ant.velocity a).
Proof.
  intros Hw Hh. unfold Ant.bounce. cbv zeta.
  unfold Ant.with_position, Ant.with_velocity. simpl.
  destruct newPos as [px py]. simpl.
  cmp (Rltb px 10); simpl;
    match goal with |- context [Rgtb ?u ?v] => cmp (Rgtb u v) end; simpl;
    match goal with |- context [Rltb ?u ?v] => cmp (Rltb u v) end; simpl;
    match goal with |- context [Rgtb ?u ?v] => cmp (Rgtb u v) end; simpl;
    simpl in *; repeat split; try lra; intros; first [reflexivity | exfalso; lra].
Qed.

(** An ant that steps over the left wall of an arena of 800 by 600. *)
Lemma bounce_keeps_inside_witness :
  let a' := Ant.bounce (Sample.ant (Vec.new (-3) 0) false) (Vec.new 8 300)
              800 600 0.5 0.5 0.5 0.5 in
  10 <= Vec.x (Ant.position a') <= 800 - 10.
Proof.
  intros a'.
  apply (bounce_keeps_inside (Sample.ant (Vec.new (-3) 0) false) (Vec.new 8 300)
           800 600 0.5 0.5 0.5 0.5); lra.
Defined.

(** ** Finding and taking food *)

Section Seeing.

Variables (p : Vec.t) (foodSources : list Food.t).

Lemma see_step (l : list nat) (k : nat) (st : option nat * Obstacle.distance) :
  Ant.seen p foodSources l st ->
  Ant.seen p foodSources (l ++ [k]) (Ant.see p foodSources st k).
Proof.
  intros Hst. unfold Ant.see.
  assert (Hskip : (forall fd, foodSources !! k = Some fd -> Food.isDepleted fd = false ->
                     match st with
                     | (_, Obstacle.Finite d) => d <= Ant.reach p fd
                     | (_, Obstacle.Infinity) => 200 <= Ant.reach p fd
                     end) ->
                  Ant.seen p foodSources (l ++ [k]) st).
  { intros Hk. destruct st as [[k0|] [d|]]; simpl in *; try tauto.
    - destruct Hst as (fd0 & H0 & Hd0 & Hd & H200 & Hmin).
      exists fd0. repeat split; trivial. intros k' fd' Hin Hl Hdep.
      apply elem_of_app in Hin as [Hin|Hin]; [now apply (Hmin k')|].
      apply list_elem_of_singleton in Hin as ->. now apply Hk.
    - intros k' fd' Hin Hl Hdep.
      apply elem_of_app in Hin as [Hin|Hin]; [now apply (Hst k')|].
      apply list_elem_of_singleton in Hin as ->. now apply Hk. }
  destruct (foodSources !! k) as [f|] eqn:Hf;
    [|apply Hskip; intros fd Hfd; discriminate Hfd].
  destruct (Food.isDepleted f) eqn:Hdep; simpl;
    [apply Hskip; intros fd Hfd; injection Hfd as <-; congruence|].
  fold (Ant.reach p f).
  destruct (Obstacle.below (Ant.reach p f) (snd st) && Rltb (Ant.reach p f) 200)
    eqn:Hcond.
  - apply andb_true_iff in Hcond as [Hbelow H200]. apply Rltb_true in H200.
    exists f. repeat split; trivial.
    intros k' fd' Hin Hl Hd'.
    apply elem_of_app in Hin as [Hin|Hin].
    + destruct st as [[k0|] [d|]]; simpl in *; try tauto.
      * destruct Hst as (fd0 & _ & _ & _ & _ & Hmin).
        apply Rltb_true in Hbelow. specialize (Hmin k' fd' Hin Hl Hd'). lra.
      * specialize (Hst k' fd' Hin Hl Hd'). lra.
    + apply list_elem_of_singleton in Hin as ->.
      rewrite Hf in Hl. injection Hl as <-. lra.
  - apply Hskip. intros fd Hfd _. injection Hfd as <-.
    apply andb_false_iff in Hcond.
    destruct st as [[k0|] [d|]]; simpl in *; try tauto.
    + destruct Hst as (fd0 & _ & _ & _ & H200 & _).
      destruct Hcond as [Hb|Hb]; apply Rltb_false in Hb; lra.
    + destruct Hcond as [Hb|Hb]; [discriminate Hb | now apply Rltb_false in Hb].
Qed.

Lemma see_loop (l : list nat) :
  Ant.seen p foodSources l (foldl (Ant.see p foodSources) (None, Obstacle.Infinity) l).
Proof.
  induction l as [|k l IH] using rev_ind.
  - simpl. intros k fd Hin. inversion Hin.
  - rewrite foldl_app. simpl. now apply see_step.
Qed.

Lemma nearestFood_seen :
  Ant.seen p foodSources (seq 0 (length foodSources))
    (foldl (Ant.see p foodSources) (None, Obstacle.Infinity)
       (seq 0 (length foodSources))).
Proof. apply see_loop. Qed.

Lemma index_in_seq (k : nat) (fd : Food.t) :
  foodSources !! k = Some fd -> k ∈ seq 0 (length foodSources).
Proof. intros H. apply elem_of_seq. apply lookup_lt_Some in H. lia. Qed.

(** What the search answers. *)
Lemma nearestFood_cases :
  (Ant.nearestFood p foodSources = None
   /\ forall (k : nat) (fd : Food.t),
        foodSources !! k = Some fd -> Food.isDepleted fd = false ->
        200 <= Ant.reach p fd)
  \/ (exists (k0 : nat) (fd0 : Food.t),
        Ant.nearestFood p foodSources = Some k0
        /\ foodSources !! k0 = Some fd0
        /\ Food.isDepleted fd0 = false
        /\ Ant.reach p fd0 < 200
        /\ forall (k : nat) (fd : Food.t),
             foodSources !! k = Some fd -> Food.isDepleted fd = false ->
             Ant.reach p fd0 <= Ant.reach p fd).
Proof.
  pose proof nearestFood_seen as H. unfold Ant.nearestFood.
  destruct (foldl _ _ _) as [[k0|] [d|]]; simpl in *; try tauto.
  - right. destruct H as (fd0 & H0 & Hd0 & -> & H200 & Hmin).
    exists k0, fd0. repeat split; trivial.
    intros k fd Hl Hd. apply (Hmin k); trivial. now apply (index_in_seq k fd).
  - left. split; [reflexivity|]. intros k fd Hl Hd.
    apply (H k); trivial. now apply (index_in_seq k fd).
Qed.

End Seeing.

(** X13: the search among the food sources answers the nearest of those
    that are not depleted when it is less than 200 away, and nothing when
    every food source that is not depleted is 200 away or more. *)
Theorem nearestFood_nearest (p : Vec.t) (foodSources : list Food.t) :
  (Ant.nearestFood p foodSources = None
   /\ forall (k : nat) (fd : Food.t),
        foodSources !! k = Some fd -> Food.isDepleted fd = false ->
        200 <= Ant.reach p fd)
  \/ (exists (k0 : nat) (fd0 : Food.t),
        Ant.nearestFood p foodSources = Some k0
        /\ foodSources !! k0 = Some fd0
        /\ Food.isDepleted fd0 = false
        /\ Ant.reach p fd0 < 200
        /\ forall (k : nat) (fd : Food.t),
             foodSources !! k = Some fd -> Food.isDepleted fd = false ->
             Ant.reach p fd0 <= Ant.reach p fd).
Proof. apply nearestFood_cases. Qed.

(** X14: the pickup branch changes nothing, or the ant stands inside the
    radius of the nearest food source in view, which has a unit left: then
    exactly that food source loses exactly one unit, the ant has food, an
    empty path and [lastFoodTime] set to the time of the pickup, and the
    home and food grids of the field are as before. *)
Theorem pickup_takes_one_unit (a : Ant.t) (foodSources : list Food.t)
    (nest : Nest.t) (field : PheromoneField.t) (now : R) :
  PheromoneField.wf field ->
  let '(a', foodSources', field') := Ant.pickup a foodSources nest field now in
  (a' = a /\ foodSources' = foodSources /\ field' = field)
  \/ (exists (k : nat) (fd : Food.t),
        Ant.nearestFood (Ant.position a) foodSources = Some k
        /\ foodSources !! k = Some fd
        /\ (0 < Food.amount fd)%Z
        /\ Food.inside fd (Ant.position a)
        /\ foodSources'
           = <[k := Food.mk (Food.pos fd) (Food.amount fd - 1) (Food.radius fd)
                      (Food.originalAmount fd)]> foodSources
        /\ Ant.hasFood a' = true
        /\ Ant.path a' = []
        /\ Ant.lastFoodTime a' = now
        /\ Ant.position a' = Ant.position a
        /\ PheromoneField.home field' = PheromoneField.home field
        /\ PheromoneField.food field' = PheromoneField.food field).
Proof.
  intros Hwf. unfold Ant.pickup.
  destruct (Ant.nearestFood (Ant.position a) foodSources) as [k|] eqn:Hk;
    [|now left].
  destruct (foodSources !! k) as [fd|] eqn:Hfd; [|now left].
  destruct (take_cases fd (Ant.position a)) as [[Hamt Hin]|Hno].
  - rewrite take_inside by assumption. right. exists k, fd.
    repeat split; trivial;
      destruct (3 <? length (Ant.path a))%nat; trivial;
      apply (reinforcePath_keeps 3 (Ant.path a) field Hwf).
  - rewrite take_refused by assumption. now left.
Qed.

(** An ant at the centre of a food source of radius 25 at the origin. *)
Lemma pickup_takes_one_unit_witness :
  let '(a', foodSources', field') :=
    Ant.pickup (Sample.ant (Vec.new 1 0) false) [Food.constructor 0 0 25]
      (Sample.nest 0 500) Sample.field1 10 in
  (a' = Sample.ant (Vec.new 1 0) false /\ foodSources' = [Food.constructor 0 0 25]
   /\ field' = Sample.field1)
  \/ (exists (k : nat) (fd : Food.t),
        Ant.nearestFood (Ant.position (Sample.ant (Vec.new 1 0) false))
          [Food.constructor 0 0 25] = Some k
        /\ [Food.constructor 0 0 25] !! k = Some fd
        /\ (0 < Food.amount fd)%Z
        /\ Food.inside fd (Ant.position (Sample.ant (Vec.new 1 0) false))
        /\ foodSources'
           = <[k := Food.mk (Food.pos fd) (Food.amount fd - 1) (Food.radius fd)
                      (Food.originalAmount fd)]> [Food.constructor 0 0 25]
        /\ Ant.hasFood a' = true
        /\ Ant.path a' = []
        /\ Ant.lastFoodTime a' = 10
        /\ Ant.position a' = Ant.position (Sample.ant (Vec.new 1 0) false)
        /\ PheromoneField.home field' = PheromoneField.home Sample.field1
        /\ PheromoneField.food field' = PheromoneField.food Sample.field1).
Proof.
  apply (pickup_takes_one_unit (Sample.ant (Vec.new 1 0) false)
           [Food.constructor 0 0 25] (Sample.nest 0 500) Sample.field1 10).
  apply constructor_wf. lra.
Defined.

(** ** The gain of a delivery *)

Lemma overallEfficiency_range (a : Ant.t) (now1 : R) :
  Ant.lastFoodTime a <= now1 ->
  0.5 <= Ant.overallEfficiency a now1 <= 1
  /\ (Ant.path a <> [] \/ Ant.lastFoodTime a < now1 -> Ant.overallEfficiency a now1 < 1)
  /\ (Ant.path a = [] -> Ant.lastFoodTime a = now1 -> Ant.overallEfficiency a now1 = 1).
Proof.
  intros Hnow. unfold Ant.overallEfficiency. cbv zeta.
  set (L := INR (length (Ant.path a))).
  assert (HL : 0 <= L) by apply pos_INR.
  set (de := Rmax 0.5 (1 - L * 2 / 1000)).
  set (te := Rmax 0.5 (1 - (now1 - Ant.lastFoodTime a) / 30000)).
  assert (Hde : 0.5 <= de <= 1).
  { unfold de. split; [apply Rmax_l|]. apply Rmax_lub; lra. }
  assert (Hte : 0.5 <= te <= 1).
  { unfold te. split; [apply Rmax_l|]. apply Rmax_lub; lra. }
  split; [lra|]. split.
  - intros [Hpath|Htime].
    + assert (H1 : 1 <= L).
      { unfold L. destruct (Ant.path a) as [|q rest]; [congruence|].
        simpl length. rewrite S_INR. pose proof (pos_INR (length rest)). lra. }
      assert (de < 1) by (unfold de; apply Rmax_lub_lt; lra). lra.
    + assert (te < 1) by (unfold te; apply Rmax_lub_lt; lra). lra.
  - intros Hpath Htime.
    assert (de = 1).
    { unfold de, L. rewrite Hpath. simpl.
      replace (1 - 0 * 2 / 1000) with 1 by lra. apply Rmax_right. lra. }
    assert (te = 1).
    { unfold te. rewrite Htime.
      replace (1 - (now1 - now1) / 30000) with 1 by lra. apply Rmax_right. lra. }
    lra.
Qed.

(** X15: for a delivery that is not earlier than the pickup, the efficiency
    is between 0.5 and 1 and the food gained is one unit, or two in the one
    case of an empty path and no time since the pickup; after [track_path],
    which [update] runs before the delivery, the gain is one unit. *)
Theorem delivery_gains_one_unit (a : Ant.t) (now1 : R) :
  Ant.lastFoodTime a <= now1 ->
  0.5 <= Ant.overallEfficiency a now1 <= 1
  /\ (Ant.foodGained a now1 = 1%Z \/ Ant.foodGained a now1 = 2%Z)
  /\ (Ant.foodGained a now1 = 2%Z <-> Ant.path a = [] /\ Ant.lastFoodTime a = now1)
  /\ Ant.foodGained (Ant.track_path a) now1 = 1%Z.
Proof.
  intros Hnow.
  destruct (overallEfficiency_range a now1 Hnow) as (Hrange & Hlt & Heq).
  assert (Hone : Ant.overallEfficiency a now1 < 1 -> Ant.foodGained a now1 = 1%Z).
  { intros H. unfold Ant.foodGained. apply Zfloor_eq. lra. }
  assert (Htwo : Ant.overallEfficiency a now1 = 1 -> Ant.foodGained a now1 = 2%Z).
  { intros H. unfold Ant.foodGained. rewrite H. apply Zfloor_eq. lra. }
  split; [exact Hrange|]. split; [|split].
  - destruct (Rle_lt_or_eq_dec _ _ (proj2 Hrange)) as [H|H]; [left | right]; auto.
  - split.
    + intros H2.
      assert (Hfull : ~ Ant.overallEfficiency a now1 < 1).
      { intros H. rewrite (Hone H) in H2. discriminate H2. }
      split.
      * destruct (Ant.path a) as [|q rest] eqn:Hpath; [reflexivity|].
        exfalso. apply Hfull, Hlt. left. discriminate.
      * destruct (Rle_lt_or_eq_dec _ _ Hnow) as [Ht|Ht]; [|exact Ht].
        exfalso. apply Hfull, Hlt. now right.
    + intros [Hpath Htime]. apply Htwo. now apply Heq.
  - assert (Hnow' : Ant.lastFoodTime (Ant.track_path a) <= now1).
    { unfold Ant.track_path.
      destruct (match last (Ant.path a) with Some _ => _ | None => _ end); exact Hnow. }
    destruct (overallEfficiency_range (Ant.track_path a) now1 Hnow') as (Hr' & Hlt' & _).
    unfold Ant.foodGained. apply Zfloor_eq.
    assert (Hne : Ant.path (Ant.track_path a) <> []).
    { destruct (track_path_last a) as (q & Hq & _).
      intros H. rewrite H in Hq. discriminate Hq. }
    specialize (Hlt' (or_introl Hne)). lra.
Qed.

(** A carrying ant whose path is empty, ten milliseconds after the pickup. *)
Lemma delivery_gains_one_unit_witness :
  Ant.foodGained (Sample.ant (Vec.new 1 0) true) 10 = 1%Z
  \/ Ant.foodGained (Sample.ant (Vec.new 1 0) true) 10 = 2%Z.
Proof.
  apply (delivery_gains_one_unit (Sample.ant (Vec.new 1 0) true) 10).
  simpl. lra.
Defined.

(** ** Speed and heading *)

Lemma magnitude_unit_scaled (theta s : R) :
  0 <= s ->
  Vec.magnitude (Vec.multiply (Vec.new (cos theta) (sin theta)) s) = s.
Proof.
  intros Hs. rewrite magnitude_multiply by exact Hs.
  replace (Vec.magnitude (Vec.new (cos theta) (sin theta))) with 1; [lra|].
  unfold Vec.magnitude. simpl.
  replace (cos theta * cos theta + sin theta * sin theta)
    with (Rsqr (sin theta) + Rsqr (cos theta)) by (unfold Rsqr; ring).
  rewrite sin2_cos2. now rewrite sqrt_1.
Qed.

Lemma normalize_unit_scaled (theta s : R) :
  0 < s ->
  Vec.normalize (Vec.multiply (Vec.new (cos theta) (sin theta)) s)
  = Vec.new (cos theta) (sin theta).
Proof.
  intros Hs. unfold Vec.normalize.
  rewrite magnitude_unit_scaled by lra.
  cmp (Rgtb s 0); [|lra].
  unfold Vec.divide, Vec.multiply. simpl. f_equal; field; lra.
Qed.

(** The step of the speed towards the target. *)
Lemma speed_step (cs T : R) :
  let s1 := cs + Ant.sign (T - cs) * Rmin (Rabs (T - cs)) 0.1 in
  Rabs (s1 - T) = Rmax 0 (Rabs (cs - T) - 0.1)
  /\ Rmin cs T <= s1 <= Rmax cs T.
Proof.
  cbv zeta. unfold Ant.sign.
  cmp (Rltb 0 (T - cs)); [|cmp (Rltb (T - cs) 0)].
  - rewrite (Rabs_right (T - cs)) by lra. rewrite (Rabs_left (cs - T)) by lra.
    rewrite (Rmin_left cs T), (Rmax_right cs T) by lra.
    destruct (Rle_dec (T - cs) 0.1).
    + rewrite (Rmin_left (T - cs) 0.1), Rmax_left by lra.
      replace (cs + 1 * (T - cs) - T) with 0 by ring. rewrite Rabs_R0. lra.
    + rewrite (Rmin_right (T - cs) 0.1), Rmax_right by lra.
      rewrite Rabs_left by lra. lra.
  - rewrite (Rabs_left (T - cs)) by lra. rewrite (Rabs_right (cs - T)) by lra.
    rewrite (Rmin_right cs T), (Rmax_left cs T) by lra.
    destruct (Rle_dec (- (T - cs)) 0.1).
    + rewrite (Rmin_left (- (T - cs)) 0.1), Rmax_left by lra.
      replace (cs + -1 * - (T - cs) - T) with 0 by ring. rewrite Rabs_R0. lra.
    + rewrite (Rmin_right (- (T - cs)) 0.1), Rmax_right by lra.
      rewrite Rabs_right by lra. lra.
  - assert (Heq : T = cs) by lra. subst T.
    replace (cs - cs) with 0 by ring. rewrite Rabs_R0.
    rewrite Rmin_left, Rmax_left by lra.
    replace (cs + 0 * 0 - cs) with 0 by ring. rewrite Rabs_R0.
    rewrite Rmin_left, Rmax_left by lra. lra.
Qed.

(** The speed update of an ant that moves faster than 0.1, in polar form. *)
Lemma update_speed_polar (a : Ant.t) (direction : Vec.t) :
  0.1 < Vec.magnitude (Ant.velocity a) ->
  0 <= Ant.maxSpeed a ->
  let cs := Vec.magnitude (Ant.velocity a) in
  let T := if Ant.hasFood a then 2.5 else 3.0 in
  let s1 := cs + Ant.sign (T - cs) * Rmin (Rabs (T - cs)) 0.1 in
  exists delta : R,
    (0 <= Ant.maxTurnRate a -> Rabs delta <= Ant.maxTurnRate a)
    /\ Ant.velocity (Ant.update_speed a direction)
       = Vec.multiply
           (Vec.new (cos (Vec.angle (Ant.velocity a) + delta))
                    (sin (Vec.angle (Ant.velocity a) + delta)))
           (Rmin s1 (Ant.maxSpeed a * 1.5)).
Proof.
  intros Hv Hm cs T s1.
  assert (HT : 2.5 <= T <= 3) by (unfold T; destruct (Ant.hasFood a); lra).
  destruct (speed_step cs T) as [_ Hbetween]. fold s1 in Hbetween.
  assert (Hs1 : 0 < s1).
  { assert (0.1 < Rmin cs T) by (apply Rmin_glb_lt; unfold cs; lra). lra. }
  unfold Ant.update_speed. cbv zeta. unfold Ant.with_velocity. cbn [Ant.velocity].
  cmp (Rgtb (Vec.magnitude (Ant.velocity a)) 0.1); [|lra].
  fold cs. fold T. fold s1.
  set (theta := Vec.angle (Ant.velocity a)).
  set (ad0 := Vec.angle direction - theta).
  set (ad1 := if Rgtb ad0 PI then ad0 - PI * 2 else ad0).
  set (ad2 := if Rltb ad1 (- PI) then ad1 + PI * 2 else ad1).
  set (delta := if Rgtb (Rabs ad2) (Ant.maxTurnRate a)
                then Ant.sign ad2 * Ant.maxTurnRate a else ad2).
  exists delta. split.
  - intros Hturn. unfold delta.
    cmp (Rgtb (Rabs ad2) (Ant.maxTurnRate a)); [|exact Hc0].
    unfold Ant.sign. cmp (Rltb 0 ad2); [|cmp (Rltb ad2 0)].
    + rewrite Rmult_1_l, Rabs_right; lra.
    + replace (-1 * Ant.maxTurnRate a) with (- Ant.maxTurnRate a) by ring.
      rewrite Rabs_Ropp, Rabs_right; lra.
    + rewrite Rmult_0_l, Rabs_R0. exact Hturn.
  - rewrite magnitude_unit_scaled by lra.
    cmp (Rgtb s1 (Ant.maxSpeed a * 1.5)).
    + rewrite normalize_unit_scaled by exact Hs1. now rewrite Rmin_right by lra.
    + now rewrite Rmin_left by lra.
Qed.

(** X16: the speed update turns an ant that moves faster than 0.1 by at
    most [maxTurnRate]: its new velocity points in the direction of its old
    heading plus an angle of at most [maxTurnRate]. *)
Theorem turn_within_rate (a : Ant.t) (direction : Vec.t) :
  0.1 < Vec.magnitude (Ant.velocity a) ->
  0 <= Ant.maxSpeed a ->
  0 <= Ant.maxTurnRate a ->
  exists delta : R,
    Rabs delta <= Ant.maxTurnRate a
    /\ Ant.velocity (Ant.update_speed a direction)
       = Vec.multiply
           (Vec.new (cos (Vec.angle (Ant.velocity a) + delta))
                    (sin (Vec.angle (Ant.velocity a) + delta)))
           (Vec.magnitude (Ant.velocity (Ant.update_speed a direction))).
Proof.
  intros Hv Hm Hturn.
  destruct (update_speed_polar a direction Hv Hm) as (delta & Hd & Hvel).
  exists delta. split; [now apply Hd|].
  rewrite Hvel at 2. rewrite magnitude_unit_scaled; [exact Hvel|].
  apply Rmin_glb; [|lra].
  destruct (speed_step (Vec.magnitude (Ant.velocity a))
              (if Ant.hasFood a then 2.5 else 3.0)) as [_ [Hlo _]].
  assert (0 <= Rmin (Vec.magnitude (Ant.velocity a)) (if Ant.hasFood a then 2.5 else 3.0)).
  { apply Rmin_glb; [lra|]. destruct (Ant.hasFood a); lra. }
  lra.
Qed.

(** An exploring ant that moves along the first axis at speed 2 and steers
    upwards. *)
Lemma turn_within_rate_witness :
  exists delta : R,
    Rabs delta <= 0.3
    /\ Ant.velocity (Ant.update_speed (Sample.ant (Vec.new 2 0) false) (Vec.new 0 1))
       = Vec.multiply
           (Vec.new (cos (Vec.angle (Vec.new 2 0) + delta))
                    (sin (Vec.angle (Vec.new 2 0) + delta)))
           (Vec.magnitude
              (Ant.velocity (Ant.update_speed (Sample.ant (Vec.new 2 0) false) (Vec.new 0 1)))).
Proof.
  apply (turn_within_rate (Sample.ant (Vec.new 2 0) false) (Vec.new 0 1)).
  - simpl. rewrite (magnitude_on_axis 2) by lra. lra.
  - simpl. lra.
  - simpl. lra.
Defined.

(** X17: the speed of an ant that moves faster than 0.1 gets 0.1 closer to
    the target speed (2.5 with food, 3 without), or reaches it, and is then
    cut at one and a half times [maxSpeed]. *)
Theorem speed_approaches_target (a : Ant.t) (direction : Vec.t) :
  0.1 < Vec.magnitude (Ant.velocity a) ->
  0 <= Ant.maxSpeed a ->
  let cs := Vec.magnitude (Ant.velocity a) in
  let T := if Ant.hasFood a then 2.5 else 3.0 in
  exists s1 : R,
    Rabs (s1 - T) = Rmax 0 (Rabs (cs - T) - 0.1)
    /\ Rmin cs T <= s1 <= Rmax cs T
    /\ Vec.magnitude (Ant.velocity (Ant.update_speed a direction))
       = Rmin s1 (Ant.maxSpeed a * 1.5).
Proof.
  intros Hv Hm cs T.
  destruct (update_speed_polar a direction Hv Hm) as (delta & _ & Hvel).
  destruct (speed_step cs T) as [Habs Hbetween].
  eexists. split; [exact Habs|]. split; [exact Hbetween|].
  rewrite Hvel. apply magnitude_unit_scaled.
  apply Rmin_glb; [|lra].
  assert (0 <= Rmin cs T) by (apply Rmin_glb; unfold cs, T; [lra | destruct (Ant.hasFood a); lra]).
  fold cs T. lra.
Qed.

(** The ant thrown out of an obstacle at speed 4 slows down to 3.9. *)
Lemma speed_approaches_target_witness :
  exists s1 : R,
    Rabs (s1 - 3.0) = Rmax 0 (Rabs (Vec.magnitude (Vec.new 4 0) - 3.0) - 0.1)
    /\ Vec.magnitude
         (Ant.velocity (Ant.update_speed (Sample.ant (Vec.new 4 0) false) (Vec.new 1 0)))
       = Rmin s1 (3 * 1.5).
Proof.
  destruct (speed_approaches_target (Sample.ant (Vec.new 4 0) false) (Vec.new 1 0))
    as (s1 & H1 & _ & H2).
  - simpl. rewrite (magnitude_on_axis 4) by lra. lra.
  - simpl. lra.
  - exists s1. split; [exact H1 | exact H2].
Defined.

(** ** The steering direction *)

Lemma magnitude_add_le (u v : Vec.t) :
  Vec.magnitude (Vec.add u v) <= Vec.magnitude u + Vec.magnitude v.
Proof.
  apply Rsqr_incr_0_var.
  - unfold Rsqr.
    pose proof (magnitude_sqr (Vec.add u v)) as Hs.
    pose proof (magnitude_sqr u) as Hu.
    pose proof (magnitude_sqr v) as Hv.
    pose proof (sqrt_cauchy (Vec.x u) (Vec.y u) (Vec.x v) (Vec.y v)) as Hc.
    unfold Rsqr in Hc. fold (Vec.magnitude u) in Hc. fold (Vec.magnitude v) in Hc.
    cbn [Vec.add Vec.x Vec.y] in Hs.
    remember (Vec.magnitude (Vec.add u v)) as ms.
    remember (Vec.magnitude u) as mu. remember (Vec.magnitude v) as mv.
    replace (ms * ms) with (mu * mu + mv * mv + 2 * (Vec.x u * Vec.x v + Vec.y u * Vec.y v))
      by (rewrite Hs, Hu, Hv; ring).
    lra.
  - pose proof (magnitude_nonneg u). pose proof (magnitude_nonneg v). lra.
Qed.

Lemma magnitude_add_ge (u v : Vec.t) :
  Vec.magnitude u - Vec.magnitude v <= Vec.magnitude (Vec.add u v).
Proof.
  pose proof (magnitude_add_le (Vec.add u v) (Vec.multiply v (-1))) as H.
  replace (Vec.add (Vec.add u v) (Vec.multiply v (-1))) with u in H.
  - replace (Vec.magnitude (Vec.multiply v (-1))) with (Vec.magnitude v) in H; [lra|].
    unfold Vec.magnitude, Vec.multiply. simpl. f_equal. ring.
  - destruct u, v. unfold Vec.add, Vec.multiply. simpl. f_equal; ring.
Qed.

Lemma dot_unit_ge (c d : Vec.t) :
  Vec.magnitude c = 1 -> Vec.magnitude d = 1 -> -1 <= Vec.dot c d.
Proof.
  intros Hc Hd.
  pose proof (magnitude_sqr c) as H1. pose proof (magnitude_sqr d) as H2.
  rewrite Hc in H1. rewrite Hd in H2. unfold Vec.dot.
  assert (0 <= (Vec.x c + Vec.x d) * (Vec.x c + Vec.x d)
               + (Vec.y c + Vec.y d) * (Vec.y c + Vec.y d))
    by (apply Rplus_le_le_0_compat; apply Rle_0_sqr).
  lra.
Qed.

(** The direction and the momentum after the steering step. *)
Lemma steer_unit (a : Ant.t) (direction : Vec.t) (rnd : R) :
  Vec.magnitude (Ant.momentum a) <= 1 ->
  Vec.magnitude (Ant.momentum (Ant.steer a direction rnd).1) <= 1
  /\ Vec.magnitude (Ant.steer a direction rnd).2 = 1.
Proof.
  intros Hm. unfold Ant.steer. cbv zeta. cbn [fst snd Ant.with_momentum Ant.momentum].
  set (d1 := if Rgtb (Vec.magnitude direction) 0 then Vec.normalize direction
             else Vec.random rnd).
  assert (Hd1 : Vec.magnitude d1 = 1).
  { unfold d1. cmp (Rgtb (Vec.magnitude direction) 0).
    - now apply normalize_unit.
    - apply random_unit. }
  set (s := if Ant.hasFood a then 0.4 else 0.5).
  assert (Hs : 0.4 <= s <= 0.5) by (unfold s; destruct (Ant.hasFood a); lra).
  set (m1 := Vec.add (Vec.multiply (Ant.momentum a) 0.7) (Vec.multiply d1 0.3)).
  pose proof (magnitude_nonneg (Ant.momentum a)) as Hm0.
  assert (Hm1 : Vec.magnitude m1 <= 1).
  { unfold m1.
    pose proof (magnitude_add_le (Vec.multiply (Ant.momentum a) 0.7) (Vec.multiply d1 0.3)) as H.
    rewrite !magnitude_multiply in H by lra. rewrite Hd1 in H. lra. }
  split; [exact Hm1|].
  apply normalize_unit.
  replace (Vec.add (Vec.multiply d1 (1 - s)) (Vec.multiply m1 s))
    with (Vec.add (Vec.multiply d1 (1 - 0.7 * s)) (Vec.multiply (Ant.momentum a) (0.7 * s))).
  - pose proof (magnitude_add_ge (Vec.multiply d1 (1 - 0.7 * s))
                  (Vec.multiply (Ant.momentum a) (0.7 * s))) as H.
    rewrite !magnitude_multiply in H by lra. rewrite Hd1 in H. nra.
  - unfold m1, Vec.add, Vec.multiply. simpl. clear Hm1 Hd1 Hs. clearbody m1 s d1.
    f_equal; lra.
Qed.

Lemma smooth_turn_unit (a : Ant.t) (direction : Vec.t) :
  Vec.magnitude direction = 1 ->
  Vec.magnitude (Ant.smooth_turn a direction) = 1.
Proof.
  intros Hd. unfold Ant.smooth_turn. cbv zeta.
  cmp (Rgtb (Vec.magnitude (Ant.velocity a)) 0); [|exact Hd].
  set (c := Vec.normalize (Ant.velocity a)).
  assert (Hcu : Vec.magnitude c = 1) by now apply normalize_unit.
  set (maxTurn := if Ant.hasFood a then 0.3 else 0.4).
  assert (HmT : 0.3 <= maxTurn <= 0.4) by (unfold maxTurn; destruct (Ant.hasFood a); lra).
  set (dt := Rmax (-1) (Rmin 1 (Vec.dot c direction))).
  cmp (Rgtb (acos dt) maxTurn); [|exact Hd].
  apply normalize_unit.
  set (t := maxTurn / acos dt).
  assert (Ht : 0 < t < 1).
  { unfold t. split.
    - apply Rdiv_lt_0_compat; lra.
    - apply (Rmult_lt_reg_r (acos dt)); [lra|]. field_simplify; lra. }
  pose proof (dot_unit_ge c direction Hcu Hd) as Hdot.
  pose proof (magnitude_sqr c) as H1. pose proof (magnitude_sqr direction) as H2.
  rewrite Hcu in H1. rewrite Hd in H2.
  set (w := Vec.add (Vec.multiply c (1 - t)) (Vec.multiply direction t)).
  assert (Hw : Vec.x w * Vec.x w + Vec.y w * Vec.y w
               = (1 - 2 * t) * (1 - 2 * t) + 2 * t * (1 - t) * (1 + Vec.dot c direction)).
  { unfold w, Vec.add, Vec.multiply, Vec.dot. simpl. nra. }
  unfold Vec.magnitude. apply sqrt_lt_R0. rewrite Hw.
  destruct (Rle_lt_or_eq_dec _ _ Hdot) as [Hlt | Heq].
  - assert (0 < t * (1 - t)) by nra.
    assert (0 < t * (1 - t) * (1 + Vec.dot c direction)) by (apply Rmult_lt_0_compat; lra).
    pose proof (Rle_0_sqr (1 - 2 * t)) as Hsq. unfold Rsqr in Hsq. lra.
  - assert (Hpi : dt = -1).
    { unfold dt. rewrite <- Heq. rewrite (Rmin_right 1 (-1)) by lra.
      apply Rmax_left. lra. }
    assert (Hacos : acos dt = PI).
    { rewrite Hpi. replace (-1) with (- (1)) by ring.
      rewrite acos_opp, acos_1. ring. }
    assert (HPI : 3 < PI) by (pose proof PI2_3_2; lra).
    assert (Hhalf : t < 1 / 2).
    { unfold t. rewrite Hacos.
      apply (Rmult_lt_reg_r PI); [lra|]. field_simplify; lra. }
    rewrite <- Heq. nra.
Qed.

(** X18: when the momentum of an ant is at most 1 long, as it is for a new
    ant, the steering step leaves a momentum at most 1 long and gives a
    direction of length 1, and the smoothed direction that enters the speed
    update has length 1 too, whatever the sum of the steering forces is. *)
Theorem steering_direction_unit (a : Ant.t) (direction : Vec.t) (rnd : R) :
  Vec.magnitude (Ant.momentum a) <= 1 ->
  Vec.magnitude (Ant.momentum (Ant.calm a)) <= 1
  /\ Vec.magnitude (Ant.momentum (Ant.steer a direction rnd).1) <= 1
  /\ Vec.magnitude (Ant.steer a direction rnd).2 = 1
  /\ Vec.magnitude
       (Ant.smooth_turn (Ant.steer a direction rnd).1 (Ant.steer a direction rnd).2) = 1.
Proof.
  intros Hm. destruct (steer_unit a direction rnd Hm) as [H1 H2].
  split; [|split; [exact H1 | split; [exact H2 | now apply smooth_turn_unit]]].
  unfold Ant.calm, Ant.with_momentum. cbn [Ant.momentum].
  rewrite magnitude_multiply by lra.
  pose proof (magnitude_nonneg (Ant.momentum a)). lra.
Qed.

(** A new ant, whose momentum is the zero vector, with no steering force. *)
Lemma steering_direction_unit_witness :
  Vec.magnitude (Ant.steer (Sample.ant (Vec.new 2 0) false) (Vec.new 0 0) 0).2 = 1.
Proof.
  apply (steering_direction_unit (Sample.ant (Vec.new 2 0) false) (Vec.new 0 0) 0).
  simpl. rewrite magnitude_zero. lra.
Defined.

(** ** Ants inside obstacles *)

Lemma magnitude_subtract_sym (u v : Vec.t) :
  Vec.magnitude (Vec.subtract u v) = Vec.magnitude (Vec.subtract v u).
Proof. unfold Vec.magnitude, Vec.subtract. simpl. f_equal. ring. Qed.

Lemma magnitude_apart (u v : Vec.t) :
  u <> v -> 0 < Vec.magnitude (Vec.subtract u v).
Proof.
  intros Huv.
  destruct (Rle_lt_or_eq_dec _ _ (magnitude_nonneg (Vec.subtract u v))) as [H|H];
    [exact H|].
  exfalso. apply Huv.
  pose proof (magnitude_sqr (Vec.subtract u v)) as Hs. rewrite <- H in Hs.
  destruct u as [ux uy], v as [vx vy]. simpl in Hs.
  symmetry in Hs. rewrite Rmult_0_l in Hs.
  destruct (Rplus_sqr_eq_0 (ux - vx) (uy - vy)) as [Hx Hy].
  { unfold Rsqr. exact Hs. }
  f_equal; lra.
Qed.

Lemma normalize_of_unit (u : Vec.t) :
  Vec.magnitude u = 1 -> Vec.normalize u = u.
Proof.
  intros Hu. unfold Vec.normalize. rewrite Hu.
  cmp (Rgtb 1 0); [|lra].
  destruct u as [ux uy]. unfold Vec.divide. simpl. f_equal; field.
Qed.

(** Where [repulse] answers a distance that is a number, the direction it
    answers has magnitude 1. *)
Lemma repulse_finite_unit (o : Obstacle.t) (p : Vec.t) (rnd d : R) :
  Obstacle.dist (Obstacle.repulse o p rnd) = Obstacle.Finite d ->
  Vec.magnitude (Obstacle.vec (Obstacle.repulse o p rnd)) = 1.
Proof.
  unfold Obstacle.repulse.
  destruct (Obstacle.blob o) as [|v0 vs]; [discriminate|].
  destruct (foldl _ _ _) as [minDist [c|]]; [|discriminate].
  cbv zeta.
  cmp (Rltb (Vec.magnitude (Vec.subtract p c)) 0.1).
  - cmp (Rgtb (Vec.magnitude (Vec.subtract p (Obstacle.pos o))) 0.1); simpl; intros _.
    + apply normalize_unit. lra.
    + apply random_unit.
  - simpl. intros _. apply normalize_unit. lra.
Qed.

Lemma closer_unit (o : Obstacle.t) (p : Vec.t) (rnd r : R) :
  Obstacle.closer (Obstacle.dist (Obstacle.repulse o p rnd)) r = true ->
  Vec.magnitude (Obstacle.vec (Obstacle.repulse o p rnd)) = 1.
Proof.
  destruct (Obstacle.dist (Obstacle.repulse o p rnd)) as [d|] eqn:Hd; [|discriminate].
  intros _. now apply (repulse_finite_unit o p rnd d).
Qed.

Lemma magnitude_offset (c u : Vec.t) (s : R) :
  Vec.magnitude u = 1 -> 0 <= s ->
  Vec.magnitude (Vec.subtract (Vec.add c (Vec.multiply u s)) c) = s.
Proof.
  intros Hu Hs.
  replace (Vec.subtract (Vec.add c (Vec.multiply u s)) c) with (Vec.multiply u s).
  - rewrite magnitude_multiply by exact Hs. rewrite Hu. lra.
  - unfold Vec.subtract, Vec.add, Vec.multiply. simpl. f_equal; ring.
Qed.

(** At a point of an edge that joins two different points, [repulse]
    answers the distance 0. *)
Lemma repulse_on_edge (o : Obstacle.t) (i : nat) (a b : Vec.t) (s rnd : R) :
  Obstacle.blob o !! i = Some a ->
  Obstacle.blob o !! ((i + 1) mod length (Obstacle.blob o))%nat = Some b ->
  a <> b -> 0 <= s <= 1 ->
  Obstacle.dist (Obstacle.repulse o (along a b s) rnd) = Obstacle.Finite 0.
Proof.
  intros Ha Hb Hab Hs. set (p := along a b s).
  assert (Hedge : Obstacle.has_edge o) by (exists i, a, b; auto).
  destruct (loop_found o p Hedge) as [c Hloop].
  destruct (closestOnSeg_min a b p Hab) as (cp & tt & Hcp & _ & _ & Hmin).
  assert (Hep : Obstacle.edge_point o p i = Some cp).
  { unfold Obstacle.edge_point. now rewrite Ha, Hb. }
  pose proof (loop_atmost o p _ i cp (Obstacle.Infinity, None)
                (or_introl eq_refl) (edge_point_in_range o p i cp Hep) Hep)
    as (d & c' & Hst & Hd).
  rewrite Hloop in Hst. injection Hst as <- <-.
  specialize (Hmin s Hs). fold p in Hmin. rewrite (magnitude_self p) in Hmin.
  unfold Obstacle.repulse.
  destruct (Obstacle.blob o) as [|v0 vs] eqn:Hblob; [discriminate Ha|].
  rewrite <- Hblob in Hloop |- *. rewrite Hloop. cbv zeta.
  cmp (Rltb (Vec.magnitude (Vec.subtract p c)) 0.1); [|lra].
  now destruct (Rgtb _ _).
Qed.

(** The triangle, asked from its vertex (0, 0). *)
Lemma triangle_vertex (rnd : R) :
  Obstacle.dist (Obstacle.repulse Sample.triangle (Vec.new 0 0) rnd)
  = Obstacle.Finite 0.
Proof.
  replace (Vec.new 0 0) with (along (Vec.new 0 0) (Vec.new 10 0) 0)
    by (unfold along; simpl; f_equal; lra).
  apply (repulse_on_edge Sample.triangle 0%nat); [reflexivity | reflexivity | | lra].
  intros H. injection H. lra.
Qed.

(** X19: the emergency loop of [update] leaves the ant as it is when no
    obstacle answers a distance below 0.5; otherwise it stops at the first
    obstacle that does, puts the ant at [baseRadius + 10] from the centre of
    that obstacle in the direction [repulse] answered, and gives it a velocity
    of magnitude 4 in that direction. *)
Theorem throw_out_lands (a : Ant.t) (obstacles : list Obstacle.t) (rnd : nat -> R) :
  ((forall (k : nat) (o : Obstacle.t), obstacles !! k = Some o ->
      Obstacle.closer
        (Obstacle.dist (Obstacle.repulse o (Ant.position a) (rnd k))) 0.5 = false)
   /\ Ant.throw_out a obstacles rnd = a)
  \/ exists (k : nat) (o : Obstacle.t) (u : Vec.t),
       obstacles !! k = Some o
       /\ Obstacle.closer
            (Obstacle.dist (Obstacle.repulse o (Ant.position a) (rnd k))) 0.5 = true
       /\ (forall (j : nat) (o' : Obstacle.t), (j < k)%nat -> obstacles !! j = Some o' ->
             Obstacle.closer
               (Obstacle.dist (Obstacle.repulse o' (Ant.position a) (rnd j))) 0.5 = false)
       /\ u = Obstacle.vec (Obstacle.repulse o (Ant.position a) (rnd k))
       /\ Vec.magnitude u = 1
       /\ Ant.position (Ant.throw_out a obstacles rnd)
          = Vec.add (Obstacle.pos o) (Vec.multiply u (Obstacle.baseRadius o + 10))
       /\ Ant.velocity (Ant.throw_out a obstacles rnd) = Vec.multiply u 4
       /\ Vec.magnitude (Ant.velocity (Ant.throw_out a obstacles rnd)) = 4
       /\ (-10 <= Obstacle.baseRadius o ->
           Vec.magnitude
             (Vec.subtract (Ant.position (Ant.throw_out a obstacles rnd)) (Obstacle.pos o))
           = Obstacle.baseRadius o + 10).
Proof.
  revert rnd. induction obstacles as [|o rest IH]; intros rnd.
  { left. split; [|reflexivity]. intros k o Hk. discriminate Hk. }
  cbn [Ant.throw_out]. cbv zeta.
  destruct (Obstacle.closer
              (Obstacle.dist (Obstacle.repulse o (Ant.position a) (rnd 0%nat))) 0.5)
    eqn:Hin.
  - right. exists 0%nat, o, (Obstacle.vec (Obstacle.repulse o (Ant.position a) (rnd 0%nat))).
    pose proof (closer_unit _ _ _ _ Hin) as Hu.
    rewrite (normalize_of_unit _ Hu).
    unfold Ant.with_velocity, Ant.with_position. cbn [Ant.position Ant.velocity].
    split; [reflexivity|]. split; [exact Hin|].
    split; [intros j o' Hj; lia|]. split; [reflexivity|]. split; [exact Hu|].
    split; [reflexivity|].
    assert (H4 : forall u : Vec.t, Vec.multiply u 4.0 = Vec.multiply u 4)
      by (intros u; unfold Vec.multiply; f_equal; lra).
    rewrite H4. split; [reflexivity|]. split.
    + rewrite magnitude_multiply by lra. rewrite Hu. lra.
    + intros Hr.
      change (Vec.new _ _) with
        (Vec.add (Obstacle.pos o)
           (Vec.multiply (Obstacle.vec (Obstacle.repulse o (Ant.position a) (rnd 0%nat)))
              (Obstacle.baseRadius o + 10))).
      apply magnitude_offset; [exact Hu | lra].
  - destruct (IH (fun k => rnd (S k)))
      as [[Hall Heq] | (k & o' & u & Hk & Hink & Hfirst & Hu & Hrest)].
    + left. split; [|exact Heq].
      intros [|k] o' Hk.
      * injection Hk as <-. exact Hin.
      * now apply (Hall k o').
    + right. exists (S k), o', u. split; [exact Hk|]. split; [exact Hink|].
      split; [|split; [exact Hu | exact Hrest]].
      intros [|j] o'' Hj Hlook.
      * injection Hlook as <-. exact Hin.
      * apply (Hfirst j o''); [lia | exact Hlook].
Qed.

(** X20: [checkAndFixTrappedAnts] moves an ant that is nearer than 0.8 to an
    obstacle to [baseRadius + 15] from the centre of the obstacle and gives
    it a velocity of magnitude 3, unless the ant is exactly at the centre:
    then it stays there and its velocity becomes the zero vector. *)
Theorem fix_trapped_lands (ant : Ant.t) (obstacle : Obstacle.t) (rnd : R) :
  Obstacle.closer
    (Obstacle.dist (Obstacle.repulse obstacle (Ant.position ant) rnd)) 0.8 = true ->
  (Ant.position ant <> Obstacle.pos obstacle ->
     Vec.magnitude (Ant.velocity (fix_trapped ant obstacle rnd)) = 3
     /\ (-15 <= Obstacle.baseRadius obstacle ->
         Vec.magnitude
           (Vec.subtract (Ant.position (fix_trapped ant obstacle rnd))
              (Obstacle.pos obstacle))
         = Obstacle.baseRadius obstacle + 15))
  /\ (Ant.position ant = Obstacle.pos obstacle ->
      Ant.position (fix_trapped ant obstacle rnd) = Obstacle.pos obstacle
      /\ Ant.velocity (fix_trapped ant obstacle rnd) = Vec.new 0 0).
Proof.
  intros Hin. unfold fix_trapped. cbv zeta. rewrite Hin.
  unfold Ant.with_velocity, Ant.with_position. cbn [Ant.position Ant.velocity].
  split.
  - intros Hne. pose proof (magnitude_apart _ _ Hne) as Hpos.
    pose proof (normalize_unit _ Hpos) as Hu. split.
    + rewrite magnitude_multiply by lra. rewrite Hu. lra.
    + intros Hr. apply magnitude_offset; [exact Hu | lra].
  - intros ->. unfold Vec.normalize. rewrite magnitude_self.
    cmp (Rgtb 0 0); [lra|].
    destruct (Obstacle.pos obstacle) as [cx cy].
    unfold Vec.add, Vec.multiply. simpl. split; f_equal; ring.
Qed.

(** An ant at the vertex (0, 0) of the triangle, whose centre is (3, 3). *)
Lemma fix_trapped_lands_witness :
  Vec.magnitude
    (Ant.velocity (fix_trapped (Sample.ant (Vec.new 1 0) false) Sample.triangle 0)) = 3.
Proof.
  apply (fix_trapped_lands (Sample.ant (Vec.new 1 0) false) Sample.triangle 0).
  - cbn [Sample.ant Ant.position]. rewrite triangle_vertex. simpl.
    unfold Rltb. destruct (Rlt_dec 0 0.8) as [_|H]; [reflexivity | exfalso; lra].
  - cbn [Sample.ant Ant.position Sample.triangle Obstacle.pos].
    intros H. injection H. lra.
Defined.

(** ** Direct paths *)

Lemma along_start (a b : Vec.t) : along a b 0 = a.
Proof. destruct a as [ax ay]. unfold along. simpl. f_equal; ring. Qed.

Lemma along_end (a b : Vec.t) : along a b 1 = b.
Proof. destruct a as [ax ay], b as [bx by_]. unfold along. simpl. f_equal; ring. Qed.

(** The distance between two points of a segment. *)
Lemma along_apart (a b : Vec.t) (s s' : R) :
  s <= s' ->
  Vec.magnitude (Vec.subtract (along a b s') (along a b s))
  = Vec.magnitude (Vec.subtract a b) * (s' - s).
Proof.
  intros Hs.
  replace (Vec.subtract (along a b s') (along a b s))
    with (Vec.multiply (Vec.subtract b a) (s' - s)).
  - rewrite magnitude_multiply by lra. now rewrite (magnitude_subtract_sym a b).
  - unfold Vec.subtract, Vec.multiply, along. simpl. f_equal; ring.
Qed.

Lemma getDirectPath_lookup (from to : Vec.t) (i : nat) :
  from <> to ->
  (Z.of_nat i <= Zceil (Vec.magnitude (Vec.subtract from to) / 50))%Z ->
  getDirectPath from to !! i
  = Some (Some (along from to
                  (IZR (Z.of_nat i) / IZR (Zceil (Vec.magnitude (Vec.subtract from to) / 50))))).
Proof.
  intros Hne Hi. unfold getDirectPath. cbv zeta.
  set (steps := Zceil (Vec.magnitude (Vec.subtract from to) / 50)) in *.
  pose proof (magnitude_apart _ _ Hne) as Hpos.
  pose proof (Zceil_bound (Vec.magnitude (Vec.subtract from to) / 50)) as [_ Hup].
  fold steps in Hup.
  assert (Hsteps : (1 <= steps)%Z).
  { assert (0 < IZR steps) by lra. apply lt_IZR in H. lia. }
  rewrite list_lookup_fmap, lookup_seqZ_lt by lia. simpl.
  destruct (steps =? 0)%Z eqn:Hz; [lia|]. reflexivity.
Qed.

(** X21: [getDirectPath] between two different points gives the points of
    the segment at the fractions [i / steps], from [from] to [to], with
    [steps] at least 1 and consecutive points at most 50 apart; between a
    point and itself it gives one point, which is not a number. *)
Theorem getDirectPath_steps (from to : Vec.t) :
  getDirectPath from from = [None]
  /\ (from <> to ->
      let steps := Zceil (Vec.magnitude (Vec.subtract from to) / 50) in
      (1 <= steps)%Z
      /\ length (getDirectPath from to) = Z.to_nat (steps + 1)
      /\ head (getDirectPath from to) = Some (Some from)
      /\ last (getDirectPath from to) = Some (Some to)
      /\ (forall i : nat, (Z.of_nat i <= steps)%Z ->
            getDirectPath from to !! i
            = Some (Some (along from to (IZR (Z.of_nat i) / IZR steps))))
      /\ (forall (i : nat) (p q : Vec.t),
            getDirectPath from to !! i = Some (Some p) ->
            getDirectPath from to !! S i = Some (Some q) ->
            Vec.magnitude (Vec.subtract q p) <= 50)).
Proof.
  split.
  { unfold getDirectPath. cbv zeta. rewrite magnitude_self.
    replace (Zceil (0 / 50)) with 0%Z; [reflexivity|].
    symmetry. apply Zceil_eq. simpl. lra. }
  intros Hne steps.
  pose proof (magnitude_apart _ _ Hne) as Hpos.
  pose proof (Zceil_bound (Vec.magnitude (Vec.subtract from to) / 50)) as [_ Hup].
  fold steps in Hup.
  assert (Hsteps : (1 <= steps)%Z).
  { assert (0 < IZR steps) by lra. apply lt_IZR in H. lia. }
  assert (Hs1 : 1 <= IZR steps) by (apply IZR_le in Hsteps; exact Hsteps).
  assert (Hlen : length (getDirectPath from to) = Z.to_nat (steps + 1)).
  { unfold getDirectPath. cbv zeta. fold steps. now rewrite length_fmap, length_seqZ. }
  split; [exact Hsteps|]. split; [exact Hlen|]. split; [|split; [|split]].
  - rewrite head_lookup, (getDirectPath_lookup from to 0 Hne) by (fold steps; lia).
    fold steps. simpl. unfold Rdiv. rewrite Rmult_0_l. now rewrite along_start.
  - rewrite last_lookup, Hlen.
    replace (pred (Z.to_nat (steps + 1))) with (Z.to_nat steps) by lia.
    rewrite (getDirectPath_lookup from to _ Hne) by (fold steps; lia).
    fold steps. rewrite Z2Nat.id by lia.
    replace (IZR steps / IZR steps) with 1 by (field; lra).
    now rewrite along_end.
  - intros i Hi. now apply getDirectPath_lookup.
  - intros i p q Hp Hq.
    assert (Hi : (Z.of_nat (S i) <= steps)%Z).
    { apply lookup_lt_Some in Hq. rewrite Hlen in Hq. lia. }
    rewrite (getDirectPath_lookup from to i Hne) in Hp by (fold steps; lia).
    rewrite (getDirectPath_lookup from to (S i) Hne) in Hq by (fold steps; lia).
    fold steps in Hp, Hq. injection Hp as <-. injection Hq as <-.
    rewrite Nat2Z.inj_succ, succ_IZR.
    rewrite along_apart.
    + replace ((IZR (Z.of_nat i) + 1) / IZR steps - IZR (Z.of_nat i) / IZR steps)
        with (/ IZR steps) by (field; lra).
      apply (Rmult_le_reg_r (IZR steps)); [lra|].
      rewrite Rmult_assoc, Rinv_l by lra. lra.
    + apply Rmult_le_compat_r; [|lra].
      left. apply Rinv_0_lt_compat. lra.
Qed.

(** From the origin to the point (120, 0): three steps of 40. *)
Lemma getDirectPath_steps_witness :
  last (getDirectPath (Vec.new 0 0) (Vec.new 120 0)) = Some (Some (Vec.new 120 0)).
Proof.
  apply (getDirectPath_steps (Vec.new 0 0) (Vec.new 120 0)).
  intros H. injection H. lra.
Defined.

(** ** Trapped detection *)

(** The history after a push keeps from 1 to 10 values. *)
Lemma history_length (h : list R) (x : R) :
  (length h <= 10)%nat ->
  (1 <= length (if (10 <? length (h ++ [x]))%nat then tail (h ++ [x]) else h ++ [x])
   <= 10)%nat.
Proof.
  intros Hh. destruct (10 <? length (h ++ [x]))%nat eqn:E.
  - apply Nat.ltb_lt in E. rewrite length_app in E. simpl in E.
    destruct h as [|h0 h]; simpl in *; [lia|]. rewrite length_app. simpl. lia.
  - apply Nat.ltb_ge in E. rewrite length_app in *. simpl in *. lia.
Qed.

(** The timeout of the escape mode changes [escapeMode] only, and only to
    false. *)
Lemma escape_timeout_keeps (s : Ant.detection) (now : R) :
  let s' := Ant.escape_timeout s now in
  (Ant.escapeMode s' = true -> Ant.escapeMode s = true)
  /\ Ant.escapeAttempts s' = Ant.escapeAttempts s
  /\ Ant.maxEscapeAttempts s' = Ant.maxEscapeAttempts s
  /\ Ant.progressHistory s' = Ant.progressHistory s
  /\ Ant.trappedTime s' = Ant.trappedTime s
  /\ Ant.trappedThreshold s' = Ant.trappedThreshold s
  /\ Ant.lastProgressCheck s' = Ant.lastProgressCheck s
  /\ Ant.progressCheckInterval s' = Ant.progressCheckInterval s.
Proof.
  cbv zeta. unfold Ant.escape_timeout.
  destruct (Ant.escapeMode s) eqn:Hm; [destruct (Rgtb _ _)|]; simpl;
    rewrite ?Hm; repeat split; auto; discriminate.
Qed.

(** The cases of one call of [checkTrappedStatus]: the call only counts; or
    it checks and finds no goal; or it finds progress; or it finds none and
    counts one more check without progress; or it enters the escape mode. *)
Lemma checkTrappedStatus_cases (s : Ant.detection) (c : bool) (p : Vec.t)
    (nest : Nest.t) (foodSources : list Food.t) (now : R) :
  (length (Ant.progressHistory s) <= 10)%nat ->
  let s' := Ant.checkTrappedStatus s c p nest foodSources now in
  Ant.maxEscapeAttempts s' = Ant.maxEscapeAttempts s
  /\ Ant.trappedThreshold s' = Ant.trappedThreshold s
  /\ Ant.progressCheckInterval s' = Ant.progressCheckInterval s
  /\ (length (Ant.progressHistory s') <= 10)%nat
  /\ (((Ant.lastProgressCheck s + 1 < Ant.progressCheckInterval s)%Z
       /\ Ant.lastProgressCheck s' = (Ant.lastProgressCheck s + 1)%Z
       /\ Ant.escapeMode s' = Ant.escapeMode s
       /\ Ant.escapeAttempts s' = Ant.escapeAttempts s
       /\ Ant.trappedTime s' = Ant.trappedTime s)
      \/ ((Ant.progressCheckInterval s <= Ant.lastProgressCheck s + 1)%Z
          /\ Ant.lastProgressCheck s' = 0%Z
          /\ ((Ant.escapeMode s' = Ant.escapeMode s
               /\ Ant.escapeAttempts s' = Ant.escapeAttempts s
               /\ Ant.trappedTime s' = Ant.trappedTime s)
              \/ (Ant.escapeMode s' = false
                  /\ Ant.escapeAttempts s' = 0%Z
                  /\ Ant.trappedTime s' = 0%Z)
              \/ (Ant.escapeMode s' = Ant.escapeMode s
                  /\ Ant.escapeAttempts s' = Ant.escapeAttempts s
                  /\ Ant.trappedTime s' = (Ant.trappedTime s + 1)%Z)
              \/ ((Ant.trappedThreshold s < Ant.trappedTime s + 1)%Z
                  /\ (Ant.escapeAttempts s < Ant.maxEscapeAttempts s)%Z
                  /\ Ant.escapeMode s = false
                  /\ Ant.escapeMode s' = true
                  /\ Ant.escapeStartTime s' = now
                  /\ Ant.escapeAttempts s' = (Ant.escapeAttempts s + 1)%Z
                  /\ Ant.trappedTime s' = 0%Z)))).
Proof.
  intros Hh. cbv zeta. unfold Ant.checkTrappedStatus. cbv zeta.
  destruct (Ant.lastProgressCheck s + 1 <? Ant.progressCheckInterval s)%Z eqn:Hcount.
  { apply Z.ltb_lt in Hcount. simpl.
    split; [reflexivity|]. split; [reflexivity|]. split; [reflexivity|].
    split; [exact Hh|]. left. now repeat split. }
  apply Z.ltb_ge in Hcount.
  destruct (Ant.currentGoal c p nest foodSources) as [goal|].
  2:{ simpl. split; [reflexivity|]. split; [reflexivity|]. split; [reflexivity|].
      split; [exact Hh|]. right. split; [exact Hcount|]. split; [reflexivity|].
      left. now repeat split. }
  set (initial := if Reqb (Ant.initialDistanceToGoal s) 0
                  then Vec.magnitude (Vec.subtract p goal)
                  else Ant.initialDistanceToGoal s).
  pose proof (history_length (Ant.progressHistory s)
                (initial - Vec.magnitude (Vec.subtract p goal)) Hh) as Hlen.
  set (pushed := Ant.progressHistory s
                 ++ [initial - Vec.magnitude (Vec.subtract p goal)]) in *.
  set (history := if (10 <? length pushed)%nat then tail pushed else pushed) in *.
  clearbody history.
  destruct (negb (Rgtb (default 0 (last history) - default 0 (head history))
                    (Ant.progressThreshold s))).
  2:{ simpl. split; [reflexivity|]. split; [reflexivity|]. split; [reflexivity|].
      split; [lia|]. right. split; [exact Hcount|]. split; [reflexivity|].
      right. left. now repeat split. }
  cbn [Ant.trappedThreshold Ant.trappedTime Ant.escapeMode].
  destruct (Ant.trappedThreshold s <? Ant.trappedTime s + 1)%Z eqn:Hover;
    [destruct (Ant.escapeMode s) eqn:Hmode|]; cbn [andb negb].
  - simpl. split; [reflexivity|]. split; [reflexivity|]. split; [reflexivity|].
    split; [lia|]. right. split; [exact Hcount|]. split; [reflexivity|].
    right. right. left. now repeat split.
  - unfold Ant.enterEscapeMode.
    cbn [Ant.maxEscapeAttempts Ant.escapeAttempts].
    destruct (Ant.maxEscapeAttempts s <=? Ant.escapeAttempts s)%Z eqn:Hmax.
    + simpl. split; [reflexivity|]. split; [reflexivity|]. split; [reflexivity|].
      split; [lia|]. right. split; [exact Hcount|]. split; [reflexivity|].
      right. right. left. now repeat split.
    + apply Z.leb_gt in Hmax. apply Z.ltb_lt in Hover. simpl.
      split; [reflexivity|]. split; [reflexivity|]. split; [reflexivity|].
      split; [lia|]. right. split; [exact Hcount|]. split; [reflexivity|].
      right. right. right. now repeat split.
  - simpl. split; [reflexivity|]. split; [reflexivity|]. split; [reflexivity|].
    split; [lia|]. right. split; [exact Hcount|]. split; [reflexivity|].
    right. right. left. now repeat split.
Qed.

Lemma detect_frame_cases (s : Ant.detection) (e : Ant.frame) :
  (length (Ant.progressHistory s) <= 10)%nat ->
  let s' := Ant.detect_frame s e in
  Ant.maxEscapeAttempts s' = Ant.maxEscapeAttempts s
  /\ Ant.trappedThreshold s' = Ant.trappedThreshold s
  /\ Ant.progressCheckInterval s' = Ant.progressCheckInterval s
  /\ (length (Ant.progressHistory s') <= 10)%nat
  /\ (((Ant.lastProgressCheck s + 1 < Ant.progressCheckInterval s)%Z
       /\ Ant.lastProgressCheck s' = (Ant.lastProgressCheck s + 1)%Z
       /\ (Ant.escapeMode s' = true -> Ant.escapeMode s = true)
       /\ Ant.escapeAttempts s' = Ant.escapeAttempts s
       /\ Ant.trappedTime s' = Ant.trappedTime s)
      \/ ((Ant.progressCheckInterval s <= Ant.lastProgressCheck s + 1)%Z
          /\ Ant.lastProgressCheck s' = 0%Z
          /\ (((Ant.escapeMode s' = true -> Ant.escapeMode s = true)
               /\ Ant.escapeAttempts s' = Ant.escapeAttempts s
               /\ Ant.trappedTime s' = Ant.trappedTime s)
              \/ (Ant.escapeMode s' = false
                  /\ Ant.escapeAttempts s' = 0%Z
                  /\ Ant.trappedTime s' = 0%Z)
              \/ ((Ant.escapeMode s' = true -> Ant.escapeMode s = true)
                  /\ Ant.escapeAttempts s' = Ant.escapeAttempts s
                  /\ Ant.trappedTime s' = (Ant.trappedTime s + 1)%Z)
              \/ ((Ant.trappedThreshold s < Ant.trappedTime s + 1)%Z
                  /\ (Ant.escapeAttempts s < Ant.maxEscapeAttempts s)%Z
                  /\ Ant.escapeMode s' = true
                  /\ Ant.escapeStartTime s' = Ant.clock2 e
                  /\ Ant.escapeAttempts s' = (Ant.escapeAttempts s + 1)%Z
                  /\ Ant.trappedTime s' = 0%Z)))).
Proof.
  intros Hh. cbv zeta. unfold Ant.detect_frame.
  destruct (escape_timeout_keeps s (Ant.clock1 e))
    as (Hm & Ha & Hmax & Hhist & Htt & HT & Hl & HI).
  set (s0 := Ant.escape_timeout s (Ant.clock1 e)) in *. clearbody s0.
  rewrite <- Hhist in Hh.
  destruct (checkTrappedStatus_cases s0 (Ant.carrying e) (Ant.place e) (Ant.home e)
              (Ant.foods e) (Ant.clock2 e) Hh)
    as (H1 & H2 & H3 & H4 & Hcases).
  set (s' := Ant.checkTrappedStatus s0 (Ant.carrying e) (Ant.place e) (Ant.home e)
               (Ant.foods e) (Ant.clock2 e)) in *. clearbody s'.
  rewrite Ha, Hmax, Htt, HT, Hl, HI in *.
  split; [exact H1|]. split; [exact H2|]. split; [exact H3|]. split; [exact H4|].
  destruct Hcases as [(Hc & Hl' & Hm' & Ha' & Ht') | (Hc & Hl' & Hrest)].
  - left. split; [exact Hc|]. split; [exact Hl'|].
    split; [intros H; apply Hm; now rewrite <- Hm'|]. now split.
  - right. split; [exact Hc|]. split; [exact Hl'|].
    destruct Hrest as [(Hm' & Ha' & Ht') | [H0 | [(Hm' & Ha' & Ht') | H5]]].
    + left. split; [intros H; apply Hm; now rewrite <- Hm'|]. now split.
    + right. left. exact H0.
    + right. right. left. split; [intros H; apply Hm; now rewrite <- Hm'|]. now split.
    + right. right. right.
      destruct H5 as (Ha1 & Ha2 & _ & Ha4 & Ha5 & Ha6 & Ha7). now repeat split.
Qed.

(** X22: over any calls of [update], the trapped detection of an ant keeps
    at most 10 values in [progressHistory], keeps [escapeAttempts] from 0 to
    [maxEscapeAttempts] and [lastProgressCheck] from 0 to below
    [progressCheckInterval], when it starts so, as it does in a new ant. *)
Theorem detection_bounds (l : list Ant.frame) (s : Ant.detection) :
  (length (Ant.progressHistory s) <= 10)%nat ->
  (0 <= Ant.escapeAttempts s <= Ant.maxEscapeAttempts s)%Z ->
  (0 <= Ant.lastProgressCheck s < Ant.progressCheckInterval s)%Z ->
  (length (Ant.progressHistory (Ant.detect_frames l s)) <= 10)%nat
  /\ (0 <= Ant.escapeAttempts (Ant.detect_frames l s) <= Ant.maxEscapeAttempts s)%Z
  /\ (0 <= Ant.lastProgressCheck (Ant.detect_frames l s) < Ant.progressCheckInterval s)%Z.
Proof.
  revert s. induction l as [|e l IH]; intros s Hh Ha Hl; [now repeat split|].
  unfold Ant.detect_frames. cbn [foldl]. fold (Ant.detect_frames l (Ant.detect_frame s e)).
  destruct (detect_frame_cases s e Hh) as (Hmax & _ & HI & Hh' & Hcases).
  rewrite <- Hmax, <- HI. apply IH; [exact Hh' | |]; rewrite ?Hmax, ?HI.
  - destruct Hcases as [(_ & _ & _ & -> & _) | (_ & _ & [(_ & -> & _) | [(_ & -> & _)
      | [(_ & -> & _) | (_ & Hlt & _ & _ & -> & _)]]])]; lia.
  - destruct Hcases as [(Hc & -> & _) | (_ & -> & _)]; lia.
Qed.

(** A new ant during three calls of [update] without food sources. *)
Lemma detection_bounds_witness :
  (length (Ant.progressHistory
     (Ant.detect_frames
        (replicate 3 (Ant.at_frame false (Vec.new 0 0) (Sample.nest 0 10) [] 0 0))
        Ant.new_detection)) <= 10)%nat.
Proof.
  apply (detection_bounds
           (replicate 3 (Ant.at_frame false (Vec.new 0 0) (Sample.nest 0 10) [] 0 0))
           Ant.new_detection); simpl; lia.
Defined.

(** X23: an ant that is not in escape mode does not enter it before
    [progressCheckInterval * (trappedThreshold + 1 - trappedTime)
    - lastProgressCheck] calls of [update], whatever happens in these calls:
    a new ant not before its 2730th call. *)
Theorem escape_not_before (l : list Ant.frame) (s : Ant.detection) :
  Ant.escapeMode s = false ->
  (length (Ant.progressHistory s) <= 10)%nat ->
  (0 <= Ant.lastProgressCheck s < Ant.progressCheckInterval s)%Z ->
  (0 <= Ant.trappedTime s)%Z ->
  (Z.of_nat (length l)
   < Ant.progressCheckInterval s * (Ant.trappedThreshold s + 1 - Ant.trappedTime s)
     - Ant.lastProgressCheck s)%Z ->
  Ant.escapeMode (Ant.detect_frames l s) = false.
Proof.
  revert s. induction l as [|e l IH]; intros s Hm Hh Hl Ht Hn; [exact Hm|].
  unfold Ant.detect_frames. cbn [foldl]. fold (Ant.detect_frames l (Ant.detect_frame s e)).
  cbn [length] in Hn. rewrite Nat2Z.inj_succ in Hn.
  destruct (detect_frame_cases s e Hh) as (_ & HT & HI & Hh' & Hcases).
  set (s' := Ant.detect_frame s e) in *. clearbody s'.
  assert (Hfalse : forall b : bool, (b = true -> Ant.escapeMode s = true) -> b = false).
  { intros [|] H; [|reflexivity]. rewrite Hm in H. symmetry. now apply H. }
  destruct Hcases as [(Hc & Hl' & Hm' & _ & Ht') | (Hc & Hl' & Hrest)].
  - apply IH; [now apply Hfalse | exact Hh' | lia | lia |].
    rewrite HT, HI, Hl', Ht'. lia.
  - destruct Hrest as [(Hm' & _ & Ht') | [(Hm' & _ & Ht') | [(Hm' & _ & Ht') | H5]]].
    + apply IH; [now apply Hfalse | exact Hh' | lia | lia |].
      rewrite HT, HI, Hl', Ht'. lia.
    + apply IH; [exact Hm' | exact Hh' | lia | lia |].
      rewrite HT, HI, Hl', Ht'. nia.
    + apply IH; [now apply Hfalse | exact Hh' | lia | lia |].
      rewrite HT, HI, Hl', Ht'. nia.
    + exfalso. destruct H5 as (Hover & _). nia.
Qed.

(** A new ant during 2729 calls of [update]. *)
Lemma escape_not_before_witness :
  Ant.escapeMode
    (Ant.detect_frames
       (replicate 2729 (Ant.at_frame true (Vec.new 50 0) (Sample.nest 0 10) [] 0 0))
       Ant.new_detection) = false.
Proof.
  apply (escape_not_before
           (replicate 2729 (Ant.at_frame true (Vec.new 50 0) (Sample.nest 0 10) [] 0 0))
           Ant.new_detection).
  - reflexivity.
  - cbn [Ant.new_detection Ant.progressHistory length]. lia.
  - cbn [Ant.new_detection Ant.lastProgressCheck Ant.progressCheckInterval]. lia.
  - cbn [Ant.new_detection Ant.trappedTime]. lia.
  - rewrite length_replicate.
    cbn [Ant.new_detection Ant.lastProgressCheck Ant.progressCheckInterval
         Ant.trappedThreshold Ant.trappedTime].
    lia.
Defined.

(** The difference between the last and the first value of a history whose
    values differ by at most 30. *)
Lemma recent_le (h : list R) (Q : R -> Prop) :
  Forall Q h -> (forall x y : R, Q x -> Q y -> x - y <= 30) ->
  default 0 (last h) - default 0 (head h) <= 30.
Proof.
  intros HQ Hdiff. destruct h as [|x h]; [simpl; lra|].
  destruct (last (x :: h)) as [y|] eqn:Hlast;
    [|apply last_None in Hlast; discriminate Hlast].
  apply last_Some_elem_of in Hlast. rewrite Forall_forall in HQ.
  simpl. apply Hdiff; apply HQ; [exact Hlast | left].
Qed.

Lemma Forall_history (Q : R -> Prop) (h : list R) (x : R) :
  Forall Q h -> Q x ->
  Forall Q (if (10 <? length (h ++ [x]))%nat then tail (h ++ [x]) else h ++ [x]).
Proof.
  intros Hh Hx.
  assert (Hall : Forall Q (h ++ [x])).
  { apply Forall_app. split; [exact Hh|]. now apply Forall_cons_2. }
  destruct (10 <? length (h ++ [x]))%nat; [|exact Hall].
  destruct (h ++ [x]) as [|y t]; [exact Hall|]. simpl.
  now apply Forall_cons_1 in Hall as [_ Hall].
Qed.

(** One call of [update] from a waiting detection, the ant being held when
    the call is a check, which every 30th call is: the detection waits on,
    or this is the call 2730 and the ant enters the escape mode. *)
Lemma waiting_step (lo : R) (n : Z) (s : Ant.detection) (e : Ant.frame) :
  Ant.waiting lo n s -> (((n + 1) mod 30 = 0)%Z -> Ant.held lo e) ->
  ((n + 1 < 2730)%Z /\ Ant.waiting lo (n + 1) (Ant.detect_frame s e))
  \/ ((n + 1)%Z = 2730%Z
      /\ Ant.escapeMode (Ant.detect_frame s e) = true
      /\ Ant.escapeAttempts (Ant.detect_frame s e) = 1%Z
      /\ Ant.escapeStartTime (Ant.detect_frame s e) = Ant.clock2 e).
Proof.
  intros (k & j & Hn & Hj & Hk & Hm & Ha & Hmax & Hthr & Htt & HT & Hl & HI & Hlen & Hist)
         Hheld.
  unfold Ant.detect_frame, Ant.escape_timeout. rewrite Hm.
  unfold Ant.checkTrappedStatus. cbv zeta. rewrite Hl, HI.
  destruct (j + 1 <? 30)%Z eqn:Hcount.
  { apply Z.ltb_lt in Hcount. left. split; [lia|].
    exists k, (j + 1)%Z. unfold Ant.with_lastProgressCheck. simpl.
    repeat (split; [first [assumption | lia | reflexivity]|]). exact Hist. }
  apply Z.ltb_ge in Hcount. assert (j = 29%Z) by lia. subst j.
  assert (Hmod : ((n + 1) mod 30 = 0)%Z).
  { replace (n + 1)%Z with ((k + 1) * 30)%Z by lia. apply Z.mod_mul. lia. }
  destruct (Hheld Hmod) as [Hcarry Hband].
  unfold Ant.currentGoal. rewrite Hcarry.
  fold (Ant.nest_distance e). set (d := Ant.nest_distance e) in *.
  set (initial := if Reqb (Ant.initialDistanceToGoal s) 0 then d
                  else Ant.initialDistanceToGoal s).
  set (pushed := Ant.progressHistory s ++ [initial - d]).
  pose proof (history_length (Ant.progressHistory s) (initial - d) Hlen) as Hlen'.
  fold pushed in Hlen'.
  assert (Hist' :
    (initial = 0 /\ Forall (fun x => x = 0)
                      (if (10 <? length pushed)%nat then tail pushed else pushed))
    \/ (initial <> 0 /\ lo <= initial <= lo + 30
        /\ Forall (fun x => exists d' : R, lo <= d' <= lo + 30 /\ x = initial - d')
             (if (10 <? length pushed)%nat then tail pushed else pushed))).
  { unfold pushed, initial, Reqb.
    destruct (Req_dec_T (Ant.initialDistanceToGoal s) 0) as [H0|H0].
    - destruct Hist as [[_ Hzero] | [Hne _]]; [|contradiction].
      destruct (Req_dec_T d 0) as [Hd|Hd].
      + left. split; [exact Hd|]. apply Forall_history; [exact Hzero | cbv beta; lra].
      + right. split; [exact Hd|]. split; [exact Hband|].
        apply Forall_history.
        * eapply Forall_impl; [exact Hzero|]. intros x ->. exists d. split; [exact Hband | lra].
        * exists d. split; [exact Hband | lra].
    - destruct Hist as [[Hz _] | (_ & Hin & Hall)]; [contradiction|].
      right. split; [exact H0|]. split; [exact Hin|].
      apply Forall_history; [exact Hall|]. exists d. split; [exact Hband | reflexivity]. }
  set (history := if (10 <? length pushed)%nat then tail pushed else pushed) in *.
  clearbody history. clearbody initial.
  assert (Hrecent : default 0 (last history) - default 0 (head history) <= 30).
  { destruct Hist' as [[_ Hzero] | (_ & _ & Hall)].
    - apply (recent_le history _ Hzero). intros x y -> ->. lra.
    - apply (recent_le history _ Hall).
      intros x y (dx & Hdx & ->) (dy & Hdy & ->). lra. }
  rewrite Hthr.
  cmp (Rgtb (default 0 (last history) - default 0 (head history)) 30); [lra|].
  cbn [negb Ant.trappedThreshold Ant.trappedTime Ant.escapeMode].
  rewrite HT, Htt, Hm. cbn [negb].
  destruct (90 <? k + 1)%Z eqn:Hover; cbn [andb].
  - apply Z.ltb_lt in Hover. right. split; [lia|].
    unfold Ant.enterEscapeMode. cbn [Ant.maxEscapeAttempts Ant.escapeAttempts].
    rewrite Hmax, Ha. simpl. now repeat split.
  - apply Z.ltb_ge in Hover. left. split; [lia|].
    exists (k + 1)%Z, 0%Z. simpl.
    repeat (split; [first [assumption | lia | reflexivity]|]). exact Hist'.
Qed.

Lemma waiting_frames (lo : R) (l : list Ant.frame) : forall (n : Z) (s : Ant.detection),
  Ant.waiting lo n s ->
  (forall (i : nat) (e : Ant.frame),
     l !! i = Some e -> ((n + Z.of_nat i + 1) mod 30 = 0)%Z -> Ant.held lo e) ->
  (n + Z.of_nat (length l) < 2730)%Z ->
  Ant.waiting lo (n + Z.of_nat (length l)) (Ant.detect_frames l s).
Proof.
  induction l as [|e l IH]; intros n s Hw Hheld Hlen.
  { simpl. now rewrite Z.add_0_r. }
  cbn [length] in *. rewrite Nat2Z.inj_succ in *.
  unfold Ant.detect_frames. cbn [foldl]. fold (Ant.detect_frames l (Ant.detect_frame s e)).
  assert (He : ((n + 1) mod 30 = 0)%Z -> Ant.held lo e).
  { intros Hmod. apply (Hheld 0%nat e); [reflexivity|].
    now replace (n + Z.of_nat 0 + 1)%Z with (n + 1)%Z by lia. }
  destruct (waiting_step lo n s e Hw He) as [[_ Hw'] | [Hend _]]; [|lia].
  replace (n + Z.succ (Z.of_nat (length l)))%Z with (n + 1 + Z.of_nat (length l))%Z by lia.
  apply IH; [exact Hw' | | lia].
  intros i e' Hi Hmod. apply (Hheld (S i) e'); [exact Hi|].
  now replace (n + Z.of_nat (S i) + 1)%Z with (n + 1 + Z.of_nat i + 1)%Z by lia.
Qed.

(** X24: a new ant that, at each check of its first 2730 calls of [update]
    (every 30th call, the only calls in which the detection reads the ant),
    has food and is at a distance from the nest within a band 30 wide,
    enters the escape mode, for the first time, in the call number 2730,
    whatever it does in the other calls. *)
Theorem escape_on_call_2730 (lo : R) (l : list Ant.frame) (e : Ant.frame) :
  length l = 2729%nat ->
  (forall (i : nat) (e' : Ant.frame),
     l !! i = Some e' -> ((Z.of_nat i + 1) mod 30 = 0)%Z -> Ant.held lo e') ->
  Ant.held lo e ->
  Ant.escapeMode (Ant.detect_frames l Ant.new_detection) = false
  /\ Ant.escapeMode (Ant.detect_frames (l ++ [e]) Ant.new_detection) = true
  /\ Ant.escapeAttempts (Ant.detect_frames (l ++ [e]) Ant.new_detection) = 1%Z
  /\ Ant.escapeStartTime (Ant.detect_frames (l ++ [e]) Ant.new_detection) = Ant.clock2 e.
Proof.
  intros Hlen Hl He.
  assert (H0 : Ant.waiting lo 0 Ant.new_detection).
  { exists 0%Z, 0%Z. simpl.
    repeat (split; [first [lia | reflexivity]|]). left. split; [reflexivity | constructor]. }
  assert (Hz : Z.of_nat (length l) = 2729%Z) by (rewrite Hlen; reflexivity).
  pose proof (waiting_frames lo l 0 Ant.new_detection H0 Hl) as Hw.
  rewrite Z.add_0_l, Hz in Hw. specialize (Hw ltac:(lia)).
  split.
  { destruct Hw as (k & j & _ & _ & _ & Hm & _). exact Hm. }
  unfold Ant.detect_frames. rewrite foldl_app. cbn [foldl].
  fold (Ant.detect_frames l Ant.new_detection).
  destruct (waiting_step lo 2729 _ e Hw (fun _ => He)) as [[Hlt _] | [_ Hend]];
    [lia | exact Hend].
Qed.

(** An ant that finds food during its first 29 calls, 50 from the nest, and
    does not get nearer to the nest. *)
Lemma escape_on_call_2730_witness :
  Ant.escapeMode
    (Ant.detect_frames
       ((replicate 29 (Ant.at_frame false (Vec.new 50 0) (Sample.nest 0 10) [] 0 0)
         ++ replicate 2700 (Ant.at_frame true (Vec.new 50 0) (Sample.nest 0 10) [] 0 0))
        ++ [Ant.at_frame true (Vec.new 50 0) (Sample.nest 0 10) [] 0 7])
       Ant.new_detection) = true.
Proof.
  assert (Hd : Vec.magnitude (Vec.subtract (Vec.new 50 0) (Vec.new 0 0)) = 50).
  { unfold Vec.subtract. simpl.
    replace (Vec.new (50 - 0) (0 - 0)) with (Vec.new 50 0) by (f_equal; lra).
    apply magnitude_on_axis. lra. }
  assert (Hheld : forall c2 : R,
            Ant.held 50 (Ant.at_frame true (Vec.new 50 0) (Sample.nest 0 10) [] 0 c2)).
  { intros c2. split; [reflexivity|].
    unfold Ant.nest_distance. cbn [Ant.place Ant.home Sample.nest Nest.x Nest.y].
    rewrite Hd. lra. }
  apply (escape_on_call_2730 50
           (replicate 29 (Ant.at_frame false (Vec.new 50 0) (Sample.nest 0 10) [] 0 0)
            ++ replicate 2700 (Ant.at_frame true (Vec.new 50 0) (Sample.nest 0 10) [] 0 0))
           (Ant.at_frame true (Vec.new 50 0) (Sample.nest 0 10) [] 0 7)).
  - rewrite length_app, !length_replicate. reflexivity.
  - intros i e' Hi Hmod.
    apply lookup_app_Some in Hi as [Hi | [Hge Hi]].
    + apply lookup_replicate in Hi as [_ Hlt]. exfalso.
      rewrite Z.mod_small in Hmod by lia. lia.
    + apply lookup_replicate in Hi as [-> _]. apply Hheld.
  - apply Hheld.
Defined.
